(** * Verification of the BFS web-discovery crawlers

    Shallow embedding of the crawl engines of the repository:

    - [SimpleBFSCrawler]            (test_bfs_crawler.py)
    - [ComprehensivePDFDiscovery]   (comprehensive_pdf_discovery_test.py)
    - [RegionalEnhancedCrawler]     (regional_enhanced_crawler.py)
    - [_extract_geographic_zones]   (payer_portal_crawler.py)
    - [_filter_relevant_pdfs]       (payer_portal_crawler.py)
    - [run_comprehensive_test]      (comprehensive_pdf_discovery_test.py)

    Python [str] values are modelled as [string] (sequences of 8-bit
    characters); [str.lower] and [str.upper] are modelled on the ASCII
    letters.  Python [int] is [Z], a Python [set] of strings is
    [gset string], a [defaultdict(list)] is a [gmap], [deque] and [list]
    are [list].  Wall-clock readings are exact rationals.  The browser
    ([self.driver]), the HTTP client ([requests.head]) and the clock
    ([time.time]) are oracles acting on an abstract world that is threaded
    through the loops; a [while] loop is observed for a bounded number of
    rounds, and is proved to leave after finitely many. *)

From Stdlib Require Import ZArith QArith Lia Bool Ascii String List.
From stdpp Require Import gmap strings sorting.
Import ListNotations.

Local Close Scope Q_scope.
Local Open Scope string_scope.
Local Open Scope nat_scope.
Local Open Scope list_scope.

(* ===================================================================== *)
(** ** Python string primitives used by the crawlers *)
(* ===================================================================== *)

Module PyStr.

Definition is_upper (c : ascii) : bool :=
  (65 <=? nat_of_ascii c) && (nat_of_ascii c <=? 90).

Definition lower_char (c : ascii) : ascii :=
  if is_upper c then ascii_of_nat (nat_of_ascii c + 32) else c.

(** [s.lower()], for a string of ASCII characters: the letters A-Z are
    mapped, every other character is kept.  Statements that need the
    lower-cased text exactly ask for [Wellformed.is_ascii]. *)
Fixpoint lower (s : string) : string :=
  match s with
  | EmptyString => EmptyString
  | String c s' => String (lower_char c) (lower s')
  end.

(** [s.startswith(p)] *)
Fixpoint startswith (p s : string) : bool :=
  match p, s with
  | EmptyString, _ => true
  | String a p', String b s' => Ascii.eqb a b && startswith p' s'
  | String _ _, EmptyString => false
  end.

(** [p in s] *)
Fixpoint contains (p s : string) : bool :=
  startswith p s ||
  match s with
  | EmptyString => false
  | String _ s' => contains p s'
  end.

(** [s.endswith(suffix)] *)
Fixpoint endswith (suffix s : string) : bool :=
  String.eqb s suffix ||
  match s with
  | EmptyString => false
  | String _ s' => endswith suffix s'
  end.

(** [s.replace(old, new)] for a non-empty [old]: occurrences are replaced
    from left to right and do not overlap.  [skip] counts the characters
    of the occurrence just replaced that are still to be dropped. *)
Fixpoint replace_from (old new : string) (skip : nat) (s : string) : string :=
  match s with
  | EmptyString => EmptyString
  | String c s' =>
      match skip with
      | S k => replace_from old new k s'
      | O =>
          if startswith old s
          then new +:+ replace_from old new (String.length old - 1) s'
          else String c (replace_from old new 0 s')
      end
  end.

(** With an empty [old] Python inserts [new] before every character and
    at the end. *)
Fixpoint intersperse (new s : string) : string :=
  match s with
  | EmptyString => new
  | String c s' => new +:+ String c (intersperse new s')
  end.

Definition replace (old new s : string) : string :=
  match old with
  | EmptyString => intersperse new s
  | String _ _ => replace_from old new 0 s
  end.

(** [any(k in s for k in ks)] *)
Definition any_in (ks : list string) (s : string) : bool :=
  existsb (fun k => contains k s) ks.

End PyStr.

Import PyStr.

(* ===================================================================== *)
(** ** The regular expressions of [regional_url_indicators] *)
(* ===================================================================== *)

Module Re.

(** The fragment of Python's [re] syntax that the crawler's patterns use:
    literals, character ranges [[a-z]], character sets [[_-]], sequencing,
    [?], and (internally, for derivatives) alternation and the two
    constants. *)
Inductive regex : Type :=
| Nul                          (* matches nothing *)
| Eps                          (* matches the empty string *)
| Chr (c : ascii)
| Range (lo hi : ascii)
| OneOf (cs : list ascii)
| Cat (r1 r2 : regex)
| Alt (r1 r2 : regex)
| Opt (r : regex).

Fixpoint lit (s : string) : regex :=
  match s with
  | EmptyString => Eps
  | String c s' => Cat (Chr c) (lit s')
  end.

Fixpoint nullable (r : regex) : bool :=
  match r with
  | Nul => false
  | Eps => true
  | Chr _ => false
  | Range _ _ => false
  | OneOf _ => false
  | Cat r1 r2 => nullable r1 && nullable r2
  | Alt r1 r2 => nullable r1 || nullable r2
  | Opt _ => true
  end.

Definition in_range (lo hi c : ascii) : bool :=
  (nat_of_ascii lo <=? nat_of_ascii c) && (nat_of_ascii c <=? nat_of_ascii hi).

(** Brzozowski derivative. *)
Fixpoint deriv (c : ascii) (r : regex) : regex :=
  match r with
  | Nul => Nul
  | Eps => Nul
  | Chr a => if Ascii.eqb a c then Eps else Nul
  | Range lo hi => if in_range lo hi c then Eps else Nul
  | OneOf cs => if existsb (Ascii.eqb c) cs then Eps else Nul
  | Cat r1 r2 =>
      if nullable r1
      then Alt (Cat (deriv c r1) r2) (deriv c r2)
      else Cat (deriv c r1) r2
  | Alt r1 r2 => Alt (deriv c r1) (deriv c r2)
  | Opt r1 => deriv c r1
  end.

(** Some prefix of [s] matches [r] ([re.match]). *)
Fixpoint match_prefix (r : regex) (s : string) : bool :=
  nullable r ||
  match s with
  | EmptyString => false
  | String c s' => match_prefix (deriv c r) s'
  end.

(** [re.search(r, s)] as a truth value. *)
Fixpoint search (r : regex) (s : string) : bool :=
  match_prefix r s ||
  match s with
  | EmptyString => false
  | String _ s' => search r s'
  end.

End Re.

(* ===================================================================== *)
(** ** The outside world: URL library, browser, clock *)
(* ===================================================================== *)

(** [urllib.parse] as the crawlers use it.  [urljoin base href] is [None]
    when the library raises [ValueError]; [netloc u] stands for
    [urlparse(u).netloc]. *)
Class UrlLib : Type := {
  urljoin : string -> string -> option string;
  netloc : string -> string
}.

(** What one page visit yields.  [Page text links] stands for a page whose
    [soup.get_text()] is [text] and whose [soup.find_all('a', href=True)]
    are [links], each a pair of [link['href']] and
    [link.get_text(strip=True)], in document order.  [FetchError] stands for
    any exception raised by [driver.get], the wait for the body, or the
    parse. *)
Inductive fetch_result : Type :=
| FetchError
| Page (page_text : string) (links : list (string * string)).

(** The browser session, the HTTP client and the wall clock act on a world
    of type [W].  Clock readings are seconds, kept exact as rationals. *)
Class Web (W : Type) : Type := {
  driver_get : W -> string -> W * fetch_result;
  requests_head : W -> string -> W * option Z;
  time_time : W -> W * Q
}.

(* ===================================================================== *)
(** ** The BFS loop shared by [SimpleBFSCrawler] and
       [ComprehensivePDFDiscovery] *)
(* ===================================================================== *)

(** [discover_pdfs_bfs] is written out twice in the repository
    (test_bfs_crawler.py:70-148, comprehensive_pdf_discovery_test.py:167-224).
    The two copies differ in the keyword list of [is_relevant_link], in the
    ceiling on [len(visited_urls)] (the literal 50, resp.
    [self.max_urls_per_payer]), in where the visited set lives (an attribute
    of the crawler, resp. a fresh local), and in that only the first keeps
    [all_links_found].  The loop is embedded once, over these parameters. *)
Module PdfBfs.

(** [is_pdf_url(url)]: [url.lower().endswith('.pdf') or '.pdf' in url.lower()] *)
Definition is_pdf_url (url : string) : bool :=
  endswith ".pdf" (lower url) || contains ".pdf" (lower url).

(** [is_relevant_link(text, href)] over a given [relevant_keywords]. *)
Definition is_relevant_link (relevant_keywords : list string)
    (text href : string) : bool :=
  let text_lower := lower text in
  let href_lower := lower href in
  let combined := text_lower +:+ " " +:+ href_lower in
  any_in relevant_keywords combined.

Record Config : Type := {
  relevant_keywords : list string;
  max_depth : Z;               (* self.max_depth *)
  max_urls : Z                 (* ceiling on len(visited_urls) *)
}.

(** An entry of [all_links_found]. *)
Record LinkRecord : Type := {
  link_url : string;
  link_text : string;
  link_depth : Z;
  link_parent : string
}.

(** The observable actions of the loop, newest first in [log]:
    [Exploring d u] is the "Exploring" log line that immediately precedes
    [self.driver.get(u)]; [FoundPDF d u] is the "Found PDF" log line, [d]
    being the depth of the page on which the link was found;
    [ErrorProcessing u] is the warning of the [except] clause. *)
Inductive Event : Type :=
| Exploring (depth : Z) (url : string)
| FoundPDF (depth : Z) (url : string)
| ErrorProcessing (url : string).

Record State (W : Type) : Type := {
  queue : list (string * Z);
  visited_urls : gset string;
  pdfs_found : gset string;
  all_links_found : list LinkRecord;
  world : W;
  log : list Event
}.
Arguments queue {W} _.
Arguments visited_urls {W} _.
Arguments pdfs_found {W} _.
Arguments all_links_found {W} _.
Arguments world {W} _.
Arguments log {W} _.

Definition set_queue {W} (q : list (string * Z)) (st : State W) : State W :=
  {| queue := q; visited_urls := visited_urls st; pdfs_found := pdfs_found st;
     all_links_found := all_links_found st; world := world st; log := log st |}.

Definition set_world {W} (w : W) (st : State W) : State W :=
  {| queue := queue st; visited_urls := visited_urls st;
     pdfs_found := pdfs_found st; all_links_found := all_links_found st;
     world := w; log := log st |}.

Definition add_visited {W} (u : string) (st : State W) : State W :=
  {| queue := queue st; visited_urls := {[u]} ∪ visited_urls st;
     pdfs_found := pdfs_found st; all_links_found := all_links_found st;
     world := world st; log := log st |}.

Definition add_pdf {W} (u : string) (st : State W) : State W :=
  {| queue := queue st; visited_urls := visited_urls st;
     pdfs_found := {[u]} ∪ pdfs_found st;
     all_links_found := all_links_found st; world := world st;
     log := log st |}.

Definition add_link {W} (r : LinkRecord) (st : State W) : State W :=
  {| queue := queue st; visited_urls := visited_urls st;
     pdfs_found := pdfs_found st;
     all_links_found := all_links_found st ++ [r]; world := world st;
     log := log st |}.

Definition add_event {W} (e : Event) (st : State W) : State W :=
  {| queue := queue st; visited_urls := visited_urls st;
     pdfs_found := pdfs_found st; all_links_found := all_links_found st;
     world := world st; log := e :: log st |}.

(** [any(domain in parsed.netloc for domain in allowed_domains)] *)
Definition domain_allowed `{UrlLib} (allowed_domains : list string)
    (url : string) : bool :=
  existsb (fun domain => contains domain (netloc url)) allowed_domains.

(** One pass of [for link in links] on one anchor, given its resolved
    [absolute_url]. *)
Definition process_link `{UrlLib} {W} (cfg : Config)
    (allowed_domains : list string) (current_url : string) (depth : Z)
    (href text absolute_url : string) (st : State W) : State W :=
  if negb (domain_allowed allowed_domains absolute_url) then st
  else
    let st1 :=
      if is_relevant_link (relevant_keywords cfg) text href
      then add_link {| link_url := absolute_url; link_text := text;
                       link_depth := depth; link_parent := current_url |} st
      else st in
    if is_pdf_url absolute_url
    then add_event (FoundPDF depth absolute_url) (add_pdf absolute_url st1)
    else if is_relevant_link (relevant_keywords cfg) text href
            && (depth <? max_depth cfg)%Z
            && negb (bool_decide (absolute_url ∈ visited_urls st1))
    then set_queue (queue st1 ++ [(absolute_url, (depth + 1)%Z)]) st1
    else st1.

(** The [for link in links] loop.  A [ValueError] from [urljoin] leaves the
    loop through the [except] clause; what was recorded so far stays. *)
Fixpoint process_links `{UrlLib} {W} (cfg : Config)
    (allowed_domains : list string) (current_url : string) (depth : Z)
    (links : list (string * string)) (st : State W) : State W :=
  match links with
  | [] => st
  | (href, text) :: rest =>
      match urljoin current_url href with
      | None => add_event (ErrorProcessing current_url) st
      | Some absolute_url =>
          process_links cfg allowed_domains current_url depth rest
            (process_link cfg allowed_domains current_url depth
               href text absolute_url st)
      end
  end.

(** [while queue and len(visited_urls) < max_urls] *)
Definition loop_condition {W} (cfg : Config) (st : State W) : bool :=
  match queue st with
  | [] => false
  | _ :: _ => (Z.of_nat (size (visited_urls st)) <? max_urls cfg)%Z
  end.

(** The body of the [while] loop. *)
Definition iteration `{UrlLib} `{Web W} (cfg : Config)
    (allowed_domains : list string) (st : State W) : State W :=
  match queue st with
  | [] => st
  | (current_url, depth) :: rest =>
      let st0 := set_queue rest st in
      if bool_decide (current_url ∈ visited_urls st0)
         || (max_depth cfg <? depth)%Z
      then st0
      else
        let st1 := add_event (Exploring depth current_url)
                     (add_visited current_url st0) in
        let (w', r) := driver_get (world st1) current_url in
        let st2 := set_world w' st1 in
        match r with
        | FetchError => add_event (ErrorProcessing current_url) st2
        | Page _ links =>
            process_links cfg allowed_domains current_url depth links st2
        end
  end.

(** Where a run of the loop stands after a bounded number of iterations. *)
Inductive Outcome (S : Type) : Type :=
| Completed (s : S)     (* the loop condition was found false *)
| Running (s : S).      (* the condition still holds; more iterations follow *)
Arguments Completed {S} _.
Arguments Running {S} _.

Definition outcome_state {S} (o : Outcome S) : S :=
  match o with Completed s => s | Running s => s end.

(** The [while] loop, observed for at most [fuel] iterations. *)
Fixpoint bfs_loop `{UrlLib} `{Web W} (cfg : Config)
    (allowed_domains : list string) (fuel : nat) (st : State W)
    : Outcome (State W) :=
  if loop_condition cfg st then
    match fuel with
    | O => Running st
    | S fuel' => bfs_loop cfg allowed_domains fuel' (iteration cfg allowed_domains st)
    end
  else Completed st.

(** [queue = deque([(url, 0) for url in start_urls])] and the other locals. *)
Definition initial_state {W} (visited : gset string)
    (start_urls : list string) (w : W) : State W :=
  {| queue := map (fun url => (url, 0%Z)) start_urls;
     visited_urls := visited; pdfs_found := ∅; all_links_found := [];
     world := w; log := [] |}.

(** The URLs handed to [driver.get], oldest first. *)
Definition fetched (l : list Event) : list string :=
  reverse (omap (fun e => match e with Exploring _ u => Some u | _ => None end) l).

End PdfBfs.

(* ===================================================================== *)
(** ** test_bfs_crawler.py: [SimpleBFSCrawler] *)
(* ===================================================================== *)

Module SimpleBFSCrawler.

Definition is_pdf_url : string -> bool := PdfBfs.is_pdf_url.

Definition relevant_keywords : list string :=
  [ "provider"; "manual"; "guide"; "policy"; "procedure";
    "prior auth"; "authorization"; "timely filing"; "appeals";
    "claims"; "billing"; "coverage"; "benefits"; "forms" ].

Definition is_relevant_link : string -> string -> bool :=
  PdfBfs.is_relevant_link relevant_keywords.

(** The attributes of [self] that the loop reads. *)
Record Crawler : Type := {
  max_depth : Z;
  visited_urls : gset string
}.

Definition config (self : Crawler) : PdfBfs.Config :=
  {| PdfBfs.relevant_keywords := relevant_keywords;
     PdfBfs.max_depth := max_depth self;
     PdfBfs.max_urls := 50 |}.

(** The [while] loop of [discover_pdfs_bfs], for at most [fuel] rounds. *)
Definition crawl `{UrlLib} `{Web W} (self : Crawler)
    (start_urls allowed_domains : list string) (fuel : nat) (w : W)
    : PdfBfs.Outcome (PdfBfs.State W) :=
  PdfBfs.bfs_loop (config self) allowed_domains fuel
    (PdfBfs.initial_state (visited_urls self) start_urls w).

(** The dictionary that [discover_pdfs_bfs] returns. *)
Record Result : Type := {
  all_links : list PdfBfs.LinkRecord;
  pdfs_discovered : list string;
  urls_visited : list string;
  total_links_found : nat;
  total_pdfs_found : nat;
  total_urls_visited : nat
}.

Definition result {W} (st : PdfBfs.State W) : Result :=
  {| all_links := PdfBfs.all_links_found st;
     pdfs_discovered := elements (PdfBfs.pdfs_found st);
     urls_visited := elements (PdfBfs.visited_urls st);
     total_links_found := length (PdfBfs.all_links_found st);
     total_pdfs_found := size (PdfBfs.pdfs_found st);
     total_urls_visited := size (PdfBfs.visited_urls st) |}.

(** [discover_pdfs_bfs(start_urls, allowed_domains)]: [None] while the
    loop has not left within [fuel] rounds. *)
Definition discover_pdfs_bfs `{UrlLib} `{Web W} (self : Crawler)
    (start_urls allowed_domains : list string) (fuel : nat) (w : W)
    : option (W * Result) :=
  match crawl self start_urls allowed_domains fuel w with
  | PdfBfs.Completed st => Some (PdfBfs.world st, result st)
  | PdfBfs.Running _ => None
  end.

End SimpleBFSCrawler.

(* ===================================================================== *)
(** ** comprehensive_pdf_discovery_test.py: [ComprehensivePDFDiscovery] *)
(* ===================================================================== *)

Module ComprehensivePDFDiscovery.

Definition is_pdf_url : string -> bool := PdfBfs.is_pdf_url.

Definition relevant_keywords : list string :=
  [ "provider"; "manual"; "guide"; "policy"; "procedure";
    "prior auth"; "authorization"; "timely filing"; "appeals";
    "claims"; "billing"; "coverage"; "benefits"; "forms";
    "documents"; "resources"; "tools"; "materials" ].

Definition is_relevant_link : string -> string -> bool :=
  PdfBfs.is_relevant_link relevant_keywords.

Definition portal_patterns : list string :=
  [ "provider"; "providers"; "health-care-professionals";
    "healthcare-professionals"; "provider-portal"; "provider-resources";
    "provider-support"; "professional"; "professionals"; "practitioner";
    "physician"; "doctor"; "medical-professionals" ].

Definition portal_subdomains : list string :=
  [ "provider"; "providers"; "professional"; "portal"; "prov" ].

(** The attributes of [self] set by the constructor's arguments. *)
Record Crawler : Type := {
  max_depth : Z;
  max_urls_per_payer : Z
}.

Definition config (self : Crawler) : PdfBfs.Config :=
  {| PdfBfs.relevant_keywords := relevant_keywords;
     PdfBfs.max_depth := max_depth self;
     PdfBfs.max_urls := max_urls_per_payer self |}.

(** The [while] loop of [discover_pdfs_bfs], for at most [fuel] rounds;
    [visited_urls] starts as a fresh empty set. *)
Definition crawl `{UrlLib} `{Web W} (self : Crawler)
    (starting_urls allowed_domains : list string) (fuel : nat) (w : W)
    : PdfBfs.Outcome (PdfBfs.State W) :=
  PdfBfs.bfs_loop (config self) allowed_domains fuel
    (PdfBfs.initial_state ∅ starting_urls w).

(** The dictionary that [discover_pdfs_bfs] returns. *)
Record Result : Type := {
  pdfs_discovered : list string;
  urls_visited : list string;
  total_pdfs : nat;
  total_urls_visited : nat
}.

Definition result {W} (st : PdfBfs.State W) : Result :=
  {| pdfs_discovered := elements (PdfBfs.pdfs_found st);
     urls_visited := elements (PdfBfs.visited_urls st);
     total_pdfs := size (PdfBfs.pdfs_found st);
     total_urls_visited := size (PdfBfs.visited_urls st) |}.

Definition discover_pdfs_bfs `{UrlLib} `{Web W} (self : Crawler)
    (starting_urls allowed_domains : list string) (fuel : nat) (w : W)
    : option (W * Result) :=
  match crawl self starting_urls allowed_domains fuel w with
  | PdfBfs.Completed st => Some (PdfBfs.world st, result st)
  | PdfBfs.Running _ => None
  end.

(** [check_url_validity(url)]: a HEAD request; [None] stands for an
    exception of [requests.head], which the bare [except] turns into
    [False]. *)
Definition check_url_validity `{Web W} (w : W) (url : string) : W * bool :=
  let (w', status_code) := requests_head w url in
  match status_code with
  | Some c => (w', (200 <=? c)%Z && (c <? 400)%Z)
  | None => (w', false)
  end.

(** [for url in candidate_urls] with its [break]. *)
Fixpoint try_candidates `{Web W} (candidate_urls : list string) (w : W)
    (discovered_urls : list string) : W * list string :=
  match candidate_urls with
  | [] => (w, discovered_urls)
  | url :: rest =>
      let (w', valid) := check_url_validity w url in
      if valid && negb (bool_decide (url ∈@{list string} discovered_urls))
      then
        let discovered_urls' := (discovered_urls ++ [url])%list in
        if 3 <=? length discovered_urls'
        then (w', discovered_urls')
        else try_candidates rest w' discovered_urls'
      else try_candidates rest w' discovered_urls
  end.

(** [for pattern in self.portal_patterns[:5]] with its [break]. *)
Fixpoint try_patterns `{Web W} (base_url base_domain : string)
    (patterns : list string) (w : W) (discovered_urls : list string)
    : W * list string :=
  match patterns with
  | [] => (w, discovered_urls)
  | pattern :: rest =>
      let candidate_urls :=
        [ base_url +:+ "/" +:+ pattern +:+ "/";
          "https://provider." +:+ base_domain +:+ "/";
          "https://providers." +:+ base_domain +:+ "/" ] in
      let (w', discovered_urls') :=
        try_candidates candidate_urls w discovered_urls in
      if 3 <=? length discovered_urls'
      then (w', discovered_urls')
      else try_patterns base_url base_domain rest w' discovered_urls'
  end.

(** [discover_provider_portals(company_name, base_domain, known_portal)];
    a [known_portal] that is missing, NaN or empty is [None]. *)
Definition discover_provider_portals `{Web W} (base_domain : string)
    (known_portal : option string) (w : W) : W * list string :=
  let discovered_urls :=
    match known_portal with
    | Some p => if String.eqb p "" then [] else [p]
    | None => []
    end in
  let base_url :=
    if negb (startswith "http" base_domain)
    then "https://www." +:+ base_domain
    else base_domain in
  try_patterns base_url base_domain (take 5 portal_patterns) w discovered_urls.

(** The dictionary that [test_single_payer] returns on success. *)
Record PayerResult : Type := {
  bfs_result : Result;
  elapsed_time_minutes : Q;
  portal_urls_used : list string;
  allowed_domains_used : list string
}.

Inductive PayerOutcome : Type :=
| PayerError (msg : string)        (* [{'error': ...}] *)
| PayerDone (r : PayerResult)
| PayerRunning.                     (* the BFS loop is still running *)

(** [test_single_payer(company_name, base_domain, known_portal,
    time_limit_minutes)].  The source reads [time_limit_minutes] only to
    print it. *)
Definition test_single_payer `{UrlLib} `{Web W} (self : Crawler)
    (base_domain : string) (known_portal : option string)
    (time_limit_minutes : Z) (fuel : nat) (w : W) : W * PayerOutcome :=
  let (w0, start_time) := time_time w in
  let (w1, portal_urls) := discover_provider_portals base_domain known_portal w0 in
  match portal_urls with
  | [] => (w1, PayerError "No portal URLs found")
  | _ :: _ =>
      let allowed_domains :=
        ([base_domain]
        ++ (if negb (startswith "www." base_domain)
            then ["www." +:+ base_domain] else [])
        ++ map (fun subdomain => subdomain +:+ "." +:+ base_domain)
             portal_subdomains)%list in
      match discover_pdfs_bfs self portal_urls allowed_domains fuel w1 with
      | None => (w1, PayerRunning)
      | Some (w2, results) =>
          let (w3, t) := time_time w2 in
          let elapsed_time := (t - start_time)%Q in
          (w3, PayerDone {| bfs_result := results;
                            elapsed_time_minutes := (elapsed_time / 60)%Q;
                            portal_urls_used := portal_urls;
                            allowed_domains_used := allowed_domains |})
      end
  end.

End ComprehensivePDFDiscovery.

(* ===================================================================== *)
(** ** regional_enhanced_crawler.py: [RegionalEnhancedCrawler] *)
(* ===================================================================== *)

Module RegionalEnhancedCrawler.

(** [self.us_states], in the order of the dictionary literal. *)
Definition us_states : list (string * string) :=
  [ ("AL", "Alabama"); ("AK", "Alaska"); ("AZ", "Arizona");
    ("AR", "Arkansas"); ("CA", "California");
    ("CO", "Colorado"); ("CT", "Connecticut"); ("DE", "Delaware");
    ("FL", "Florida"); ("GA", "Georgia");
    ("HI", "Hawaii"); ("ID", "Idaho"); ("IL", "Illinois");
    ("IN", "Indiana"); ("IA", "Iowa");
    ("KS", "Kansas"); ("KY", "Kentucky"); ("LA", "Louisiana");
    ("ME", "Maine"); ("MD", "Maryland");
    ("MA", "Massachusetts"); ("MI", "Michigan"); ("MN", "Minnesota");
    ("MS", "Mississippi"); ("MO", "Missouri");
    ("MT", "Montana"); ("NE", "Nebraska"); ("NV", "Nevada");
    ("NH", "New Hampshire"); ("NJ", "New Jersey");
    ("NM", "New Mexico"); ("NY", "New York"); ("NC", "North Carolina");
    ("ND", "North Dakota"); ("OH", "Ohio");
    ("OK", "Oklahoma"); ("OR", "Oregon"); ("PA", "Pennsylvania");
    ("RI", "Rhode Island"); ("SC", "South Carolina");
    ("SD", "South Dakota"); ("TN", "Tennessee"); ("TX", "Texas");
    ("UT", "Utah"); ("VT", "Vermont");
    ("VA", "Virginia"); ("WA", "Washington"); ("WV", "West Virginia");
    ("WI", "Wisconsin"); ("WY", "Wyoming");
    ("DC", "District of Columbia") ].

Definition regional_keywords : list string :=
  [ "state specific"; "state-specific"; "by state"; "regional";
    "medicaid"; "medicare"; "state plan"; "local coverage";
    "geographic"; "territory"; "area"; "zone" ].

Definition seq_re (rs : list Re.regex) : Re.regex :=
  foldr Re.Cat Re.Eps rs.

Definition regional_url_indicators : list Re.regex :=
  [ seq_re [Re.lit "/state"; Re.Opt (Re.OneOf ["s"%char]); Re.lit "/"];
    seq_re [Re.lit "/region"; Re.Opt (Re.OneOf ["s"%char]); Re.lit "/"];
    seq_re [Re.lit "/area"; Re.Opt (Re.OneOf ["s"%char]); Re.lit "/"];
    Re.lit "/local/";
    Re.lit "/geographic/";
    seq_re [Re.lit "/"; Re.Range "a" "z"; Re.Range "a" "z"; Re.lit "/"];
    seq_re [Re.lit "/"; Re.Range "A" "Z"; Re.Range "A" "Z";
            Re.OneOf ["_"%char; "-"%char]];
    Re.lit "medicaid";
    Re.lit "medicare";
    seq_re [Re.lit "state"; Re.OneOf ["_"%char; "-"%char]; Re.lit "specific"] ].

(** [detect_regional_indicators(url, text)] *)
Definition detect_regional_indicators (url text : string) : gset string :=
  let indicators : gset string := ∅ in
  (* URL-based detection *)
  let url_lower := lower url in
  let indicators :=
    foldl (fun (acc : gset string) pattern =>
             if Re.search pattern url_lower
             then {["regional_url_pattern"]} ∪ acc else acc)
          indicators regional_url_indicators in
  (* State code detection in URL *)
  let indicators :=
    foldl (fun (acc : gset string) '(state_code, _) =>
             if contains ("/" +:+ lower state_code +:+ "/") url_lower
                || contains (state_code +:+ "_") url_lower
             then {["state_" +:+ state_code]} ∪ acc else acc)
          indicators us_states in
  (* Content-based detection *)
  let text_lower := lower text in
  let indicators :=
    foldl (fun (acc : gset string) keyword =>
             if contains keyword text_lower
             then {["keyword_" +:+ replace " " "_" keyword]} ∪ acc else acc)
          indicators regional_keywords in
  (* State name detection in content *)
  foldl (fun (acc : gset string) '(state_code, state_name) =>
           if contains (lower state_name) text_lower
           then {["state_" +:+ state_code]} ∪ acc else acc)
        indicators us_states.

Definition high_value_terms : list string :=
  [ "provider portal"; "state portal"; "select your state";
    "choose state"; "by location" ].

(** [score_regional_relevance(url, text)] *)
Definition score_regional_relevance (url text : string) : Z :=
  let url_lower := lower url in
  let text_lower := lower text in
  let score := 0%Z in
  let score :=
    if existsb (fun pattern => Re.search pattern url_lower)
         regional_url_indicators
    then (score + 5)%Z else score in
  let score :=
    foldl (fun acc keyword =>
             if contains keyword text_lower then (acc + 2)%Z else acc)
          score regional_keywords in
  let state_mentions :=
    Z.of_nat (length (List.filter (fun '(_, state_name) =>
                 contains (lower state_name) text_lower) us_states)) in
  let score := (score + Z.min state_mentions 10)%Z in
  foldl (fun acc term =>
           if contains term text_lower then (acc + 3)%Z else acc)
        score high_value_terms.

Definition priority_states : list string :=
  [ "CA"; "TX"; "FL"; "NY"; "PA"; "IL"; "OH"; "GA"; "NC"; "MI" ].

(** The URL templates of [generate_state_specific_urls]; a template is the
    text before and after the [{state}] placeholder. *)
Definition patterns (base_domain : string) : list (string * string) :=
  [ ("https://www." +:+ base_domain +:+ "/providers/", "/");
    ("https://provider." +:+ base_domain +:+ "/", "/");
    ("https://providers." +:+ base_domain +:+ "/", "/");
    ("https://www." +:+ base_domain +:+ "/state/", "/");
    ("https://www." +:+ base_domain +:+ "/regional/", "/");
    ("https://www." +:+ base_domain +:+ "/", "/providers/");
    ("https://www." +:+ base_domain +:+ "/medicaid/", "/");
    ("https://www." +:+ base_domain +:+ "/medicare/", "/") ].

(** [pattern.format(state=s)], for a pattern whose only braces are those
    of the placeholder [{state}]: the patterns are built from
    [base_domain], and a brace in it would be read by [str.format] as part
    of a replacement field.  Statements about the generated URLs ask for a
    [Wellformed.plain_url] as first seed. *)
Definition format_state (pattern : string * string) (s : string) : string :=
  fst pattern +:+ s +:+ snd pattern.

(** [self.us_states[state_code]] *)
Definition state_name_of (state_code : string) : string :=
  match find (fun '(c, _) => String.eqb c state_code) us_states with
  | Some (_, state_name) => state_name
  | None => ""
  end.

(** [generate_state_specific_urls(base_url, base_domain)] *)
Definition generate_state_specific_urls (base_url base_domain : string)
    : list string :=
  concat
    (map (fun state_code =>
            let state_name := state_name_of state_code in
            concat
              (map (fun pattern =>
                      [ format_state pattern (lower state_code);
                        format_state pattern
                          (replace " " "-" (lower state_name)) ])
                   (patterns base_domain)))
         priority_states).

(** The queue with which [discover_regional_content_bfs] enters its loop:
    entries are [(url, depth, regional_score)].  [urlparse] is called on
    the first seed here, and on every URL taken from the queue in the loop,
    outside any [try]; the model describes the calls in which it does not
    raise [ValueError], and the statements that say that the call returns
    ask for seeds that are [Wellformed.plain_url]. *)
Definition initial_queue `{UrlLib} (starting_urls : list string)
    : list (string * Z * Z) :=
  let queue := map (fun url => (url, 0%Z, 0%Z)) starting_urls in
  match starting_urls with
  | [] => queue
  | first_url :: _ =>
      let base_domain :=
        replace "providers." ""
          (replace "provider." "" (replace "www." "" (netloc first_url))) in
      let state_urls := generate_state_specific_urls first_url base_domain in
      (queue ++ map (fun url => (url, 1%Z, 5%Z)) (take 20 state_urls))%list
  end.

(** An entry of [relevant_pages]. *)
Record PageRecord : Type := {
  page_url : string;
  page_score : Z;
  page_indicators : list string;
  page_depth : Z
}.

(** The observable actions of the loop, newest first in [log]:
    [Exploring d u] is the "Exploring" log line that immediately precedes
    [self.driver.get(u)]; [FoundPDF d u] is the "PDF found" log line, [d]
    being the depth of the page on which the link was found;
    [ErrorProcessing u] is the warning of the [except] clause. *)
Inductive Event : Type :=
| Exploring (depth : Z) (url : string)
| FoundPDF (depth : Z) (url : string)
| ErrorProcessing (url : string).

Record State (W : Type) : Type := {
  queue : list (string * Z * Z);
  visited_urls : gset string;              (* self.visited_urls *)
  urls_processed : Z;
  regional_pdfs : gmap string (list string);
  all_pdfs : list string;
  relevant_pages : list PageRecord;
  state_coverage : gset string;
  world : W;
  log : list Event
}.
Arguments queue {W} _.
Arguments visited_urls {W} _.
Arguments urls_processed {W} _.
Arguments regional_pdfs {W} _.
Arguments all_pdfs {W} _.
Arguments relevant_pages {W} _.
Arguments state_coverage {W} _.
Arguments world {W} _.
Arguments log {W} _.

Definition set_queue {W} (q : list (string * Z * Z)) (st : State W) : State W :=
  {| queue := q; visited_urls := visited_urls st;
     urls_processed := urls_processed st; regional_pdfs := regional_pdfs st;
     all_pdfs := all_pdfs st; relevant_pages := relevant_pages st;
     state_coverage := state_coverage st; world := world st; log := log st |}.

Definition set_world {W} (w : W) (st : State W) : State W :=
  {| queue := queue st; visited_urls := visited_urls st;
     urls_processed := urls_processed st; regional_pdfs := regional_pdfs st;
     all_pdfs := all_pdfs st; relevant_pages := relevant_pages st;
     state_coverage := state_coverage st; world := w; log := log st |}.

(** [self.visited_urls.add(u); urls_processed += 1] *)
Definition mark_processed {W} (u : string) (st : State W) : State W :=
  {| queue := queue st; visited_urls := {[u]} ∪ visited_urls st;
     urls_processed := (urls_processed st + 1)%Z;
     regional_pdfs := regional_pdfs st;
     all_pdfs := all_pdfs st; relevant_pages := relevant_pages st;
     state_coverage := state_coverage st; world := world st; log := log st |}.

Definition set_regional_pdfs {W} (m : gmap string (list string))
    (st : State W) : State W :=
  {| queue := queue st; visited_urls := visited_urls st;
     urls_processed := urls_processed st; regional_pdfs := m;
     all_pdfs := all_pdfs st; relevant_pages := relevant_pages st;
     state_coverage := state_coverage st; world := world st; log := log st |}.

Definition add_pdf {W} (u : string) (st : State W) : State W :=
  {| queue := queue st; visited_urls := visited_urls st;
     urls_processed := urls_processed st; regional_pdfs := regional_pdfs st;
     all_pdfs := all_pdfs st ++ [u]; relevant_pages := relevant_pages st;
     state_coverage := state_coverage st; world := world st; log := log st |}.

Definition add_relevant_page {W} (p : PageRecord) (st : State W) : State W :=
  {| queue := queue st; visited_urls := visited_urls st;
     urls_processed := urls_processed st; regional_pdfs := regional_pdfs st;
     all_pdfs := all_pdfs st; relevant_pages := relevant_pages st ++ [p];
     state_coverage := state_coverage st; world := world st; log := log st |}.

Definition set_state_coverage {W} (c : gset string) (st : State W) : State W :=
  {| queue := queue st; visited_urls := visited_urls st;
     urls_processed := urls_processed st; regional_pdfs := regional_pdfs st;
     all_pdfs := all_pdfs st; relevant_pages := relevant_pages st;
     state_coverage := c; world := world st; log := log st |}.

Definition add_event {W} (e : Event) (st : State W) : State W :=
  {| queue := queue st; visited_urls := visited_urls st;
     urls_processed := urls_processed st; regional_pdfs := regional_pdfs st;
     all_pdfs := all_pdfs st; relevant_pages := relevant_pages st;
     state_coverage := state_coverage st; world := world st;
     log := e :: log st |}.

(** [any(domain in parsed.netloc for domain in allowed_domains)] *)
Definition domain_allowed `{UrlLib} (allowed_domains : list string)
    (url : string) : bool :=
  existsb (fun domain => contains domain (netloc url)) allowed_domains.

(** [indicator.split('_')[1]] for an indicator that contains ['_']. *)
Fixpoint until_underscore (s : string) : string :=
  match s with
  | EmptyString => EmptyString
  | String c s' =>
      if Ascii.eqb c "_" then EmptyString else String c (until_underscore s')
  end.

Fixpoint after_underscore (s : string) : string :=
  match s with
  | EmptyString => EmptyString
  | String c s' => if Ascii.eqb c "_" then s' else after_underscore s'
  end.

Definition split_field1 (indicator : string) : string :=
  until_underscore (after_underscore indicator).

Definition is_state_code (state_code : string) : bool :=
  existsb (fun '(c, _) => String.eqb c state_code) us_states.

(** "Categorize PDF by state if detected": the loop over [pdf_indicators]. *)
Definition categorize_pdf (absolute_url link_text : string)
    (regional_pdfs : gmap string (list string)) : gmap string (list string) :=
  let pdf_indicators := detect_regional_indicators absolute_url link_text in
  foldl (fun (m : gmap string (list string)) indicator =>
           if startswith "state_" indicator then
             let state_code := split_field1 indicator in
             if is_state_code state_code
             then <[state_code := (default [] (m !! state_code) ++ [absolute_url])%list]> m
             else m
           else m)
        regional_pdfs (elements pdf_indicators).

(** One pass of [for link in links] on one anchor, given its resolved
    [absolute_url]; [link_text] is already lower-cased. *)
Definition process_link `{UrlLib} {W} (self_max_depth : Z)
    (allowed_domains : list string) (depth : Z)
    (link_text absolute_url : string) (st : State W) : State W :=
  if negb (domain_allowed allowed_domains absolute_url) then st
  else if endswith ".pdf" (lower absolute_url)
          || contains ".pdf" (lower absolute_url)
  then
    add_event (FoundPDF depth absolute_url)
      (set_regional_pdfs
         (categorize_pdf absolute_url link_text (regional_pdfs st))
         (add_pdf absolute_url st))
  else
    let link_regional_score := score_regional_relevance absolute_url link_text in
    if (3 <=? link_regional_score)%Z
       && (depth <? self_max_depth)%Z
       && negb (bool_decide (absolute_url ∈ visited_urls st))
    then set_queue (queue st ++ [(absolute_url, (depth + 1)%Z, link_regional_score)]) st
    else st.

(** The [for link in links] loop; the flag is [false] when a [ValueError]
    from [urljoin] left it through the [except] clause. *)
Fixpoint process_links `{UrlLib} {W} (self_max_depth : Z)
    (allowed_domains : list string) (current_url : string) (depth : Z)
    (links : list (string * string)) (st : State W) : State W * bool :=
  match links with
  | [] => (st, true)
  | (href, text) :: rest =>
      let link_text := lower text in
      match urljoin current_url href with
      | None => (st, false)
      | Some absolute_url =>
          process_links self_max_depth allowed_domains current_url depth rest
            (process_link self_max_depth allowed_domains depth
               link_text absolute_url st)
      end
  end.

(** "Extract state coverage from page" *)
Definition extend_coverage (regional_indicators coverage : gset string)
    : gset string :=
  foldl (fun (acc : gset string) '(state_code, _) =>
           if bool_decide ("state_" +:+ state_code ∈ regional_indicators)
           then {[state_code]} ∪ acc else acc)
        coverage us_states.

(** The part of the loop body inside [try], after the page was fetched. *)
Definition process_page `{UrlLib} {W} (self_max_depth : Z)
    (allowed_domains : list string) (current_url : string) (depth : Z)
    (page_text : string) (links : list (string * string)) (st : State W)
    : State W :=
  let regional_indicators := detect_regional_indicators current_url page_text in
  let page_regional_score := score_regional_relevance current_url page_text in
  let st1 :=
    set_state_coverage
      (extend_coverage regional_indicators (state_coverage st)) st in
  let (st2, ok) :=
    process_links self_max_depth allowed_domains current_url depth links st1 in
  if ok then
    if (5 <=? page_regional_score)%Z
    then add_relevant_page
           {| page_url := current_url; page_score := page_regional_score;
              page_indicators := elements regional_indicators;
              page_depth := depth |} st2
    else st2
  else add_event (ErrorProcessing current_url) st2.

Definition Qlt_bool (x y : Q) : bool := negb (Qle_bool y x).

Definition max_urls : Z := 50.

(** [while queue and urls_processed < max_urls and
     time.time() - start_time < max_time_seconds]; the clock is read only
    when the first two conjuncts hold. *)
Definition loop_condition `{Web W} (start_time : Q) (max_time_seconds : Z)
    (st : State W) : State W * bool :=
  match queue st with
  | [] => (st, false)
  | _ :: _ =>
      if (urls_processed st <? max_urls)%Z then
        let (w', t) := time_time (world st) in
        (set_world w' st, Qlt_bool (t - start_time)%Q (inject_Z max_time_seconds))
      else (st, false)
  end.

(** The body of the [while] loop. *)
Definition iteration `{UrlLib} `{Web W} (self_max_depth : Z)
    (allowed_domains : list string) (st : State W) : State W :=
  match queue st with
  | [] => st
  | (current_url, depth, regional_score) :: rest =>
      let st0 := set_queue rest st in
      if bool_decide (current_url ∈ visited_urls st0)
         || (self_max_depth <? depth)%Z
      then st0
      else
        let st1 := mark_processed current_url st0 in
        if negb (domain_allowed allowed_domains current_url) then st1
        else
          let st2 := add_event (Exploring depth current_url) st1 in
          let (w', r) := driver_get (world st2) current_url in
          let st3 := set_world w' st2 in
          match r with
          | FetchError => add_event (ErrorProcessing current_url) st3
          | Page page_text links =>
              process_page self_max_depth allowed_domains current_url depth
                page_text links st3
          end
  end.

(** The [while] loop, observed for at most [fuel] iterations. *)
Fixpoint bfs_loop `{UrlLib} `{Web W} (self_max_depth : Z)
    (allowed_domains : list string) (start_time : Q) (max_time_seconds : Z)
    (fuel : nat) (st : State W) : PdfBfs.Outcome (State W) :=
  let (st', continue) := loop_condition start_time max_time_seconds st in
  if continue then
    match fuel with
    | O => PdfBfs.Running st'
    | S fuel' =>
        bfs_loop self_max_depth allowed_domains start_time max_time_seconds
          fuel' (iteration self_max_depth allowed_domains st')
    end
  else PdfBfs.Completed st'.

(** The attributes of [self] that the loop reads. *)
Record Crawler : Type := {
  max_depth : Z;
  self_visited_urls : gset string
}.

Definition initial_state `{UrlLib} {W} (self : Crawler)
    (starting_urls : list string) (w : W) : State W :=
  {| queue := initial_queue starting_urls;
     visited_urls := self_visited_urls self;
     urls_processed := 0; regional_pdfs := ∅; all_pdfs := [];
     relevant_pages := []; state_coverage := ∅; world := w; log := [] |}.

(** The dictionary that [discover_regional_content_bfs] returns. *)
Record Result : Type := {
  elapsed_time_minutes : Q;
  res_urls_processed : Z;
  total_pdfs_found : nat;
  res_regional_pdfs : gmap string (list string);
  res_state_coverage : list string;
  states_covered_count : nat;
  res_relevant_pages : list PageRecord;
  res_all_pdfs : list string;
  regional_completeness : Q
}.

(** [len(state_coverage) / 50 if state_coverage else 0] *)
Definition completeness (state_coverage : gset string) : Q :=
  if bool_decide (state_coverage = ∅) then 0%Q
  else (inject_Z (Z.of_nat (size state_coverage)) / 50)%Q.

Definition result {W} (elapsed_time : Q) (st : State W) : Result :=
  {| elapsed_time_minutes := (elapsed_time / 60)%Q;
     res_urls_processed := urls_processed st;
     total_pdfs_found := length (all_pdfs st);
     res_regional_pdfs := regional_pdfs st;
     res_state_coverage := elements (state_coverage st);
     states_covered_count := size (state_coverage st);
     res_relevant_pages := relevant_pages st;
     res_all_pdfs := all_pdfs st;
     regional_completeness := completeness (state_coverage st) |}.

(** The loop of [discover_regional_content_bfs], entered after the first
    clock reading. *)
Definition crawl `{UrlLib} `{Web W} (self : Crawler)
    (starting_urls allowed_domains : list string) (max_time_minutes : Z)
    (fuel : nat) (w : W) : PdfBfs.Outcome (State W) :=
  let (w0, start_time) := time_time w in
  let max_time_seconds := (max_time_minutes * 60)%Z in
  bfs_loop (max_depth self) allowed_domains start_time max_time_seconds fuel
    (initial_state self starting_urls w0).

(** [discover_regional_content_bfs(starting_urls, allowed_domains,
    company_name, max_time_minutes)]: [None] while the loop has not left
    within [fuel] rounds. *)
Definition discover_regional_content_bfs `{UrlLib} `{Web W} (self : Crawler)
    (starting_urls allowed_domains : list string) (max_time_minutes : Z)
    (fuel : nat) (w : W) : option (W * Result) :=
  let (w0, start_time) := time_time w in
  let max_time_seconds := (max_time_minutes * 60)%Z in
  match bfs_loop (max_depth self) allowed_domains start_time max_time_seconds
          fuel (initial_state self starting_urls w0) with
  | PdfBfs.Completed st =>
      let (w1, t) := time_time (world st) in
      Some (w1, result (t - start_time)%Q st)
  | PdfBfs.Running _ => None
  end.

(** The URLs handed to [driver.get], oldest first. *)
Definition fetched (l : list Event) : list string :=
  reverse (omap (fun e => match e with Exploring _ u => Some u | _ => None end) l).

End RegionalEnhancedCrawler.

(* ===================================================================== *)
(** ** payer_portal_crawler.py: [_extract_geographic_zones] *)
(* ===================================================================== *)

Module PayerPortalCrawler.

Definition upper_char (c : ascii) : ascii :=
  if Re.in_range "a" "z" c then ascii_of_nat (nat_of_ascii c - 32) else c.

(** [s.upper()], for a string of ASCII characters. *)
Fixpoint upper (s : string) : string :=
  match s with
  | EmptyString => EmptyString
  | String c s' => String (upper_char c) (upper s')
  end.

(** The patterns of this function are sequences of two kinds of pieces: an
    alternation of literal texts (a single literal is an alternation of
    one), and one or more characters of a class. *)
Inductive piece : Type :=
| AnyOf (alternatives : list string)
| Plus (class : ascii -> bool).

Definition is_space (c : ascii) : bool :=                      (* \s *)
  existsb (Ascii.eqb c)
    [" "%char; "009"%char; "010"%char; "011"%char; "012"%char; "013"%char].

Definition is_digit (c : ascii) : bool := Re.in_range "0" "9" c.   (* \d *)

Definition is_lower_alnum (c : ascii) : bool :=                (* [a-z0-9] *)
  Re.in_range "a" "z" c || Re.in_range "0" "9" c.

Definition state_patterns : list (list piece) :=
  [ [AnyOf
       [ "alabama"; "alaska"; "arizona"; "arkansas"; "california";
         "colorado"; "connecticut"; "delaware"; "florida"; "georgia";
         "hawaii"; "idaho"; "illinois"; "indiana"; "iowa"; "kansas";
         "kentucky"; "louisiana"; "maine"; "maryland"; "massachusetts";
         "michigan"; "minnesota"; "mississippi"; "missouri"; "montana";
         "nebraska"; "nevada"; "new hampshire"; "new jersey"; "new mexico";
         "new york"; "north carolina"; "north dakota"; "ohio"; "oklahoma";
         "oregon"; "pennsylvania"; "rhode island"; "south carolina";
         "south dakota"; "tennessee"; "texas"; "utah"; "vermont";
         "virginia"; "washington"; "west virginia"; "wisconsin"; "wyoming" ]];
    [AnyOf
       [ "al"; "ak"; "az"; "ar"; "ca"; "co"; "ct"; "de"; "fl"; "ga"; "hi";
         "id"; "il"; "in"; "ia"; "ks"; "ky"; "la"; "me"; "md"; "ma"; "mi";
         "mn"; "ms"; "mo"; "mt"; "ne"; "nv"; "nh"; "nj"; "nm"; "ny"; "nc";
         "nd"; "oh"; "ok"; "or"; "pa"; "ri"; "sc"; "sd"; "tn"; "tx"; "ut";
         "vt"; "va"; "wa"; "wv"; "wi"; "wy" ]] ].

Definition region_patterns : list (list piece) :=
  [ [AnyOf ["region"]; Plus is_space; Plus is_digit];
    [AnyOf ["zone"]; Plus is_space; Plus is_lower_alnum];
    [AnyOf ["area"]; Plus is_space; Plus is_lower_alnum];
    [AnyOf ["network"]; Plus is_space; Plus is_lower_alnum];
    [AnyOf ["service"]; Plus is_space; AnyOf ["area"]] ].

Fixpoint drop_chars (n : nat) (s : string) : string :=
  match n, s with
  | O, _ => s
  | S _, EmptyString => EmptyString
  | S n', String _ s' => drop_chars n' s'
  end.

Fixpoint run_length (class : ascii -> bool) (s : string) : nat :=
  match s with
  | EmptyString => 0
  | String c s' => if class c then S (run_length class s') else 0
  end.

Fixpoint first_some {A B : Type} (f : A -> option B) (l : list A) : option B :=
  match l with
  | [] => None
  | x :: l' => match f x with Some y => Some y | None => first_some f l' end
  end.

(** The length of the match of the pieces at the start of [s], as the
    backtracking matcher of [re] finds it: alternatives are tried in order,
    a repetition takes the longest run first and gives back characters
    when the rest does not match. *)
Fixpoint match_here (pieces : list piece) (s : string) : option nat :=
  match pieces with
  | [] => Some 0
  | AnyOf alternatives :: rest =>
      first_some
        (fun a =>
           if startswith a s
           then option_map (Nat.add (String.length a))
                  (match_here rest (drop_chars (String.length a) s))
           else None)
        alternatives
  | Plus class :: rest =>
      first_some
        (fun k => option_map (Nat.add k) (match_here rest (drop_chars k s)))
        (rev (seq 1 (run_length class s)))
  end.

(** [re.finditer(pattern, s)]: the (start, end) positions of the matches,
    leftmost first, not overlapping.  [skip] counts the characters of the
    last match that are still to be passed. *)
Fixpoint finditer_from (pieces : list piece) (skip pos : nat) (s : string)
    : list (nat * nat) :=
  match s with
  | EmptyString => []
  | String _ s' =>
      match skip with
      | S k => finditer_from pieces k (S pos) s'
      | O =>
          match match_here pieces s with
          | Some (S n) =>
              (pos, pos + S n) :: finditer_from pieces n (S pos) s'
          | _ => finditer_from pieces 0 (S pos) s'
          end
      end
  end.

Definition finditer (pieces : list piece) (s : string) : list (nat * nat) :=
  finditer_from pieces 0 0 s.

(** [s[a:b]] for [0 <= a]. *)
Definition slice (a b : nat) (s : string) : string := substring a (b - a) s.

Record Zone : Type := {
  zone_type : string;
  zone_value : string;
  zone_context : string
}.

(** [_extract_geographic_zones(text)] *)
Definition _extract_geographic_zones (text : string) : list Zone :=
  let text_lower := lower text in
  let zones_of (ztype : string) (value_of : string -> string)
               (patterns : list (list piece)) :=
    concat
      (map (fun pattern =>
              map (fun '(m_start, m_end) =>
                     {| zone_type := ztype;
                        zone_value := value_of (slice m_start m_end text_lower);
                        zone_context := slice (m_start - 50) (m_end + 50) text |})
                  (finditer pattern text_lower))
           patterns) in
  zones_of "state" upper state_patterns
  ++ zones_of "region" (fun v => v) region_patterns.

End PayerPortalCrawler.

(* ===================================================================== *)
(** ** A concrete URL library and a concrete web, for running examples *)
(* ===================================================================== *)

Module UrlModel.

(** Splits [s] before the first character that satisfies [stop]. *)
Fixpoint span_until (stop : ascii -> bool) (s : string) : string * string :=
  match s with
  | EmptyString => (EmptyString, EmptyString)
  | String c s' =>
      if stop c then (EmptyString, s)
      else let (a, b) := span_until stop s' in (String c a, b)
  end.

Definition is_alpha (c : ascii) : bool :=
  Re.in_range "a" "z" c || Re.in_range "A" "Z" c.

Definition is_scheme_char (c : ascii) : bool :=
  is_alpha c || Re.in_range "0" "9" c
  || existsb (Ascii.eqb c) ["+"%char; "-"%char; "."%char].

Fixpoint all_chars (p : ascii -> bool) (s : string) : bool :=
  match s with
  | EmptyString => true
  | String c s' => p c && all_chars p s'
  end.

Definition tail (s : string) : string :=
  match s with EmptyString => EmptyString | String _ s' => s' end.

Record SplitResult : Type := {
  scheme : string;
  url_netloc : string;
  path : string;
  query : string;
  fragment : string
}.

(** [urllib.parse.urlsplit(url)], following the library's algorithm: a
    scheme is split off at the first [':'] when what precedes it starts
    with a letter and consists of scheme characters; after ["//"] the
    network location runs up to the first of ['/'], ['?'], ['#']; the
    fragment starts at the first ['#'] and the query at the first ['?'] of
    what remains. *)
Definition urlsplit (url : string) : SplitResult :=
  let (pre, post) := span_until (Ascii.eqb ":") url in
  let has_scheme :=
    match pre, post with
    | String c _, String _ _ => is_alpha c && all_chars is_scheme_char pre
    | _, _ => false
    end in
  let sch := if has_scheme then lower pre else "" in
  let url1 := if has_scheme then tail post else url in
  let '(nl, url2) :=
    if startswith "//" url1
    then span_until (fun c => existsb (Ascii.eqb c) ["/"%char; "?"%char; "#"%char])
           (tail (tail url1))
    else ("", url1) in
  let (url3, frag) := span_until (Ascii.eqb "#") url2 in
  let (pth, qry) := span_until (Ascii.eqb "?") url3 in
  {| scheme := sch; url_netloc := nl; path := pth; query := tail qry;
     fragment := tail frag |}.

(** [urljoin(base, href)] on the two shapes of [href] that the examples
    use: a URL with a scheme of its own is returned as it is, a path that
    starts with a single ['/'] replaces the path of [base].  Any other
    [href] is appended to [base] up to its last ['/'] (no dot-segment
    removal). *)
Fixpoint dirname (s : string) : string :=
  match s with
  | EmptyString => EmptyString
  | String c s' =>
      if contains "/" s' then String c (dirname s')
      else if Ascii.eqb c "/" then "/" else EmptyString
  end.

Definition simple_urljoin (base href : string) : option string :=
  let b := urlsplit base in
  let h := urlsplit href in
  if negb (String.eqb (scheme h) "") then Some href
  else if startswith "/" href && negb (startswith "//" href)
  then Some (scheme b +:+ "://" +:+ url_netloc b +:+ href)
  else Some (scheme b +:+ "://" +:+ url_netloc b +:+ dirname (path b) +:+ href).

Definition py_urllib : UrlLib :=
  {| urljoin := simple_urljoin;
     netloc := fun u => url_netloc (urlsplit u) |}.

(** A web given by a table of pages.  The world is the wall clock, in
    seconds; every page visit takes [seconds_per_fetch]; a URL that is not
    in the table fails to load; every HEAD request is answered 200. *)
Fixpoint lookup_page (pages : list (string * fetch_result)) (url : string)
    : fetch_result :=
  match pages with
  | [] => FetchError
  | (u, r) :: rest => if String.eqb u url then r else lookup_page rest url
  end.

Definition table_web (pages : list (string * fetch_result))
    (seconds_per_fetch : Q) : Web Q :=
  {| driver_get := fun w url =>
       (Qred (w + seconds_per_fetch)%Q, lookup_page pages url);
     requests_head := fun w _ => (w, Some 200%Z);
     time_time := fun w => (w, w) |}.

End UrlModel.

(* ===================================================================== *)
(** ** The classifier as the specification words it *)
(* ===================================================================== *)

Module Spec.

(** The fixed keyword set named by the specification for [topical_score]. *)
Definition keywords : list string :=
  [ "provider"; "manual"; "guide"; "policy"; "procedure";
    "prior auth"; "authorization"; "timely filing"; "appeals";
    "claims"; "billing"; "coverage"; "benefits"; "forms" ].

(** The specification's [topical_score]: one point per keyword found in
    the combined lower-cased anchor text and URL. *)
Definition topical_score (anchor_text url : string) : nat :=
  length (List.filter (fun k => contains k (lower (anchor_text +:+ " " +:+ url)))
            keywords).

(** The specification's [is_document]: [".pdf"] occurs, ignoring case, in
    the path or in the query string of the URL. *)
Definition is_document (url : string) : bool :=
  contains ".pdf" (lower (UrlModel.path (UrlModel.urlsplit url)))
  || contains ".pdf" (lower (UrlModel.query (UrlModel.urlsplit url))).

Definition is_word_char (c : ascii) : bool :=
  UrlModel.is_alpha c || Re.in_range "0" "9" c.

Fixpoint drop_chars (n : nat) (s : string) : string :=
  match n, s with
  | O, _ => s
  | S _, EmptyString => EmptyString
  | S n', String _ s' => drop_chars n' s'
  end.

Definition boundary (s : string) : bool :=
  match s with
  | EmptyString => true
  | String c _ => negb (is_word_char c)
  end.

(** [name] occurs in [s] as a whole token: the occurrence is neither
    preceded nor followed by a letter or a digit (so a path segment
    between two slashes counts). *)
Fixpoint occurs_as_token_from (prev_is_word : bool) (name s : string) : bool :=
  (negb prev_is_word && startswith name s
   && boundary (drop_chars (String.length name) s))
  || match s with
     | EmptyString => false
     | String c s' => occurs_as_token_from (is_word_char c) name s'
     end.

Definition occurs_as_token (name s : string) : bool :=
  occurs_as_token_from false name s.

End Spec.

(* ===================================================================== *)
(** ** Concrete webs for the examples *)
(* ===================================================================== *)

Module Examples.

Import UrlModel.

(** The scenario of the specification, with one more link. *)
Definition scenario_pages : list (string * fetch_result) :=
  [ ("https://x.test/",
     Page "home"
       [ ("/manual.pdf", "OH Provider Manual");
         ("/other/", "click here");
         ("/tools/", "Tools") ]);
    ("https://x.test/tools/",
     Page "tools" [ ("https://x.test/", "provider home") ]) ].

(** Two pages that link to each other. *)
Definition cyclic_pages : list (string * fetch_result) :=
  [ ("https://x.test/a", Page "a" [ ("https://x.test/b", "Provider page B") ]);
    ("https://x.test/b", Page "b" [ ("https://x.test/a", "Provider page A") ]) ].

(** A seed on a foreign host that links to a look-alike host. *)
Definition foreign_pages : list (string * fetch_result) :=
  [ ("https://evil.test/",
     Page "" [ ("https://notx.test/provider-guide", "Provider guide") ]);
    ("https://notx.test/provider-guide", Page "" []) ].

(** One page whose text names one state. *)
Definition ohio_pages : list (string * fetch_result) :=
  [ ("https://x.test/", Page "Ohio provider manuals" []) ].

Definition comprehensive_crawler : ComprehensivePDFDiscovery.Crawler :=
  {| ComprehensivePDFDiscovery.max_depth := 2;
     ComprehensivePDFDiscovery.max_urls_per_payer := 30 |}.

Definition simple_crawler : SimpleBFSCrawler.Crawler :=
  {| SimpleBFSCrawler.max_depth := 2;
     SimpleBFSCrawler.visited_urls := ∅ |}.

Definition regional_crawler : RegionalEnhancedCrawler.Crawler :=
  {| RegionalEnhancedCrawler.max_depth := 3;
     RegionalEnhancedCrawler.self_visited_urls := ∅ |}.

End Examples.

(* ===================================================================== *)
(** ** Counting browser, and the predicates in which the loops are
       specified *)
(* ===================================================================== *)

(** A browser that records, in call order, every URL it is asked to load;
    the other operations pass through. *)
Definition counting_web `{Web W} : Web (W * list string) :=
  {| driver_get := fun wc url =>
       let (w', r) := driver_get (fst wc) url in
       ((w', snd wc ++ [url]), r);
     requests_head := fun wc url =>
       let (w', r) := requests_head (fst wc) url in ((w', snd wc), r);
     time_time := fun wc =>
       let (w', t) := time_time (fst wc) in ((w', snd wc), t) |}.

Module LoopSpec.

Section Pdf.

Import PdfBfs.

Context `{UrlLib} {W : Type}.
Variable cfg : Config.
Variable allowed_domains : list string.

(** What processing the links of one page, found at [depth], may change:
    the queue grows at its end by entries one level deeper, the log grows
    by document and error lines; the visited set and the world stay. *)
Record extends (depth : Z) (st st' : State W) : Prop := {
  ext_visited : visited_urls st' = visited_urls st;
  ext_world : world st' = world st;
  ext_queue : exists new, queue st' = queue st ++ new /\
      Forall (fun e => snd e = (depth + 1)%Z /\ (depth < max_depth cfg)%Z /\
                       domain_allowed allowed_domains (fst e) = true /\
                       is_pdf_url (fst e) = false /\
                       fst e ∉ visited_urls st) new;
  ext_log : exists new, log st' = new ++ log st /\
      Forall (fun e => (exists u, e = FoundPDF depth u) \/
                       (exists u, e = ErrorProcessing u)) new;
  ext_pdfs : forall u, u ∈ pdfs_found st' ->
      u ∈ pdfs_found st \/ FoundPDF depth u ∈ log st'
}.

Definition event_depth_ok (e : Event) : Prop :=
  match e with
  | Exploring d _ => (0 <= d <= max_depth cfg)%Z
  | FoundPDF d _ => (0 <= d <= max_depth cfg)%Z
  | ErrorProcessing _ => True
  end.

(** The invariant of the [while] loop, for a crawl that started from
    [seeds] with the visited set [V0]. *)
Record invariant (seeds : list string) (V0 : gset string) (st : State W)
    : Prop := {
  inv_V0 : forall u, u ∈ V0 -> u ∈ visited_urls st;
  inv_nodup : NoDup (fetched (log st));
  inv_fetched : forall u, u ∈ fetched (log st) ->
      u ∈ visited_urls st /\ u ∉ V0;
  inv_visited : forall u, u ∈ visited_urls st ->
      u ∈ V0 \/ u ∈ fetched (log st);
  inv_depth : forall e, e ∈ log st -> event_depth_ok e;
  inv_queue : forall u d, (u, d) ∈ queue st ->
      (d = 0%Z /\ u ∈ seeds) \/
      ((1 <= d <= max_depth cfg)%Z /\
       domain_allowed allowed_domains u = true);
  inv_origin : forall d u, Exploring d u ∈ log st ->
      (d = 0%Z /\ u ∈ seeds) \/
      ((1 <= d)%Z /\ domain_allowed allowed_domains u = true);
  inv_pdfs : forall u, u ∈ pdfs_found st -> exists d, FoundPDF d u ∈ log st
}.

(** The URL budget that is left. *)
Definition budget (st : State W) : nat :=
  Z.to_nat (max_urls cfg - Z.of_nat (size (visited_urls st))).

End Pdf.

Section Regional.

Import RegionalEnhancedCrawler.

Context `{UrlLib} {W : Type}.
Variable allowed_domains : list string.

(** What the handling of a fetched page leaves untouched. *)
Record passive (st st' : State W) : Prop := {
  pas_visited : visited_urls st' = visited_urls st;
  pas_processed : urls_processed st' = urls_processed st;
  pas_world : world st' = world st;
  pas_fetched : fetched (log st') = fetched (log st)
}.

(** The invariant of the loop, for a crawl that started with the visited
    set [V0]. *)
Record regional_invariant (V0 : gset string) (st : State W) : Prop := {
  rinv_V0 : forall u, u ∈ V0 -> u ∈ visited_urls st;
  rinv_nodup : NoDup (fetched (log st));
  rinv_fetched : forall u, u ∈ fetched (log st) ->
      u ∈ visited_urls st /\ (u ∉ V0) /\
      domain_allowed allowed_domains u = true
}.

(** The budget of processed URLs that is left. *)
Definition regional_budget (st : State W) : nat :=
  Z.to_nat (max_urls - urls_processed st).

End Regional.

End LoopSpec.

(* ===================================================================== *)
(** ** Further predicates on the states of the shared loop *)
(* ===================================================================== *)

Module CrawlSpec.

Section Pdf.

Import PdfBfs.

Context `{UrlLib} {W : Type}.
Variable cfg : Config.
Variable allowed_domains : list string.

(** The depths at which pages were handed to the browser, oldest first. *)
Definition explored_depths (l : list Event) : list Z :=
  reverse (omap (fun e => match e with Exploring d _ => Some d | _ => None end) l).

(** Breadth-first order on depths. *)
Definition depth_le (a b : string * Z) : Prop := (snd a <= snd b)%Z.

(** Accounting of the visited set against the ceiling [max_urls], for a
    crawl that started with the visited set [V0]. *)
Record budget_invariant (V0 : gset string) (st : State W) : Prop := {
  bud_count : size (visited_urls st) = size V0 + length (fetched (log st));
  bud_bound : (Z.of_nat (size (visited_urls st))
               <= Z.max (max_urls cfg) (Z.of_nat (size V0)))%Z
}.

(** The queue and the sequence of visits are ordered by depth. *)
Record order_invariant (st : State W) : Prop := {
  ord_queue : StronglySorted depth_le (queue st);
  ord_span : forall e1 e2, e1 ∈ queue st -> e2 ∈ queue st ->
      (snd e2 <= snd e1 + 1)%Z;
  ord_log : StronglySorted Z.le (explored_depths (log st));
  ord_log_queue : forall d e, d ∈ explored_depths (log st) -> e ∈ queue st ->
      (d <= snd e)%Z
}.

(** What the links of the page [current_url], found at [depth], add to the
    recorded documents and to [all_links_found]. *)
Record records (current_url : string) (depth : Z) (st st' : State W)
    : Prop := {
  rec_pdfs : forall u, u ∈ pdfs_found st' ->
      u ∈ pdfs_found st \/
      (is_pdf_url u = true /\ domain_allowed allowed_domains u = true);
  rec_links : forall r, r ∈ all_links_found st' ->
      r ∈ all_links_found st \/
      (link_parent r = current_url /\ link_depth r = depth /\
       domain_allowed allowed_domains (link_url r) = true /\
       exists href, urljoin current_url href = Some (link_url r) /\
         is_relevant_link (relevant_keywords cfg) (link_text r) href = true)
}.

(** Documents are leaves, and what is recorded was found on a visited
    page. *)
Record leaf_invariant (st : State W) : Prop := {
  leaf_queue : forall u d, (u, d) ∈ queue st ->
      d = 0%Z \/ is_pdf_url u = false;
  leaf_log : forall d u, Exploring d u ∈ log st ->
      d = 0%Z \/ is_pdf_url u = false;
  leaf_pdfs : forall u, u ∈ pdfs_found st ->
      is_pdf_url u = true /\ domain_allowed allowed_domains u = true;
  leaf_links : forall r, r ∈ all_links_found st ->
      Exploring (link_depth r) (link_parent r) ∈ log st /\
      domain_allowed allowed_domains (link_url r) = true /\
      exists href, urljoin (link_parent r) href = Some (link_url r) /\
        is_relevant_link (relevant_keywords cfg) (link_text r) href = true
}.

(** With a browser that never loads a page, only seeds are in the queue and
    nothing is recorded. *)
Record failing_invariant (seeds : list string) (st : State W) : Prop := {
  fail_queue : forall u d, (u, d) ∈ queue st -> d = 0%Z /\ u ∈ seeds;
  fail_log : forall d u, Exploring d u ∈ log st -> u ∈ seeds;
  fail_pdfs : pdfs_found st = ∅;
  fail_links : all_links_found st = []
}.

End Pdf.

End CrawlSpec.

(* ===================================================================== *)
(** ** More concrete webs *)
(* ===================================================================== *)

Module Examples2.

(** A network in which nothing answers: every page visit and every HEAD
    request fails; the clock stands still. *)
Definition dead_web : Web Q :=
  {| driver_get := fun w _ => (w, FetchError);
     requests_head := fun w _ => (w, None);
     time_time := fun w => (w, w) |}.

End Examples2.

(* ===================================================================== *)
(** ** Further predicates on the states of the regional loop *)
(* ===================================================================== *)

Module RegionalSpec.

Section Regional.

Import RegionalEnhancedCrawler.

Context `{UrlLib} {W : Type}.
Variable self_max_depth : Z.
Variable allowed_domains : list string.

(** The inline document test of the loop. *)
Definition is_pdf (url : string) : bool :=
  endswith ".pdf" (lower url) || contains ".pdf" (lower url).

(** An entry that the loop enqueued from a link. *)
Definition from_link (e : string * Z * Z) : Prop :=
  (3 <= snd e)%Z /\
  (1 <= snd (fst e) <= self_max_depth)%Z /\
  is_pdf (fst (fst e)) = false /\
  domain_allowed allowed_domains (fst (fst e)) = true /\
  exists text, snd e = score_regional_relevance (fst (fst e)) (lower text).

(** An entry of the queue is one of the initial entries or comes from a
    link. *)
Definition entry_ok (init : list (string * Z * Z)) (e : string * Z * Z)
    : Prop :=
  (0 <= snd (fst e))%Z /\ (e ∈ init \/ from_link e).

Record frontier_ok (init : list (string * Z * Z)) (st : State W) : Prop := {
  fok_queue : forall e, e ∈ queue st -> entry_ok init e;
  fok_log : forall u, u ∈ fetched (log st) ->
      exists d s, entry_ok init (u, d, s)
}.

(** What is recorded is well-formed. *)
Record records_ok (st : State W) : Prop := {
  rok_pdfs : forall u, u ∈ all_pdfs st ->
      is_pdf u = true /\ domain_allowed allowed_domains u = true;
  rok_regional : forall code urls, regional_pdfs st !! code = Some urls ->
      is_state_code code = true /\ forall u, u ∈ urls -> u ∈ all_pdfs st;
  rok_coverage : forall c, c ∈ state_coverage st -> is_state_code c = true
}.

(** Accounting of [urls_processed], for a crawl that started with the
    visited set [V0]. *)
Record processed_invariant (V0 : gset string) (st : State W) : Prop := {
  pr_nonneg : (0 <= urls_processed st)%Z;
  pr_bound : (urls_processed st <= max_urls)%Z;
  pr_count : size (visited_urls st) = size V0 + Z.to_nat (urls_processed st);
  pr_fetched : length (fetched (log st)) <= Z.to_nat (urls_processed st)
}.

End Regional.

(** The body of the loop of [categorize_pdf] over [pdf_indicators]. *)
Definition categorize_step (absolute_url : string)
    (m : gmap string (list string)) (indicator : string)
    : gmap string (list string) :=
  if startswith "state_" indicator then
    let state_code := RegionalEnhancedCrawler.split_field1 indicator in
    if RegionalEnhancedCrawler.is_state_code state_code
    then <[state_code := (default [] (m !! state_code) ++ [absolute_url])%list]> m
    else m
  else m.

End RegionalSpec.

(* ===================================================================== *)
(** ** The texts that the state patterns of [_extract_geographic_zones]
       look for *)
(* ===================================================================== *)

Module ZoneSpec.

(** The alternatives of a pattern. *)
Definition alternatives_of (pattern : list PayerPortalCrawler.piece)
    : list string :=
  flat_map (fun p => match p with
                     | PayerPortalCrawler.AnyOf alternatives => alternatives
                     | PayerPortalCrawler.Plus _ => []
                     end) pattern.

(** The 50 lower-case state names and the 50 lower-case state codes. *)
Definition state_alternatives : list string :=
  flat_map alternatives_of PayerPortalCrawler.state_patterns.

End ZoneSpec.

(* ===================================================================== *)
(** ** comprehensive_pdf_discovery_test.py: [run_comprehensive_test] *)
(* ===================================================================== *)

Module ComprehensiveRun.

Import ComprehensivePDFDiscovery.

(** A row of [self.payer_df] with the three columns that the run reads;
    a [known_provider_portal] that is missing or NaN is [None]. *)
Record PayerRow : Type := {
  company_name : string;
  base_domain : string;
  known_provider_portal : option string
}.

(** The attributes of [self] that a run reads and updates. *)
Record Tester : Type := {
  crawler : Crawler;
  payer_df : list PayerRow;
  total_pdfs_discovered : nat;
  total_urls_visited_all : nat;            (* [self.total_urls_visited] *)
  payer_results : gmap string PayerOutcome
}.

(** [self.payer_df.head(max_payers) if max_payers else self.payer_df]:
    [None] and 0 are false; [head(n)] with a negative [n] leaves out the
    last [-n] rows. *)
Definition select_payers (max_payers : option Z) (payer_df : list PayerRow)
    : list PayerRow :=
  match max_payers with
  | None => payer_df
  | Some n =>
      if (n =? 0)%Z then payer_df
      else if (0 <? n)%Z then take (Z.to_nat n) payer_df
      else take (length payer_df - Z.to_nat (- n)) payer_df
  end.

(** The body of [for idx, row in test_payers.iterrows()]; [None] while the
    crawl of a payer is still running. *)
Definition test_row `{UrlLib} `{Web W} (time_per_payer_minutes : Z)
    (fuel : nat) (acc : option (W * Tester)) (row : PayerRow)
    : option (W * Tester) :=
  match acc with
  | None => None
  | Some (w, self) =>
      let (w', result) :=
        test_single_payer (crawler self) (base_domain row)
          (known_provider_portal row) time_per_payer_minutes fuel w in
      let stored := <[company_name row := result]> (payer_results self) in
      match result with
      | PayerRunning => None
      | PayerError _ =>
          Some (w', {| crawler := crawler self; payer_df := payer_df self;
                       total_pdfs_discovered := total_pdfs_discovered self;
                       total_urls_visited_all := total_urls_visited_all self;
                       payer_results := stored |})
      | PayerDone r =>                      (* ['total_pdfs' in result] *)
          Some (w', {| crawler := crawler self; payer_df := payer_df self;
                       total_pdfs_discovered :=
                         total_pdfs_discovered self + total_pdfs (bfs_result r);
                       total_urls_visited_all :=
                         total_urls_visited_all self
                         + total_urls_visited (bfs_result r);
                       payer_results := stored |})
      end
  end.

Inductive Exception : Type := ZeroDivisionError.

Definition has_total_pdfs (result : PayerOutcome) : bool :=
  match result with PayerDone _ => true | _ => false end.

(** The [summary] of the report that is saved. *)
Record Summary : Type := {
  sum_total_pdfs_discovered : nat;
  sum_total_urls_visited : nat;
  successful_tests : nat;
  failed_tests : nat;
  success_rate_percent : Q
}.

Record Report : Type := {
  test_duration_minutes : Q;
  total_payers_tested : nat;
  summary : Summary;
  report_payer_results : gmap string PayerOutcome
}.

(** [generate_comprehensive_report(total_elapsed_seconds)]: the data that
    is saved, or the exception of the first division by
    [len(self.payer_results)], in the line that prints the average. *)
Definition generate_comprehensive_report (self : Tester)
    (total_elapsed_seconds : Q) : Exception + Report :=
  let tested := size (payer_results self) in
  if Nat.eqb tested 0 then inl ZeroDivisionError
  else
    let successful :=
      length (List.filter (fun kv => has_total_pdfs (snd kv))
                (map_to_list (payer_results self))) in
    inr {| test_duration_minutes := (total_elapsed_seconds / 60)%Q;
           total_payers_tested := tested;
           summary :=
             {| sum_total_pdfs_discovered := total_pdfs_discovered self;
                sum_total_urls_visited := total_urls_visited_all self;
                successful_tests := successful;
                failed_tests := tested - successful;
                success_rate_percent :=
                  (inject_Z (Z.of_nat successful)
                   / inject_Z (Z.of_nat tested) * 100)%Q |};
           report_payer_results := payer_results self |}.

(** [run_comprehensive_test(max_payers, time_per_payer_minutes)]: the
    world and [self] after the run, with the exception that left it or the
    report that was saved; the method returns [self.payer_results]. *)
Definition run_comprehensive_test `{UrlLib} `{Web W} (self : Tester)
    (max_payers : option Z) (time_per_payer_minutes : Z) (fuel : nat) (w : W)
    : option (W * Tester * (Exception + Report)) :=
  let (w0, test_start_time) := time_time w in
  let test_payers := select_payers max_payers (payer_df self) in
  match foldl (test_row time_per_payer_minutes fuel) (Some (w0, self))
          test_payers with
  | None => None
  | Some (w1, self') =>
      let (w2, t) := time_time w1 in
      Some (w2, self',
            generate_comprehensive_report self' (t - test_start_time)%Q)
  end.

(** The pages that a run may visit at most for each payer. *)
Definition pages_per_payer (self : Tester) : nat :=
  Z.to_nat (Z.max 0 (max_urls_per_payer (crawler self))).

End ComprehensiveRun.


Module Examples3.

(** A tester with two payers: one whose portal is known and is the home
    page of the scenario, one of which nothing is known. *)
Definition two_payers : ComprehensiveRun.Tester :=
  {| ComprehensiveRun.crawler := Examples.comprehensive_crawler;
     ComprehensiveRun.payer_df :=
       [ {| ComprehensiveRun.company_name := "X Health";
            ComprehensiveRun.base_domain := "x.test";
            ComprehensiveRun.known_provider_portal := Some "https://x.test/" |};
         {| ComprehensiveRun.company_name := "Y Care";
            ComprehensiveRun.base_domain := "y.test";
            ComprehensiveRun.known_provider_portal := None |} ];
     ComprehensiveRun.total_pdfs_discovered := 0;
     ComprehensiveRun.total_urls_visited_all := 0;
     ComprehensiveRun.payer_results := ∅ |}.

End Examples3.

(* ===================================================================== *)
(** ** payer_portal_crawler.py: [_filter_relevant_pdfs] *)
(* ===================================================================== *)

Module PayerPortalPdfs.

(** An entry of [pdf_links]: the dictionary that [_find_pdf_links] builds,
    with the key [relevance_score] that [_filter_relevant_pdfs] adds
    ([None] while the key is absent). *)
Record PdfInfo : Type := {
  url : string;
  text : string;
  filename : string;
  relevance_score : option nat
}.

Definition relevant_keywords : list string :=
  [ "provider"; "manual"; "guide"; "policy"; "procedure"; "billing";
    "prior auth"; "authorization"; "timely filing"; "appeals";
    "coverage"; "benefits"; "claim"; "reimbursement"; "network";
    "geographic"; "region"; "state"; "area"; "zone" ].

(** [sum(1 for keyword in relevant_keywords if keyword in text_to_check)] *)
Definition score_of (pdf_info : PdfInfo) : nat :=
  let text_to_check := lower (text pdf_info +:+ " " +:+ filename pdf_info) in
  length (List.filter (fun keyword => contains keyword text_to_check)
            relevant_keywords).

(** [pdf_info['relevance_score'] = relevance_score] *)
Definition set_score (n : nat) (pdf_info : PdfInfo) : PdfInfo :=
  {| url := url pdf_info; text := text pdf_info;
     filename := filename pdf_info; relevance_score := Some n |}.

(** [x['relevance_score']], for an entry that has the key. *)
Definition get_score (pdf_info : PdfInfo) : nat :=
  default 0 (relevance_score pdf_info).

(** [sorted(l, key=key, reverse=True)]: the sort is stable, also with
    [reverse=True], so an element goes in front of the elements after it
    whose key is not larger. *)
Fixpoint insert_desc {A : Type} (key : A -> nat) (x : A) (l : list A)
    : list A :=
  match l with
  | [] => [x]
  | y :: l' =>
      if key x <? key y then y :: insert_desc key x l' else x :: y :: l'
  end.

Definition sorted_desc {A : Type} (key : A -> nat) (l : list A) : list A :=
  foldr (insert_desc key) [] l.

(** The loop of [_filter_relevant_pdfs]. *)
Definition relevant_pdfs (pdf_links : list PdfInfo) : list PdfInfo :=
  omap (fun pdf_info =>
          let relevance_score := score_of pdf_info in
          if 0 <? relevance_score
          then Some (set_score relevance_score pdf_info) else None)
       pdf_links.

(** [_filter_relevant_pdfs(pdf_links, config)]; [config] is not read. *)
Definition _filter_relevant_pdfs (pdf_links : list PdfInfo) : list PdfInfo :=
  sorted_desc get_score (relevant_pdfs pdf_links).

End PayerPortalPdfs.


Module RegionalPages.

Section Pages.

Import RegionalEnhancedCrawler.

Context {W : Type}.
Variable self_max_depth : Z.

(** An entry of [relevant_pages] describes a page that was loaded. *)
Definition page_ok (st : State W) (p : PageRecord) : Prop :=
  page_url p ∈ fetched (log st) /\
  (0 <= page_depth p <= self_max_depth)%Z /\
  exists page_text,
    page_score p = score_regional_relevance (page_url p) page_text /\
    (5 <= page_score p)%Z /\
    page_indicators p
    = elements (detect_regional_indicators (page_url p) page_text).

Record pages_ok (st : State W) : Prop := {
  pok_pages : forall p, p ∈ relevant_pages st -> page_ok st p;
  pok_nodup : NoDup (map page_url (relevant_pages st))
}.

End Pages.

End RegionalPages.

(* ===================================================================== *)
(** ** The inputs on which the string model is exact *)
(* ===================================================================== *)

Module Wellformed.

(** [s.isascii()].  On such a string [str.lower] and [str.upper] change
    the letters A-Z and a-z only, as [PyStr.lower] and
    [PayerPortalCrawler.upper] do; outside ASCII [str.lower] also maps, for
    instance, the Kelvin sign to [k]. *)
Fixpoint is_ascii (s : string) : bool :=
  match s with
  | EmptyString => true
  | String c s' => (nat_of_ascii c <? 128) && is_ascii s'
  end.

(** A URL on which [urlparse] does not raise and which brings no format
    field into a template: [urlparse] raises [ValueError] for a network
    location with an unmatched or misplaced square bracket and for some
    characters outside ASCII, and [str.format] reads every brace of the
    template, also those of the host name, as part of a replacement
    field. *)
Definition plain_url (url : string) : bool :=
  is_ascii url
  && negb (contains "[" url) && negb (contains "]" url)
  && negb (contains "{" url) && negb (contains "}" url).

End Wellformed.

(* ===================================================================== *)
(** ** The visits of a crawl in which no page loads *)
(* ===================================================================== *)

Module FailingSpec.

(** The URLs of [l] that are not in [visited], each once, in the order of
    their first occurrence. *)
Fixpoint fresh_in_order (visited : gset string) (l : list string)
    : list string :=
  match l with
  | [] => []
  | u :: l' =>
      if bool_decide (u ∈ visited) then fresh_in_order visited l'
      else u :: fresh_in_order ({[u]} ∪ visited) l'
  end.

End FailingSpec.

(* ===================================================================== *)
(** * Properties *)
(* ===================================================================== *)

(** ** Strings *)

Section StringFacts.

Lemma app_nil (b : string) : "" +:+ b = b.
Proof. reflexivity. Qed.

Lemma app_cons (x : ascii) (a b : string) :
  String x a +:+ b = String x (a +:+ b).
Proof. reflexivity. Qed.

Lemma append_assoc (a b c : string) : (a +:+ b) +:+ c = a +:+ (b +:+ c).
Proof.
  induction a as [|x a IH]; [reflexivity|].
  rewrite !app_cons. f_equal. exact IH.
Qed.

Lemma append_empty_r (a : string) : a +:+ "" = a.
Proof.
  induction a as [|x a IH]; [reflexivity|].
  rewrite app_cons. f_equal. exact IH.
Qed.

Lemma lower_app (a b : string) : lower (a +:+ b) = lower a +:+ lower b.
Proof.
  induction a as [|x a IH]; [reflexivity|].
  rewrite app_cons. simpl. rewrite app_cons. f_equal. exact IH.
Qed.

Lemma startswith_spec (p s : string) :
  startswith p s = true <-> exists suf, s = p +:+ suf.
Proof.
  revert s. induction p as [|a p IH]; intros s; simpl.
  - split; [intros _; now exists s | reflexivity].
  - destruct s as [|b s].
    + split; [discriminate | intros [suf Hs]; discriminate].
    + rewrite andb_true_iff, Ascii.eqb_eq, IH. split.
      * intros [-> [suf ->]]. now exists suf.
      * intros [suf Hs]. rewrite app_cons in Hs. injection Hs as -> ->.
        split; [reflexivity | now exists suf].
Qed.

(** [p in s] holds exactly when [s] can be cut as [pre + p + suf]. *)
Lemma contains_spec (p s : string) :
  contains p s = true <-> exists pre suf, s = pre +:+ p +:+ suf.
Proof.
  induction s as [|c s IH]; simpl.
  - rewrite orb_false_r, startswith_spec. split.
    + intros [suf Hs]. now exists "", suf.
    + intros [pre [suf Hs]]. destruct pre; [now exists suf | discriminate].
  - rewrite orb_true_iff, startswith_spec, IH. split.
    + intros [[suf Hs] | [pre [suf Hs]]].
      * now exists "", suf.
      * exists (String c pre), suf. rewrite app_cons. now rewrite Hs.
    + intros [pre [suf Hs]]. destruct pre as [|x pre].
      * left. now exists suf.
      * right. rewrite app_cons in Hs. injection Hs as -> ->.
        now exists pre, suf.
Qed.

Lemma contains_false_spec (p s : string) :
  contains p s = false <-> ~ exists pre suf, s = pre +:+ p +:+ suf.
Proof.
  rewrite <- contains_spec. destruct (contains p s); split; intros; congruence.
Qed.

Lemma endswith_spec (p s : string) :
  endswith p s = true <-> exists pre, s = pre +:+ p.
Proof.
  induction s as [|c s IH]; cbn [endswith].
  - rewrite orb_false_r, String.eqb_eq. split.
    + intros <-. now exists "".
    + intros [pre Hs]. destruct pre; [now rewrite app_nil in Hs | discriminate].
  - rewrite orb_true_iff, String.eqb_eq, IH. split.
    + intros [<- | [pre ->]]; [now exists "" | now exists (String c pre)].
    + intros [pre Hs]. destruct pre as [|x pre].
      * now left.
      * right. rewrite app_cons in Hs. injection Hs as -> ->. now exists pre.
Qed.

(** A suffix is in particular a substring. *)
Lemma endswith_contains (p s : string) :
  endswith p s = true -> contains p s = true.
Proof.
  rewrite endswith_spec, contains_spec. intros [pre ->].
  exists pre, "". now rewrite append_empty_r.
Qed.

(** A substring of a substring is a substring. *)
Lemma contains_trans (p s t : string) :
  contains p s = true -> contains s t = true -> contains p t = true.
Proof.
  rewrite !contains_spec. intros [a [b ->]] [c [d ->]].
  exists (c +:+ a), (b +:+ d). now rewrite !append_assoc.
Qed.

Lemma contains_app_l (p a b : string) :
  contains p a = true -> contains p (a +:+ b) = true.
Proof.
  rewrite !contains_spec. intros [x [y ->]].
  exists x, (y +:+ b). now rewrite !append_assoc.
Qed.

Lemma contains_app_r (p a b : string) :
  contains p b = true -> contains p (a +:+ b) = true.
Proof.
  rewrite !contains_spec. intros [x [y ->]].
  exists (a +:+ x), y. now rewrite !append_assoc.
Qed.

Lemma lower_char_not_upper (c : ascii) : is_upper (lower_char c) = false.
Proof.
  unfold lower_char. destruct (is_upper c) eqn:E; [|assumption].
  destruct c as [[] [] [] [] [] [] [] []]; vm_compute in E |- *;
    congruence.
Qed.

(** The first character of a substring of [s.lower()] is no capital. *)
Lemma contains_lower_head (c : ascii) (p s : string) :
  contains (String c p) (lower s) = true -> is_upper c = false.
Proof.
  induction s as [|x s IH]; simpl.
  - discriminate.
  - rewrite orb_true_iff, andb_true_iff, Ascii.eqb_eq.
    intros [[-> _] | H]; [apply lower_char_not_upper | now apply IH].
Qed.

Lemma any_in_spec (ks : list string) (s : string) :
  any_in ks s = true <-> exists k, In k ks /\ contains k s = true.
Proof. unfold any_in. apply existsb_exists. Qed.

End StringFacts.

(** ** The shared BFS loop *)

Section PdfBfsFacts.

Import PdfBfs.

Context `{UrlLib} `{Web W}.
Variable cfg : Config.
Variable allowed_domains : list string.

Local Abbreviation extends := (LoopSpec.extends cfg allowed_domains).
Local Abbreviation invariant := (LoopSpec.invariant cfg allowed_domains).
Local Abbreviation budget := (LoopSpec.budget cfg).

Lemma fetched_cons_exploring (d : Z) (u : string) (l : list Event) :
  fetched (Exploring d u :: l) = fetched l ++ [u].
Proof. unfold fetched. simpl. now rewrite reverse_cons. Qed.

Lemma fetched_cons_found (d : Z) (u : string) (l : list Event) :
  fetched (FoundPDF d u :: l) = fetched l.
Proof. reflexivity. Qed.

Lemma fetched_cons_error (u : string) (l : list Event) :
  fetched (ErrorProcessing u :: l) = fetched l.
Proof. reflexivity. Qed.

Lemma elem_of_fetched (u : string) (l : list Event) :
  u ∈ fetched l <-> exists d, Exploring d u ∈ l.
Proof.
  unfold fetched. rewrite elem_of_reverse, list_elem_of_omap. split.
  - intros [e [He Hu]]. destruct e; try discriminate.
    injection Hu as ->. eauto.
  - intros [d Hd]. exists (Exploring d u). auto.
Qed.

Lemma extends_refl (depth : Z) (st : State W) : extends depth st st.
Proof.
  split; try reflexivity.
  - exists []. now rewrite app_nil_r.
  - now exists [].
  - intros u Hu. now left.
Qed.

Lemma extends_trans (depth : Z) (a b c : State W) :
  extends depth a b -> extends depth b c -> extends depth a c.
Proof.
  intros [V1 W1 [q1 [Q1 F1]] [l1 [L1 G1]] P1] [V2 W2 [q2 [Q2 F2]] [l2 [L2 G2]] P2].
  split.
  - congruence.
  - congruence.
  - exists (q1 ++ q2). split.
    + rewrite Q2, Q1. now rewrite app_assoc.
    + apply Forall_app. split; [assumption|].
      rewrite V1 in F2. exact F2.
  - exists (l2 ++ l1). split.
    + rewrite L2, L1. now rewrite app_assoc.
    + apply Forall_app. now split.
  - intros u Hu. destruct (P2 u Hu) as [Hb | Hb]; [|now right].
    destruct (P1 u Hb) as [Ha | Ha]; [now left | right].
    rewrite L2. apply elem_of_app. now right.
Qed.

Lemma process_link_extends (current_url : string) (depth : Z)
    (href text absolute_url : string) (st : State W) :
  extends depth st
    (process_link cfg allowed_domains current_url depth href text absolute_url st).
Proof.
  unfold process_link.
  destruct (domain_allowed allowed_domains absolute_url) eqn:Hd; simpl;
    [|apply extends_refl].
  set (st1 := if is_relevant_link (relevant_keywords cfg) text href
              then add_link _ st else st).
  assert (Hst1 : queue st1 = queue st /\ visited_urls st1 = visited_urls st /\
                 world st1 = world st /\ log st1 = log st /\
                 pdfs_found st1 = pdfs_found st).
  { unfold st1. destruct (is_relevant_link _ _ _); simpl; auto. }
  destruct Hst1 as (Hq & Hv & Hw & Hl & Hp).
  destruct (is_pdf_url absolute_url) eqn:Hpdf.
  - split; simpl; try congruence.
    + exists []. rewrite app_nil_r. auto.
    + exists [FoundPDF depth absolute_url]. split; [now rewrite Hl|].
      constructor; [left; eauto | constructor].
    + intros u Hu. rewrite Hp in Hu. apply elem_of_union in Hu as [Hu | Hu].
      * apply elem_of_singleton in Hu as ->. right. left.
      * now left.
  - destruct (is_relevant_link _ _ _ && (depth <? max_depth cfg)%Z
              && negb (bool_decide (absolute_url ∈ visited_urls st1))) eqn:Hc.
    + apply andb_true_iff in Hc as [Hc Hnv]. apply andb_true_iff in Hc as [_ Hlt].
      apply Z.ltb_lt in Hlt. apply negb_true_iff, bool_decide_eq_false in Hnv.
      split; simpl.
      * exact Hv.
      * exact Hw.
      * exists [(absolute_url, (depth + 1)%Z)]. split; [now rewrite Hq|].
        constructor; [|constructor]. simpl. rewrite <- Hv. auto.
      * exists []. now rewrite Hl.
      * intros u Hu. left. now rewrite <- Hp.
    + split.
      * exact Hv.
      * exact Hw.
      * exists []. rewrite app_nil_r. auto.
      * exists []. now rewrite Hl.
      * intros u Hu. left. now rewrite <- Hp.
Qed.

Lemma process_links_extends (current_url : string) (depth : Z)
    (links : list (string * string)) (st : State W) :
  extends depth st
    (process_links cfg allowed_domains current_url depth links st).
Proof.
  revert st. induction links as [|[href text] rest IH]; intros st; simpl.
  - apply extends_refl.
  - destruct (urljoin current_url href) as [absolute_url|].
    + eapply extends_trans; [apply process_link_extends | apply IH].
    + split; simpl; try reflexivity.
      * exists []. now rewrite app_nil_r.
      * exists [ErrorProcessing current_url]. split; [reflexivity|].
        constructor; [right; eauto | constructor].
      * intros u Hu. now left.
Qed.

Lemma fetched_app_passive (new l : list Event) :
  Forall (fun e => (exists d u, e = FoundPDF d u) \/
                   (exists u, e = ErrorProcessing u)) new ->
  fetched (new ++ l) = fetched l.
Proof.
  induction 1 as [|e new He _ IH]; [reflexivity|].
  simpl. destruct He as [(d & u & ->) | (u & ->)].
  - now rewrite fetched_cons_found.
  - now rewrite fetched_cons_error.
Qed.

Lemma extends_fetched (depth : Z) (st st' : State W) :
  extends depth st st' -> fetched (log st') = fetched (log st).
Proof.
  intros [_ _ _ [l [L G]] _]. rewrite L. apply fetched_app_passive.
  eapply Forall_impl; [exact G|]. intros e [[u ->] | [u ->]]; eauto.
Qed.

Lemma initial_invariant (seeds : list string) (V0 : gset string) (w : W) :
  invariant seeds V0 (initial_state V0 seeds w).
Proof.
  split; simpl.
  - auto.
  - constructor.
  - intros u Hu. inversion Hu.
  - intros u Hu. now left.
  - intros e He. inversion He.
  - intros u d Hin. apply list_elem_of_fmap in Hin as [x [Hx Hin]].
    injection Hx as -> ->. now left.
  - intros d u Hu. inversion Hu.
  - intros u Hu. set_solver.
Qed.

Lemma invariant_extends (seeds : list string) (V0 : gset string)
    (depth : Z) (st st' : State W) :
  (0 <= depth <= max_depth cfg)%Z ->
  extends depth st st' -> invariant seeds V0 st -> invariant seeds V0 st'.
Proof.
  intros Hdepth [V Wd [q [Q F]] [l [L G]] P] [I0 I1 I2 I3 I4 I5 I6 I7].
  assert (Hf : fetched (log st') = fetched (log st)).
  { rewrite L. apply fetched_app_passive.
    eapply Forall_impl; [exact G|]. intros e [[u ->] | [u ->]]; eauto. }
  split.
  - intros u. rewrite V. apply I0.
  - now rewrite Hf.
  - intros u. rewrite Hf, V. apply I2.
  - intros u. rewrite Hf, V. apply I3.
  - intros e. rewrite L, elem_of_app. intros [He | He]; [|now apply I4].
    rewrite Forall_forall in G. destruct (G e He) as [[u ->] | [u ->]];
      simpl; auto.
  - intros u d. rewrite Q, elem_of_app. intros [Hin | Hin]; [now apply I5|].
    rewrite Forall_forall in F. destruct (F _ Hin) as (Hd & Hlt & Ha & _).
    simpl in *. right. split; [lia | assumption].
  - intros d u. rewrite L, elem_of_app. intros [Hin | Hin]; [|now apply I6].
    rewrite Forall_forall in G.
    destruct (G _ Hin) as [[x Hx] | [x Hx]]; discriminate.
  - intros u Hu. destruct (P u Hu) as [Hp | Hp]; [|eauto].
    destruct (I7 u Hp) as [d Hd]. exists d. rewrite L, elem_of_app. now right.
Qed.

(** What one round of the loop does: it either drops the head of the
    queue, or it visits it. *)
Lemma iteration_cases (st : State W) (current_url : string) (depth : Z)
    (rest : list (string * Z)) :
  queue st = (current_url, depth) :: rest ->
  (iteration cfg allowed_domains st = set_queue rest st /\
   (current_url ∈ visited_urls st \/ (max_depth cfg < depth)%Z)) \/
  ((current_url ∉ visited_urls st) /\ (depth <= max_depth cfg)%Z /\
   extends depth
     (set_world (fst (driver_get (world st) current_url))
        (add_event (Exploring depth current_url)
           (add_visited current_url (set_queue rest st))))
     (iteration cfg allowed_domains st)).
Proof.
  intros Hq. unfold iteration. rewrite Hq.
  destruct (bool_decide (current_url ∈ visited_urls (set_queue rest st))
            || (max_depth cfg <? depth)%Z) eqn:Hskip.
  - left. split; [reflexivity|].
    apply orb_true_iff in Hskip as [Hv | Hd].
    + left. now apply bool_decide_eq_true in Hv.
    + right. now apply Z.ltb_lt in Hd.
  - right. apply orb_false_iff in Hskip as [Hv Hd].
    apply bool_decide_eq_false in Hv. apply Z.ltb_ge in Hd.
    split; [exact Hv|]. split; [exact Hd|]. simpl.
    destruct (driver_get (world st) current_url) as [w' r].
    destruct r as [|page_text links]; simpl.
    + split; simpl; try reflexivity.
      * exists []. now rewrite app_nil_r.
      * exists [ErrorProcessing current_url]. split; [reflexivity|].
        constructor; [right; eauto | constructor].
      * intros u Hu. now left.
    + apply process_links_extends.
Qed.

Lemma iteration_invariant (seeds : list string) (V0 : gset string)
    (st : State W) :
  invariant seeds V0 st ->
  invariant seeds V0 (iteration cfg allowed_domains st).
Proof.
  intros Inv.
  destruct (queue st) as [|[current_url depth] rest] eqn:Hq.
  { unfold iteration. now rewrite Hq. }
  assert (Hhead : (current_url, depth) ∈ queue st) by (rewrite Hq; left).
  destruct (iteration_cases st current_url depth rest Hq)
    as [[-> _] | (Hnv & Hd & Hext)].
  - destruct Inv as [I0 I1 I2 I3 I4 I5 I6 I7]. split; simpl; auto.
    intros u d Hin. apply I5. rewrite Hq. now right.
  - destruct Inv as [I0 I1 I2 I3 I4 I5 I6 I7].
    assert (H0d : (0 <= depth)%Z).
    { destruct (I5 _ _ Hhead) as [[-> _] | [? _]]; lia. }
    eapply invariant_extends; [split; eassumption | exact Hext |].
    split; simpl.
    + intros u Hu. apply elem_of_union. right. now apply I0.
    + rewrite fetched_cons_exploring. apply NoDup_app.
      split; [assumption|]. split; [|apply NoDup_singleton].
      intros u Hu Hu'. apply list_elem_of_singleton in Hu' as ->.
      apply Hnv. now apply I2.
    + intros u. rewrite fetched_cons_exploring, elem_of_app.
      intros [Hu | Hu].
      * destruct (I2 u Hu) as [Hv HV0]. split; [|assumption].
        apply elem_of_union. now right.
      * apply list_elem_of_singleton in Hu as ->. split.
        -- apply elem_of_union. left. now apply elem_of_singleton.
        -- intros HV0. apply Hnv. now apply I0.
    + intros u. rewrite fetched_cons_exploring, elem_of_app, elem_of_union.
      intros [Hu | Hu].
      * apply elem_of_singleton in Hu as ->. right. right.
        now apply list_elem_of_singleton.
      * destruct (I3 u Hu); auto.
    + intros e He. apply elem_of_cons in He as [-> | He]; [|now apply I4].
      simpl. lia.
    + intros u d Hin. apply I5. rewrite Hq. now right.
    + intros d u Hin. apply elem_of_cons in Hin as [Heq | Hin];
        [|now apply I6].
      injection Heq as -> ->.
      destruct (I5 _ _ Hhead) as [? | [? ?]]; [now left | right].
      split; [lia | assumption].
    + intros u Hu. destruct (I7 u Hu) as [d Hd']. exists d. now right.
Qed.

Lemma bfs_loop_invariant (seeds : list string) (V0 : gset string)
    (fuel : nat) (st : State W) :
  invariant seeds V0 st ->
  invariant seeds V0 (outcome_state (bfs_loop cfg allowed_domains fuel st)).
Proof.
  revert st. induction fuel as [|fuel IH]; intros st Inv; simpl.
  - now destruct (loop_condition cfg st).
  - destruct (loop_condition cfg st); [|exact Inv].
    apply IH. now apply iteration_invariant.
Qed.

Lemma iteration_progress (st : State W) :
  loop_condition cfg st = true ->
  (length (queue (iteration cfg allowed_domains st)) < length (queue st) /\
   budget (iteration cfg allowed_domains st) = budget st) \/
  budget (iteration cfg allowed_domains st) < budget st.
Proof.
  unfold loop_condition. intros Hc.
  destruct (queue st) as [|[current_url depth] rest] eqn:Hq; [discriminate|].
  apply Z.ltb_lt in Hc.
  destruct (iteration_cases st current_url depth rest Hq)
    as [[-> _] | (Hnv & Hd & Hext)].
  - left. simpl. split; [lia | reflexivity].
  - right. unfold LoopSpec.budget. rewrite (LoopSpec.ext_visited _ _ _ _ _ Hext). simpl.
    rewrite size_union by (apply disjoint_singleton_l; exact Hnv).
    rewrite size_singleton. lia.
Qed.

(** The loop leaves after finitely many rounds, whatever the web answers. *)
Lemma bfs_loop_terminates (st : State W) :
  exists fuel st', bfs_loop cfg allowed_domains fuel st = Completed st'.
Proof.
  remember (budget st) as n eqn:Hn. revert st Hn.
  induction n as [n IHn] using lt_wf_ind. intros st Hn.
  remember (length (queue st)) as k eqn:Hk. revert st Hn Hk.
  induction k as [k IHk] using lt_wf_ind. intros st Hn Hk.
  destruct (loop_condition cfg st) eqn:Hc.
  - destruct (iteration_progress st Hc) as [[Hlen Hb] | Hb].
    + rewrite <- Hk in Hlen. rewrite <- Hn in Hb. symmetry in Hb.
      destruct (IHk _ Hlen _ Hb eq_refl) as (fuel & st' & Hrun).
      exists (S fuel), st'. simpl. now rewrite Hc.
    + rewrite <- Hn in Hb.
      destruct (IHn _ Hb _ eq_refl) as (fuel & st' & Hrun).
      exists (S fuel), st'. simpl. now rewrite Hc.
  - exists 0, st. simpl. now rewrite Hc.
Qed.

(** Once the loop has left, more fuel changes nothing. *)
Lemma bfs_loop_fuel_mono (fuel fuel' : nat) (st st' : State W) :
  bfs_loop cfg allowed_domains fuel st = Completed st' ->
  fuel <= fuel' ->
  bfs_loop cfg allowed_domains fuel' st = Completed st'.
Proof.
  revert fuel' st. induction fuel as [|fuel IH]; intros fuel' st; simpl.
  - destruct (loop_condition cfg st) eqn:Hc; [discriminate|].
    intros Hrun _. destruct fuel'; simpl; now rewrite Hc.
  - destruct (loop_condition cfg st) eqn:Hc.
    + intros Hrun Hle. destruct fuel' as [|fuel']; [lia|].
      simpl. rewrite Hc. apply IH; [exact Hrun | lia].
    + intros Hrun _. destruct fuel'; simpl; now rewrite Hc.
Qed.

Lemma bfs_loop_completed_condition (fuel : nat) (st st' : State W) :
  bfs_loop cfg allowed_domains fuel st = Completed st' ->
  loop_condition cfg st' = false.
Proof.
  revert st. induction fuel as [|fuel IH]; intros st; simpl.
  - destruct (loop_condition cfg st) eqn:Hc; [discriminate|].
    now intros [= <-].
  - destruct (loop_condition cfg st) eqn:Hc; [apply IH|].
    now intros [= <-].
Qed.

End PdfBfsFacts.

(** ** The loop of the regional crawler *)

Section RegionalFacts.

Import RegionalEnhancedCrawler.

Context `{UrlLib} `{Web W}.
Variable self_max_depth : Z.
Variable allowed_domains : list string.

Local Abbreviation passive := LoopSpec.passive.
Local Abbreviation regional_invariant := (LoopSpec.regional_invariant allowed_domains).
Local Abbreviation regional_budget := LoopSpec.regional_budget.

Lemma regional_fetched_cons_exploring (d : Z) (u : string) (l : list Event) :
  fetched (Exploring d u :: l) = fetched l ++ [u].
Proof. unfold fetched. simpl. now rewrite reverse_cons. Qed.

Lemma passive_refl (st : State W) : passive st st.
Proof. now split. Qed.

Lemma passive_trans (a b c : State W) :
  passive a b -> passive b c -> passive a c.
Proof. intros [] []. split; congruence. Qed.

Lemma regional_process_link_passive (depth : Z)
    (link_text absolute_url : string) (st : State W) :
  passive st
    (process_link self_max_depth allowed_domains depth link_text absolute_url st).
Proof.
  unfold process_link.
  destruct (negb (domain_allowed allowed_domains absolute_url));
    [apply passive_refl|].
  destruct (endswith ".pdf" (lower absolute_url)
            || contains ".pdf" (lower absolute_url)); [now split|].
  destruct (_ && _ && _); [now split | apply passive_refl].
Qed.

Lemma regional_process_links_passive (current_url : string) (depth : Z)
    (links : list (string * string)) (st : State W) :
  passive st
    (fst (process_links self_max_depth allowed_domains current_url depth links st)).
Proof.
  revert st. induction links as [|[href text] rest IH]; intros st; simpl.
  - apply passive_refl.
  - destruct (urljoin current_url href) as [absolute_url|];
      [|apply passive_refl].
    eapply passive_trans; [apply regional_process_link_passive | apply IH].
Qed.

Lemma regional_process_page_passive (current_url : string) (depth : Z)
    (page_text : string) (links : list (string * string)) (st : State W) :
  passive st
    (process_page self_max_depth allowed_domains current_url depth
       page_text links st).
Proof.
  unfold process_page.
  pose proof (regional_process_links_passive current_url depth links
    (set_state_coverage
       (extend_coverage (detect_regional_indicators current_url page_text)
          (state_coverage st)) st)) as Hp.
  destruct (process_links _ _ _ _ _ _) as [st2 ok]. simpl in Hp.
  assert (Hst : passive st st2).
  { eapply passive_trans; [|exact Hp]. now split. }
  destruct ok.
  - destruct (5 <=? _)%Z; [|exact Hst].
    eapply passive_trans; [exact Hst | now split].
  - eapply passive_trans; [exact Hst | now split].
Qed.

(** The three ways a round of the loop can go. *)
Lemma regional_iteration_cases (st : State W) (current_url : string)
    (depth score : Z) (rest : list (string * Z * Z)) :
  queue st = (current_url, depth, score) :: rest ->
  (iteration self_max_depth allowed_domains st = set_queue rest st /\
   (current_url ∈ visited_urls st \/ (self_max_depth < depth)%Z)) \/
  ((current_url ∉ visited_urls st) /\
   domain_allowed allowed_domains current_url = false /\
   iteration self_max_depth allowed_domains st
   = mark_processed current_url (set_queue rest st)) \/
  ((current_url ∉ visited_urls st) /\
   domain_allowed allowed_domains current_url = true /\
   passive
     (set_world (fst (driver_get (world st) current_url))
        (add_event (Exploring depth current_url)
           (mark_processed current_url (set_queue rest st))))
     (iteration self_max_depth allowed_domains st)).
Proof.
  intros Hq. unfold iteration. rewrite Hq.
  destruct (bool_decide (current_url ∈ visited_urls (set_queue rest st))
            || (self_max_depth <? depth)%Z) eqn:Hskip.
  - left. split; [reflexivity|].
    apply orb_true_iff in Hskip as [Hv | Hd].
    + left. now apply bool_decide_eq_true in Hv.
    + right. now apply Z.ltb_lt in Hd.
  - right. apply orb_false_iff in Hskip as [Hv _].
    apply bool_decide_eq_false in Hv.
    destruct (domain_allowed allowed_domains current_url) eqn:Hdom; simpl.
    + right. split; [exact Hv|]. split; [reflexivity|].
      destruct (driver_get (world st) current_url) as [w' r].
      destruct r as [|page_text links]; simpl.
      * now split.
      * apply regional_process_page_passive.
    + left. auto.
Qed.

Lemma regional_iteration_invariant (V0 : gset string) (st : State W) :
  regional_invariant V0 st ->
  regional_invariant V0 (iteration self_max_depth allowed_domains st).
Proof.
  intros [I0 I1 I2].
  destruct (queue st) as [|[[current_url depth] score] rest] eqn:Hq.
  { unfold iteration. rewrite Hq. now split. }
  destruct (regional_iteration_cases st current_url depth score rest Hq)
    as [[-> _] | [(Hnv & Hdom & ->) | (Hnv & Hdom & [Pv _ _ Pf])]].
  - now split.
  - split; simpl.
    + intros u Hu. apply elem_of_union. right. now apply I0.
    + exact I1.
    + intros u Hu. destruct (I2 u Hu) as (Hv & HV0 & Hd).
      split; [|now split]. apply elem_of_union. now right.
  - simpl in Pv, Pf. rewrite regional_fetched_cons_exploring in Pf. split.
    + intros u Hu. rewrite Pv. apply elem_of_union. right. now apply I0.
    + rewrite Pf. apply NoDup_app.
      split; [assumption|]. split; [|apply NoDup_singleton].
      intros u Hu Hu'. apply list_elem_of_singleton in Hu' as ->.
      apply Hnv. now apply I2.
    + intros u. rewrite Pf, Pv, elem_of_app. intros [Hu | Hu].
      * destruct (I2 u Hu) as (Hv & HV0 & Hd).
        split; [|now split]. apply elem_of_union. now right.
      * apply list_elem_of_singleton in Hu as ->. split; [|split].
        -- apply elem_of_union. left. now apply elem_of_singleton.
        -- intros HV0. apply Hnv. now apply I0.
        -- exact Hdom.
Qed.

Lemma regional_loop_condition_state (start_time : Q) (max_time_seconds : Z)
    (st : State W) :
  exists w', fst (loop_condition start_time max_time_seconds st)
             = set_world w' st.
Proof.
  unfold loop_condition. destruct (queue st).
  - exists (world st). now destruct st.
  - destruct (urls_processed st <? max_urls)%Z.
    + destruct (time_time (world st)) as [w' t]. now exists w'.
    + exists (world st). now destruct st.
Qed.

Lemma regional_bfs_loop_invariant (V0 : gset string) (start_time : Q)
    (max_time_seconds : Z) (fuel : nat) (st : State W) :
  regional_invariant V0 st ->
  regional_invariant V0
    (PdfBfs.outcome_state
       (bfs_loop self_max_depth allowed_domains start_time max_time_seconds
          fuel st)).
Proof.
  revert st. induction fuel as [|fuel IH]; intros st Inv; simpl;
    destruct (regional_loop_condition_state start_time max_time_seconds st)
      as [w' Hw];
    destruct (loop_condition start_time max_time_seconds st) as [st' c];
    simpl in Hw; subst st';
    assert (Inv' : regional_invariant V0 (set_world w' st))
      by (destruct Inv; now split).
  - now destruct c.
  - destruct c; [|exact Inv'].
    apply IH. now apply regional_iteration_invariant.
Qed.

Lemma regional_iteration_progress (st : State W) :
  queue st <> [] ->
  (urls_processed st < max_urls)%Z ->
  (length (queue (iteration self_max_depth allowed_domains st))
   < length (queue st) /\
   regional_budget (iteration self_max_depth allowed_domains st)
   = regional_budget st) \/
  regional_budget (iteration self_max_depth allowed_domains st)
  < regional_budget st.
Proof.
  intros Hne Hlt.
  destruct (queue st) as [|[[current_url depth] score] rest] eqn:Hq;
    [congruence|].
  destruct (regional_iteration_cases st current_url depth score rest Hq)
    as [[-> _] | [(_ & _ & ->) | (_ & _ & [_ Pp _ _])]].
  - left. simpl. split; [lia | reflexivity].
  - right. unfold LoopSpec.regional_budget. simpl. lia.
  - right. unfold LoopSpec.regional_budget. rewrite Pp. simpl. lia.
Qed.

Lemma regional_loop_condition_true (start_time : Q) (max_time_seconds : Z)
    (st : State W) :
  snd (loop_condition start_time max_time_seconds st) = true ->
  queue st <> [] /\ (urls_processed st < max_urls)%Z /\
  (snd (time_time (world st)) - start_time < inject_Z max_time_seconds)%Q.
Proof.
  unfold loop_condition. destruct (queue st); [discriminate|].
  destruct (urls_processed st <? max_urls)%Z eqn:Hp; [|discriminate].
  destruct (time_time (world st)) as [w' t]. simpl. unfold Qlt_bool.
  intros Hc. apply negb_true_iff in Hc.
  split; [discriminate|]. split; [now apply Z.ltb_lt|].
  apply Qnot_le_lt. intros Hle. apply Qle_bool_iff in Hle. congruence.
Qed.

(** The regional loop leaves after finitely many rounds. *)
Lemma regional_bfs_loop_terminates (start_time : Q) (max_time_seconds : Z)
    (st : State W) :
  exists fuel st',
    bfs_loop self_max_depth allowed_domains start_time max_time_seconds fuel st
    = PdfBfs.Completed st'.
Proof.
  remember (regional_budget st) as n eqn:Hn. revert st Hn.
  induction n as [n IHn] using lt_wf_ind. intros st Hn.
  remember (length (queue st)) as k eqn:Hk. revert st Hn Hk.
  induction k as [k IHk] using lt_wf_ind. intros st Hn Hk.
  destruct (regional_loop_condition_state start_time max_time_seconds st)
    as [w' Hw].
  pose proof (regional_loop_condition_true start_time max_time_seconds st)
    as Hc.
  destruct (loop_condition start_time max_time_seconds st) as [st1 c] eqn:Hl.
  simpl in Hw, Hc. subst st1. destruct c.
  - destruct (Hc eq_refl) as (Hne & Hlt & _).
    destruct (regional_iteration_progress (set_world w' st) Hne Hlt)
      as [[Hlen Hb] | Hb].
    + simpl in Hlen. rewrite <- Hk in Hlen.
      change (regional_budget (set_world w' st)) with (regional_budget st) in Hb.
      rewrite <- Hn in Hb. symmetry in Hb.
      destruct (IHk _ Hlen _ Hb eq_refl) as (fuel & st' & Hrun).
      exists (S fuel), st'. simpl. now rewrite Hl.
    + change (regional_budget (set_world w' st)) with (regional_budget st) in Hb.
      rewrite <- Hn in Hb.
      destruct (IHn _ Hb _ eq_refl) as (fuel & st' & Hrun).
      exists (S fuel), st'. simpl. now rewrite Hl.
  - exists 0, (set_world w' st). simpl. now rewrite Hl.
Qed.

(** No round of the regional loop starts once the clock reading taken by
    the loop condition is [max_time_seconds] or more past [start_time]. *)
Lemma regional_deadline_stops (start_time : Q) (max_time_seconds : Z)
    (fuel : nat) (st : State W) :
  (inject_Z max_time_seconds <= snd (time_time (world st)) - start_time)%Q ->
  exists st',
    bfs_loop self_max_depth allowed_domains start_time max_time_seconds fuel st
    = PdfBfs.Completed st' /\
    log st' = log st /\ visited_urls st' = visited_urls st.
Proof.
  intros Hlate.
  destruct (regional_loop_condition_state start_time max_time_seconds st)
    as [w' Hw].
  pose proof (regional_loop_condition_true start_time max_time_seconds st)
    as Hc.
  destruct (loop_condition start_time max_time_seconds st) as [st1 c] eqn:Hl.
  simpl in Hw, Hc. subst st1. destruct c.
  - destruct (Hc eq_refl) as (_ & _ & Hlt).
    exfalso. exact (Qlt_not_le _ _ Hlt Hlate).
  - exists (set_world w' st). split; [|now split].
    destruct fuel; simpl; now rewrite Hl.
Qed.

End RegionalFacts.

(** ** Crawling through the counting browser *)

Section CountingFacts.

Context {L : UrlLib} {W : Type} {web : Web W}.

Lemma counting_get_calls (wc : W * list string) (url : string) :
  snd (fst (@driver_get _ counting_web wc url)) = snd wc ++ [url].
Proof. simpl. now destruct (driver_get (fst wc) url). Qed.

Lemma counting_time_calls (wc : W * list string) :
  snd (fst (@time_time _ counting_web wc)) = snd wc.
Proof. simpl. now destruct (time_time (fst wc)). Qed.

(** In the shared loop, the browser's record of calls is the sequence of
    "Exploring" lines. *)
Lemma counting_iteration (cfg : PdfBfs.Config) (allowed_domains calls0 : list string)
    (st : PdfBfs.State (W * list string)) :
  snd (PdfBfs.world st) = calls0 ++ PdfBfs.fetched (PdfBfs.log st) ->
  let st' := @PdfBfs.iteration L _ counting_web cfg allowed_domains st in
  snd (PdfBfs.world st') = calls0 ++ PdfBfs.fetched (PdfBfs.log st').
Proof.
  intros Hst st'. subst st'.
  destruct (PdfBfs.queue st) as [|[current_url depth] rest] eqn:Hq.
  { unfold PdfBfs.iteration. now rewrite Hq. }
  destruct (@iteration_cases L _ counting_web cfg allowed_domains st
              current_url depth rest Hq) as [[-> _] | (_ & _ & Hext)].
  - exact Hst.
  - rewrite (LoopSpec.ext_world _ _ _ _ _ Hext).
    rewrite (extends_fetched _ _ _ _ _ Hext).
    cbn [PdfBfs.world PdfBfs.log PdfBfs.set_world PdfBfs.add_event
         PdfBfs.add_visited PdfBfs.set_queue].
    rewrite counting_get_calls, fetched_cons_exploring, Hst.
    now rewrite app_assoc.
Qed.

Lemma counting_bfs_loop (cfg : PdfBfs.Config) (allowed_domains calls0 : list string)
    (fuel : nat) (st : PdfBfs.State (W * list string)) :
  snd (PdfBfs.world st) = calls0 ++ PdfBfs.fetched (PdfBfs.log st) ->
  let st' := PdfBfs.outcome_state
               (@PdfBfs.bfs_loop L _ counting_web cfg allowed_domains fuel st) in
  snd (PdfBfs.world st') = calls0 ++ PdfBfs.fetched (PdfBfs.log st').
Proof.
  revert st. induction fuel as [|fuel IH]; intros st Hst; simpl.
  - now destruct (PdfBfs.loop_condition cfg st).
  - destruct (PdfBfs.loop_condition cfg st); [|exact Hst].
    apply IH. now apply counting_iteration.
Qed.

(** The same for the regional loop. *)
Lemma regional_counting_iteration (self_max_depth : Z)
    (allowed_domains calls0 : list string)
    (st : RegionalEnhancedCrawler.State (W * list string)) :
  snd (RegionalEnhancedCrawler.world st)
  = calls0 ++ RegionalEnhancedCrawler.fetched (RegionalEnhancedCrawler.log st) ->
  let st' := @RegionalEnhancedCrawler.iteration L _ counting_web
               self_max_depth allowed_domains st in
  snd (RegionalEnhancedCrawler.world st')
  = calls0 ++ RegionalEnhancedCrawler.fetched (RegionalEnhancedCrawler.log st').
Proof.
  intros Hst st'. subst st'.
  destruct (RegionalEnhancedCrawler.queue st)
    as [|[[current_url depth] score] rest] eqn:Hq.
  { unfold RegionalEnhancedCrawler.iteration. now rewrite Hq. }
  destruct (@regional_iteration_cases L _ counting_web self_max_depth
              allowed_domains st current_url depth score rest Hq)
    as [[-> _] | [(_ & _ & ->) | (_ & _ & [_ _ Pw Pf])]].
  - exact Hst.
  - exact Hst.
  - rewrite Pw, Pf.
    cbn [RegionalEnhancedCrawler.world RegionalEnhancedCrawler.log
         RegionalEnhancedCrawler.set_world RegionalEnhancedCrawler.add_event
         RegionalEnhancedCrawler.mark_processed
         RegionalEnhancedCrawler.set_queue].
    rewrite counting_get_calls, regional_fetched_cons_exploring, Hst.
    now rewrite app_assoc.
Qed.

Lemma regional_counting_bfs_loop (self_max_depth : Z)
    (allowed_domains calls0 : list string) (start_time : Q)
    (max_time_seconds : Z) (fuel : nat)
    (st : RegionalEnhancedCrawler.State (W * list string)) :
  snd (RegionalEnhancedCrawler.world st)
  = calls0 ++ RegionalEnhancedCrawler.fetched (RegionalEnhancedCrawler.log st) ->
  let st' := PdfBfs.outcome_state
               (@RegionalEnhancedCrawler.bfs_loop L _ counting_web
                  self_max_depth allowed_domains start_time max_time_seconds
                  fuel st) in
  snd (RegionalEnhancedCrawler.world st')
  = calls0 ++ RegionalEnhancedCrawler.fetched (RegionalEnhancedCrawler.log st').
Proof.
  assert (Hcond : forall st : RegionalEnhancedCrawler.State (W * list string),
            snd (RegionalEnhancedCrawler.world st)
            = calls0 ++ RegionalEnhancedCrawler.fetched
                          (RegionalEnhancedCrawler.log st) ->
            let st1 := fst (@RegionalEnhancedCrawler.loop_condition _
                              counting_web start_time max_time_seconds st) in
            snd (RegionalEnhancedCrawler.world st1)
            = calls0 ++ RegionalEnhancedCrawler.fetched
                          (RegionalEnhancedCrawler.log st1)).
  { intros st0 Hst0. unfold RegionalEnhancedCrawler.loop_condition.
    destruct (RegionalEnhancedCrawler.queue st0); [exact Hst0|].
    destruct (_ <? _)%Z; [|exact Hst0].
    pose proof (counting_time_calls (RegionalEnhancedCrawler.world st0)) as Ht.
    destruct (@time_time _ counting_web (RegionalEnhancedCrawler.world st0))
      as [w' t]. simpl in Ht |- *. now rewrite Ht. }
  revert st. induction fuel as [|fuel IH]; intros st Hst; simpl;
    specialize (Hcond st Hst);
    destruct (@RegionalEnhancedCrawler.loop_condition _ counting_web
                start_time max_time_seconds st) as [st1 c]; simpl in Hcond.
  - now destruct c.
  - destruct c; [|exact Hcond].
    apply IH. now apply regional_counting_iteration.
Qed.

End CountingFacts.

(** ** The crawlers *)

Section CrawlerFacts.

Context `{UrlLib} `{Web W}.

Lemma domain_allowed_spec (allowed_domains : list string) (url : string) :
  PdfBfs.domain_allowed allowed_domains url = true <->
  exists domain, In domain allowed_domains /\
    exists pre suf, netloc url = pre +:+ domain +:+ suf.
Proof.
  unfold PdfBfs.domain_allowed. rewrite existsb_exists.
  split; intros [domain [Hin Hc]]; exists domain; split; try assumption;
    now apply contains_spec.
Qed.

Lemma comprehensive_crawl_invariant (self : ComprehensivePDFDiscovery.Crawler)
    (starting_urls allowed_domains : list string) (fuel : nat) (w : W) :
  LoopSpec.invariant (ComprehensivePDFDiscovery.config self) allowed_domains
    starting_urls ∅
    (PdfBfs.outcome_state
       (ComprehensivePDFDiscovery.crawl self starting_urls allowed_domains
          fuel w)).
Proof. apply bfs_loop_invariant, initial_invariant. Qed.

Lemma simple_crawl_invariant (self : SimpleBFSCrawler.Crawler)
    (start_urls allowed_domains : list string) (fuel : nat) (w : W) :
  LoopSpec.invariant (SimpleBFSCrawler.config self) allowed_domains start_urls
    (SimpleBFSCrawler.visited_urls self)
    (PdfBfs.outcome_state
       (SimpleBFSCrawler.crawl self start_urls allowed_domains fuel w)).
Proof. apply bfs_loop_invariant, initial_invariant. Qed.

Lemma regional_crawl_invariant (self : RegionalEnhancedCrawler.Crawler)
    (starting_urls allowed_domains : list string) (max_time_minutes : Z)
    (fuel : nat) (w : W) :
  LoopSpec.regional_invariant allowed_domains
    (RegionalEnhancedCrawler.self_visited_urls self)
    (PdfBfs.outcome_state
       (RegionalEnhancedCrawler.crawl self starting_urls allowed_domains
          max_time_minutes fuel w)).
Proof.
  unfold RegionalEnhancedCrawler.crawl.
  destruct (time_time w) as [w0 start_time].
  apply regional_bfs_loop_invariant. split; simpl.
  - auto.
  - constructor.
  - intros u Hu. inversion Hu.
Qed.

Lemma comprehensive_counting_calls (self : ComprehensivePDFDiscovery.Crawler)
    (starting_urls allowed_domains : list string) (fuel : nat) (w : W) :
  let st := PdfBfs.outcome_state
              (@ComprehensivePDFDiscovery.crawl _ _ counting_web self
                 starting_urls allowed_domains fuel (w, [])) in
  snd (PdfBfs.world st) = PdfBfs.fetched (PdfBfs.log st).
Proof.
  apply (counting_bfs_loop (ComprehensivePDFDiscovery.config self)
           allowed_domains [] fuel). reflexivity.
Qed.

Lemma regional_counting_calls (self : RegionalEnhancedCrawler.Crawler)
    (starting_urls allowed_domains : list string) (max_time_minutes : Z)
    (fuel : nat) (w : W) :
  let st := PdfBfs.outcome_state
              (@RegionalEnhancedCrawler.crawl _ _ counting_web self
                 starting_urls allowed_domains max_time_minutes fuel (w, [])) in
  snd (RegionalEnhancedCrawler.world st)
  = RegionalEnhancedCrawler.fetched (RegionalEnhancedCrawler.log st).
Proof.
  unfold RegionalEnhancedCrawler.crawl.
  pose proof (counting_time_calls (w, [])) as Ht.
  destruct (@time_time _ counting_web (w, [])) as [w0 start_time].
  simpl in Ht.
  apply (regional_counting_bfs_loop (RegionalEnhancedCrawler.max_depth self)
           allowed_domains [] start_time). simpl. exact Ht.
Qed.

End CrawlerFacts.

Section CrawlerProperties.

Context {L : UrlLib} {W : Type} {web : Web W}.

(** C1.  In every crawl session a URL is fetched at most once.  The crawl
    is run through a browser that records, in order, every URL passed to
    [driver.get].  For [ComprehensivePDFDiscovery.discover_pdfs_bfs], after
    any number of rounds of the loop: the record of calls has no
    repetition, the returned [urls_visited] list has no repetition, and it
    lists exactly the URLs of the record.  For
    [RegionalEnhancedCrawler.discover_regional_content_bfs]: the record of
    calls has no repetition, and no URL that was already in
    [self.visited_urls] when the session started is in it.  The seeds and
    the web are arbitrary, so repeated seeds and repeated queue entries are
    covered. *)
Theorem C1_no_revisit (self : ComprehensivePDFDiscovery.Crawler)
    (rself : RegionalEnhancedCrawler.Crawler)
    (starting_urls allowed_domains : list string) (max_time_minutes : Z)
    (fuel : nat) (w : W) :
  let st := PdfBfs.outcome_state
              (@ComprehensivePDFDiscovery.crawl _ _ counting_web self
                 starting_urls allowed_domains fuel (w, [])) in
  let rst := PdfBfs.outcome_state
               (@RegionalEnhancedCrawler.crawl _ _ counting_web rself
                  starting_urls allowed_domains max_time_minutes fuel (w, [])) in
  let calls := snd (PdfBfs.world st) in
  let regional_calls := snd (RegionalEnhancedCrawler.world rst) in
  NoDup calls /\
  NoDup (ComprehensivePDFDiscovery.urls_visited
           (ComprehensivePDFDiscovery.result st)) /\
  (forall u, u ∈ ComprehensivePDFDiscovery.urls_visited
                   (ComprehensivePDFDiscovery.result st)
             <-> u ∈ calls) /\
  NoDup regional_calls /\
  (forall u, u ∈ regional_calls ->
             u ∉ RegionalEnhancedCrawler.self_visited_urls rself).
Proof.
  intros st rst calls regional_calls.
  pose proof (comprehensive_counting_calls self starting_urls allowed_domains
                fuel w) as Hc.
  pose proof (regional_counting_calls rself starting_urls allowed_domains
                max_time_minutes fuel w) as Hr.
  destruct (@comprehensive_crawl_invariant _ _ counting_web self
              starting_urls allowed_domains fuel (w, []))
    as [_ I1 I2 I3 _ _ _ _].
  destruct (@regional_crawl_invariant _ _ counting_web rself starting_urls
              allowed_domains max_time_minutes fuel (w, [])) as [_ R1 R2].
  cbv zeta in Hc, Hr. fold st in I1, I2, I3, Hc. fold rst in R1, R2, Hr.
  unfold calls, regional_calls. rewrite Hc, Hr.
  split; [exact I1|]. split; [simpl; apply NoDup_elements|]. split; [|split].
  - intros u. simpl. rewrite elem_of_elements. split.
    + intros Hu. destruct (I3 u Hu) as [Hempty | Hf]; [|exact Hf].
      now apply elem_of_empty in Hempty.
    + intros Hu. now apply I2.
  - exact R1.
  - intros u Hu. now apply R2.
Qed.

(** C2.  The BFS loop terminates: for every web (an arbitrary oracle that
    answers each page visit with finitely many links, cyclic or not), every
    seed list and every [max_urls] ceiling, some finite number of rounds
    makes [discover_pdfs_bfs] return, and from then on the returned value
    does not depend on the number of rounds allowed.  This holds for the
    loop of [ComprehensivePDFDiscovery] and for that of
    [SimpleBFSCrawler]. *)
Theorem C2_bfs_terminates (self : ComprehensivePDFDiscovery.Crawler)
    (sself : SimpleBFSCrawler.Crawler)
    (start_urls allowed_domains : list string) (w : W) :
  (exists fuel r, forall fuel', fuel <= fuel' ->
     ComprehensivePDFDiscovery.discover_pdfs_bfs self start_urls
       allowed_domains fuel' w = Some r) /\
  (exists fuel r, forall fuel', fuel <= fuel' ->
     SimpleBFSCrawler.discover_pdfs_bfs sself start_urls
       allowed_domains fuel' w = Some r).
Proof.
  split.
  - destruct (bfs_loop_terminates (ComprehensivePDFDiscovery.config self)
                allowed_domains (PdfBfs.initial_state ∅ start_urls w))
      as (fuel & st' & Hrun).
    exists fuel, (PdfBfs.world st', ComprehensivePDFDiscovery.result st').
    intros fuel' Hle.
    unfold ComprehensivePDFDiscovery.discover_pdfs_bfs,
      ComprehensivePDFDiscovery.crawl.
    now rewrite (bfs_loop_fuel_mono _ _ _ _ _ _ Hrun Hle).
  - destruct (bfs_loop_terminates (SimpleBFSCrawler.config sself)
                allowed_domains
                (PdfBfs.initial_state (SimpleBFSCrawler.visited_urls sself)
                   start_urls w))
      as (fuel & st' & Hrun).
    exists fuel, (PdfBfs.world st', SimpleBFSCrawler.result st').
    intros fuel' Hle.
    unfold SimpleBFSCrawler.discover_pdfs_bfs, SimpleBFSCrawler.crawl.
    now rewrite (bfs_loop_fuel_mono _ _ _ _ _ _ Hrun Hle).
Qed.

(** C3.  Depth bound of [ComprehensivePDFDiscovery.discover_pdfs_bfs]:
    after any number of rounds, every URL handed to the browser was taken
    from the queue at a depth between 0 and [max_depth]; every discovered
    document was found on a page of depth between 0 and [max_depth]; and
    every queue entry is either a seed at depth 0 or was enqueued at a
    depth between 1 and [max_depth]. *)
Theorem C3_depth_bound (self : ComprehensivePDFDiscovery.Crawler)
    (starting_urls allowed_domains : list string) (fuel : nat) (w : W) :
  let st := PdfBfs.outcome_state
              (ComprehensivePDFDiscovery.crawl self starting_urls
                 allowed_domains fuel w) in
  let max_depth := ComprehensivePDFDiscovery.max_depth self in
  (forall d u, PdfBfs.Exploring d u ∈ PdfBfs.log st ->
     (0 <= d <= max_depth)%Z) /\
  (forall u, u ∈ ComprehensivePDFDiscovery.pdfs_discovered
                   (ComprehensivePDFDiscovery.result st) ->
     exists d, PdfBfs.FoundPDF d u ∈ PdfBfs.log st) /\
  (forall d u, PdfBfs.FoundPDF d u ∈ PdfBfs.log st ->
     (0 <= d <= max_depth)%Z) /\
  (forall u d, (u, d) ∈ PdfBfs.queue st ->
     (d = 0%Z /\ u ∈ starting_urls) \/ (1 <= d <= max_depth)%Z).
Proof.
  intros st max_depth.
  destruct (comprehensive_crawl_invariant self starting_urls allowed_domains
              fuel w) as [_ _ _ _ I4 I5 _ I7].
  fold st in I4, I5, I7.
  split; [|split; [|split]].
  - intros d u Hin. exact (I4 _ Hin).
  - intros u Hu. simpl in Hu. apply elem_of_elements in Hu. now apply I7.
  - intros d u Hin. exact (I4 _ Hin).
  - intros u d Hin. destruct (I5 u d Hin) as [? | [? _]]; auto.
Qed.

(** C4, amended.  Domain containment holds for links by substring, and
    in [ComprehensivePDFDiscovery] not for seeds: every URL that
    [ComprehensivePDFDiscovery.discover_pdfs_bfs] hands to the browser is
    either a seed (depth 0, fetched without any domain test) or an
    extracted link whose network location contains one of the allowed
    domains as a substring; every URL that
    [RegionalEnhancedCrawler.discover_regional_content_bfs] hands to the
    browser, seed or link, has a network location that contains one of the
    allowed domains as a substring. *)
Theorem C4_domain_containment_amended
    (self : ComprehensivePDFDiscovery.Crawler)
    (rself : RegionalEnhancedCrawler.Crawler)
    (starting_urls allowed_domains : list string) (max_time_minutes : Z)
    (fuel : nat) (w : W) :
  let st := PdfBfs.outcome_state
              (ComprehensivePDFDiscovery.crawl self starting_urls
                 allowed_domains fuel w) in
  let rst := PdfBfs.outcome_state
               (RegionalEnhancedCrawler.crawl rself starting_urls
                  allowed_domains max_time_minutes fuel w) in
  let allowed u :=
    exists domain, In domain allowed_domains /\
      exists pre suf, netloc u = pre +:+ domain +:+ suf in
  (forall d u, PdfBfs.Exploring d u ∈ PdfBfs.log st ->
     (d = 0%Z /\ u ∈ starting_urls) \/ ((1 <= d)%Z /\ allowed u)) /\
  (forall u, u ∈ RegionalEnhancedCrawler.fetched
                   (RegionalEnhancedCrawler.log rst) -> allowed u).
Proof.
  intros st rst allowed.
  destruct (comprehensive_crawl_invariant self starting_urls allowed_domains
              fuel w) as [_ _ _ _ _ _ I6 _].
  destruct (regional_crawl_invariant rself starting_urls allowed_domains
              max_time_minutes fuel w) as [_ _ R2].
  fold st in I6. fold rst in R2. split.
  - intros d u Hin. destruct (I6 d u Hin) as [? | [Hd Ha]]; [now left|].
    right. split; [exact Hd|]. now apply domain_allowed_spec.
  - intros u Hu. destruct (R2 u Hu) as (_ & _ & Ha).
    now apply domain_allowed_spec.
Qed.

End CrawlerProperties.

(** ** Concrete runs *)

Section ConcreteRuns.

Import UrlModel Examples.

(** The cyclic web A -> B -> A is crawled in two rounds. *)
Example cyclic_crawl_completes :
  @ComprehensivePDFDiscovery.discover_pdfs_bfs py_urllib Q
    (table_web cyclic_pages 1) comprehensive_crawler
    ["https://x.test/a"] ["x.test"] 2 0%Q
  = Some (2%Q,
          {| ComprehensivePDFDiscovery.pdfs_discovered := [];
             ComprehensivePDFDiscovery.urls_visited :=
               ["https://x.test/a"; "https://x.test/b"];
             ComprehensivePDFDiscovery.total_pdfs := 0;
             ComprehensivePDFDiscovery.total_urls_visited := 2 |}).
Proof. vm_compute. reflexivity. Qed.

(** The scenario of the specification on [SimpleBFSCrawler]: the document
    is recorded, nothing is enqueued, one page is visited. *)
Example scenario_simple :
  option_map snd
    (@SimpleBFSCrawler.discover_pdfs_bfs py_urllib Q
       (table_web scenario_pages 1) simple_crawler
       ["https://x.test/"] ["x.test"] 1 0%Q)
  = Some
      {| SimpleBFSCrawler.all_links :=
           [ {| PdfBfs.link_url := "https://x.test/manual.pdf";
                PdfBfs.link_text := "OH Provider Manual";
                PdfBfs.link_depth := 0;
                PdfBfs.link_parent := "https://x.test/" |} ];
         SimpleBFSCrawler.pdfs_discovered := ["https://x.test/manual.pdf"];
         SimpleBFSCrawler.urls_visited := ["https://x.test/"];
         SimpleBFSCrawler.total_links_found := 1;
         SimpleBFSCrawler.total_pdfs_found := 1;
         SimpleBFSCrawler.total_urls_visited := 1 |}.
Proof. vm_compute. reflexivity. Qed.

(** C4, counterexample.  With the allowed-domain set [{"x.test"}] and the
    seed [https://evil.test/], [ComprehensivePDFDiscovery] fetches the
    seed (host [evil.test]) and then the link found on it (host
    [notx.test], which merely contains ["x.test"]); neither host is a
    member of the allowed-domain set. *)
Lemma C4_counterexample :
  let st := PdfBfs.outcome_state
              (@ComprehensivePDFDiscovery.crawl py_urllib Q
                 (table_web foreign_pages 1) comprehensive_crawler
                 ["https://evil.test/"] ["x.test"] 5 0%Q) in
  ~ (forall u, In u (PdfBfs.fetched (PdfBfs.log st)) ->
               In (@netloc py_urllib u) ["x.test"]).
Proof.
  intros st Hall.
  assert (Hf : In "https://evil.test/" (PdfBfs.fetched (PdfBfs.log st)))
    by (vm_compute; auto).
  specialize (Hall _ Hf). vm_compute in Hall.
  destruct Hall as [Heq | []]. discriminate Heq.
Qed.

(** In the same crawl the link found on the seed page is fetched: its host
    [notx.test] contains the allowed domain as a substring. *)
Example look_alike_host_fetched :
  let st := PdfBfs.outcome_state
              (@ComprehensivePDFDiscovery.crawl py_urllib Q
                 (table_web foreign_pages 1) comprehensive_crawler
                 ["https://evil.test/"] ["x.test"] 5 0%Q) in
  PdfBfs.fetched (PdfBfs.log st)
  = ["https://evil.test/"; "https://notx.test/provider-guide"] /\
  map (@netloc py_urllib) (PdfBfs.fetched (PdfBfs.log st))
  = ["evil.test"; "notx.test"].
Proof. vm_compute. split; reflexivity. Qed.

(** The regional crawler, given the same seed and allowed domains, marks
    the seed visited and fetches nothing. *)
Example regional_rejects_foreign_seed :
  let st := PdfBfs.outcome_state
              (@RegionalEnhancedCrawler.crawl py_urllib Q
                 (table_web foreign_pages 1) regional_crawler
                 ["https://evil.test/"] ["x.test"] 5 30 0%Q) in
  RegionalEnhancedCrawler.fetched (RegionalEnhancedCrawler.log st) = [] /\
  "https://evil.test/" ∈ RegionalEnhancedCrawler.visited_urls st.
Proof. split; [vm_compute; reflexivity | now vm_compute]. Qed.

(** C5, failing run.  [test_single_payer] is called with
    [time_limit_minutes = 1] on a web where every page visit takes 100
    seconds.  The crawl visits four pages and returns after 400 seconds,
    i.e. 400/60 minutes; and whatever the time limit, the outcome is the
    same. *)
Theorem C5_time_limit_not_enforced :
  (exists w' r,
     @ComprehensivePDFDiscovery.test_single_payer py_urllib Q
       (table_web scenario_pages 100) comprehensive_crawler
       "x.test" (Some "https://x.test/") 1 10 0%Q
     = (w', ComprehensivePDFDiscovery.PayerDone r) /\
     ComprehensivePDFDiscovery.total_urls_visited
       (ComprehensivePDFDiscovery.bfs_result r) = 4 /\
     (ComprehensivePDFDiscovery.elapsed_time_minutes r == 400 # 60)%Q /\
     (inject_Z 1 < ComprehensivePDFDiscovery.elapsed_time_minutes r)%Q) /\
  (forall (L : UrlLib) (W : Type) (web : Web W)
          (self : ComprehensivePDFDiscovery.Crawler) (base_domain : string)
          (known_portal : option string) (t1 t2 : Z) (fuel : nat) (w : W),
     ComprehensivePDFDiscovery.test_single_payer self base_domain
       known_portal t1 fuel w
     = ComprehensivePDFDiscovery.test_single_payer self base_domain
         known_portal t2 fuel w).
Proof.
  split.
  - eexists. eexists. split; [vm_compute; reflexivity|].
    split; [reflexivity|]. split; [reflexivity|]. reflexivity.
  - reflexivity.
Qed.

(** In the same run, the loop of [discover_pdfs_bfs] hands four URLs to the
    browser; the clock stands at 100, 200 and 300 seconds when the second,
    third and fourth visit begin. *)
Example C5_run_fetches :
  let st := PdfBfs.outcome_state
              (@ComprehensivePDFDiscovery.crawl py_urllib Q
                 (table_web scenario_pages 100) comprehensive_crawler
                 ["https://x.test/"; "https://www.x.test/provider/";
                  "https://provider.x.test/"]
                 ["x.test"; "www.x.test"; "provider.x.test";
                  "providers.x.test"; "professional.x.test";
                  "portal.x.test"; "prov.x.test"] 10 0%Q) in
  PdfBfs.fetched (PdfBfs.log st)
  = ["https://x.test/"; "https://www.x.test/provider/";
     "https://provider.x.test/"; "https://x.test/tools/"] /\
  PdfBfs.world st = 400%Q.
Proof. vm_compute. split; reflexivity. Qed.

End ConcreteRuns.

(** ** The document classifier *)

Section ClassifierFacts.

Import UrlModel.

Lemma span_until_app (stop : ascii -> bool) (s : string) :
  s = fst (span_until stop s) +:+ snd (span_until stop s).
Proof.
  induction s as [|c s IH]; simpl; [reflexivity|].
  destruct (stop c); [reflexivity|].
  destruct (span_until stop s) as [a b]. simpl in *.
  rewrite app_cons. now f_equal.
Qed.

Lemma contains_refl (s : string) : contains s s = true.
Proof. apply contains_spec. exists "", "". now rewrite append_empty_r. Qed.

Lemma contains_tail (s : string) : contains (tail s) s = true.
Proof.
  destruct s as [|c s]; [reflexivity|]. simpl tail.
  apply contains_spec. exists (String c ""), "".
  now rewrite append_empty_r.
Qed.

Lemma contains_span_fst (stop : ascii -> bool) (s : string) :
  contains (fst (span_until stop s)) s = true.
Proof.
  apply contains_spec. exists "", (snd (span_until stop s)).
  apply span_until_app.
Qed.

Lemma contains_span_snd (stop : ascii -> bool) (s : string) :
  contains (snd (span_until stop s)) s = true.
Proof.
  apply contains_spec. exists (fst (span_until stop s)), "".
  rewrite append_empty_r. apply span_until_app.
Qed.

(** In the URL model, the path and the query are pieces of the URL. *)
Lemma urlsplit_path_query (url : string) :
  contains (path (urlsplit url)) url = true /\
  contains (query (urlsplit url)) url = true.
Proof.
  unfold urlsplit.
  pose proof (contains_span_snd (Ascii.eqb ":") url) as Hpost.
  destruct (span_until (Ascii.eqb ":") url) as [pre post]. simpl in Hpost.
  set (has_scheme := match pre, post with
                     | String c _, String _ _ =>
                         is_alpha c && all_chars is_scheme_char pre
                     | _, _ => false
                     end).
  set (url1 := if has_scheme then tail post else url).
  assert (H1 : contains url1 url = true).
  { unfold url1. destruct has_scheme; [|apply contains_refl].
    eapply contains_trans; [apply contains_tail | exact Hpost]. }
  clearbody url1.
  set (stop := fun c => existsb (Ascii.eqb c) ["/"%char; "?"%char; "#"%char]).
  assert (H2 : contains
                 (snd (if startswith "//" url1
                       then span_until stop (tail (tail url1))
                       else ("", url1))) url = true).
  { destruct (startswith "//" url1); simpl; [|exact H1].
    eapply contains_trans; [apply contains_span_snd|].
    eapply contains_trans; [apply contains_tail|].
    eapply contains_trans; [apply contains_tail | exact H1]. }
  destruct (if startswith "//" url1
            then span_until stop (tail (tail url1))
            else ("", url1)) as [nl url2]. simpl in H2.
  pose proof (contains_span_fst (Ascii.eqb "#") url2) as H3.
  destruct (span_until (Ascii.eqb "#") url2) as [url3 frag]. simpl in H3.
  pose proof (contains_span_fst (Ascii.eqb "?") url3) as H4.
  pose proof (contains_span_snd (Ascii.eqb "?") url3) as H5.
  destruct (span_until (Ascii.eqb "?") url3) as [pth qry]. simpl in *.
  assert (H6 : contains url3 url = true)
    by (eapply contains_trans; eassumption).
  split.
  - eapply contains_trans; eassumption.
  - eapply contains_trans; [apply contains_tail|].
    eapply contains_trans; eassumption.
Qed.

Lemma contains_lower (a b : string) :
  contains a b = true -> contains (lower a) (lower b) = true.
Proof.
  rewrite !contains_spec. intros [pre [suf ->]].
  exists (lower pre), (lower suf). now rewrite !lower_app.
Qed.

(** C6, counterexample.  For [https://www.pdf.example.com/index] the
    classifier answers true, although neither the path [/index] nor the
    (empty) query contains [".pdf"]: the match is in the host name. *)
Lemma C6_counterexample :
  ~ (ComprehensivePDFDiscovery.is_pdf_url "https://www.pdf.example.com/index"
     = true <->
     Spec.is_document "https://www.pdf.example.com/index" = true).
Proof. intros [Hif _]. specialize (Hif eq_refl). discriminate Hif. Qed.

(** C6, amended.  [is_pdf_url(u)] is true exactly when [".pdf"] occurs,
    ignoring case, anywhere in the URL string [u] (host name and fragment
    included); in particular it is true whenever [".pdf"] occurs in the
    path or in the query string. *)
Theorem C6_is_pdf_url_amended (url : string) :
  (ComprehensivePDFDiscovery.is_pdf_url url = true <->
   exists pre suf, lower url = pre +:+ ".pdf" +:+ suf) /\
  (Spec.is_document url = true ->
   ComprehensivePDFDiscovery.is_pdf_url url = true).
Proof.
  assert (Hiff : ComprehensivePDFDiscovery.is_pdf_url url = true <->
                 contains ".pdf" (lower url) = true).
  { unfold ComprehensivePDFDiscovery.is_pdf_url, PdfBfs.is_pdf_url.
    rewrite orb_true_iff. split; [|now right].
    intros [He | Hc]; [now apply endswith_contains | exact Hc]. }
  split.
  - rewrite Hiff. apply contains_spec.
  - unfold Spec.is_document. rewrite orb_true_iff, Hiff.
    destruct (urlsplit_path_query url) as [Hp Hq].
    intros [Hin | Hin]; (eapply contains_trans; [exact Hin|]);
      now apply contains_lower.
Qed.

Lemma C6_witness :
  ComprehensivePDFDiscovery.is_pdf_url "https://x.test/get?file=Manual.PDF"
  = true.
Proof.
  apply (proj2 (C6_is_pdf_url_amended "https://x.test/get?file=Manual.PDF")).
  reflexivity.
Defined.

(** The inline test of the regional crawler
    (regional_enhanced_crawler.py:283) is the same expression. *)
Lemma regional_pdf_test_same (url : string) :
  (endswith ".pdf" (lower url) || contains ".pdf" (lower url))
  = ComprehensivePDFDiscovery.is_pdf_url url.
Proof. reflexivity. Qed.

Lemma is_relevant_link_false (keywords : list string) (text href : string) :
  PdfBfs.is_relevant_link keywords text href = false <->
  forall k, In k keywords ->
    ~ exists pre suf, lower text +:+ " " +:+ lower href = pre +:+ k +:+ suf.
Proof.
  unfold PdfBfs.is_relevant_link. split.
  - intros Hf k Hk Hsub. apply contains_spec in Hsub.
    assert (any_in keywords (lower text +:+ " " +:+ lower href) = true)
      by (apply any_in_spec; eauto).
    congruence.
  - intros Hno. destruct (any_in _ _) eqn:Ha; [|reflexivity].
    apply any_in_spec in Ha as [k [Hk Hc]]. apply contains_spec in Hc.
    now destruct (Hno k Hk).
Qed.

(** C7, counterexample.  On the page [https://x.test/] the link with
    anchor text "Tools" and href [/tools/] is no document and matches none
    of the fourteen keywords of the specification, whether its href or its
    resolved URL is taken; after the first round of
    [ComprehensivePDFDiscovery.discover_pdfs_bfs] it is in the queue. *)
Lemma C7_counterexample :
  let st := PdfBfs.outcome_state
              (@ComprehensivePDFDiscovery.crawl py_urllib Q
                 (table_web Examples.scenario_pages 1)
                 Examples.comprehensive_crawler
                 ["https://x.test/"] ["x.test"] 1 0%Q) in
  ~ (Spec.topical_score "Tools" "https://x.test/tools/" = 0 ->
     Spec.topical_score "Tools" "/tools/" = 0 ->
     ComprehensivePDFDiscovery.is_pdf_url "https://x.test/tools/" = false ->
     ~ In ("https://x.test/tools/", 1%Z) (PdfBfs.queue st)).
Proof.
  intros st Hnever.
  apply (Hnever eq_refl eq_refl eq_refl).
  vm_compute. auto.
Qed.

(** C7, amended.  The keyword list is the crawler's own:
    [SimpleBFSCrawler] uses the fourteen keywords of the specification,
    [ComprehensivePDFDiscovery] uses these and four more (documents,
    resources, tools, materials).  A link for which no keyword of the
    crawler's list occurs in the lower-cased anchor text, a space, and the
    lower-cased raw [href] attribute is not enqueued, document or not. *)
Theorem C7_irrelevant_link_not_enqueued_amended `{UrlLib} {W : Type}
    (cfg : PdfBfs.Config) (allowed_domains : list string)
    (current_url : string) (depth : Z) (href text absolute_url : string)
    (st : PdfBfs.State W) :
  (forall k, In k (PdfBfs.relevant_keywords cfg) ->
     ~ exists pre suf, lower text +:+ " " +:+ lower href = pre +:+ k +:+ suf) ->
  PdfBfs.queue
    (PdfBfs.process_link cfg allowed_domains current_url depth href text
       absolute_url st)
  = PdfBfs.queue st /\
  ComprehensivePDFDiscovery.relevant_keywords
  = Spec.keywords ++ ["documents"; "resources"; "tools"; "materials"] /\
  SimpleBFSCrawler.relevant_keywords = Spec.keywords.
Proof.
  intros Hno. split; [|split; reflexivity].
  apply is_relevant_link_false in Hno.
  unfold PdfBfs.process_link. rewrite Hno.
  destruct (negb (PdfBfs.domain_allowed allowed_domains absolute_url));
    [reflexivity|].
  simpl. now destruct (PdfBfs.is_pdf_url absolute_url).
Qed.

Lemma C7_witness :
  PdfBfs.queue
    (@PdfBfs.process_link py_urllib Q
       (ComprehensivePDFDiscovery.config Examples.comprehensive_crawler)
       ["x.test"] "https://x.test/" 0 "/other/" "click here"
       "https://x.test/other/"
       (PdfBfs.initial_state ∅ ["https://x.test/"] 0%Q))
  = [("https://x.test/", 0%Z)].
Proof.
  refine (proj1 (@C7_irrelevant_link_not_enqueued_amended py_urllib Q
    (ComprehensivePDFDiscovery.config Examples.comprehensive_crawler)
    ["x.test"] "https://x.test/" 0 "/other/" "click here"
    "https://x.test/other/"
    (PdfBfs.initial_state ∅ ["https://x.test/"] 0%Q) _)).
  apply is_relevant_link_false. reflexivity.
Defined.

End ClassifierFacts.

(** ** The regional classifier and the regional frontier *)

Section RegionalClassifierFacts.

Import RegionalEnhancedCrawler.

Lemma elem_of_foldl_cond {A : Type} (g : gset string -> A -> gset string)
    (c : A -> bool) (f : A -> string) (l : list A) (init : gset string)
    (x : string) :
  (forall acc y, g acc y = if c y then {[f y]} ∪ acc else acc) ->
  x ∈ foldl g init l <->
  x ∈ init \/ exists y, In y l /\ c y = true /\ f y = x.
Proof.
  intros Hg. revert init. induction l as [|y l IH]; intros init; simpl.
  - split; [now left | intros [? | (y & [] & _)]; assumption].
  - rewrite IH, Hg. split.
    + intros [Hin | (z & Hz & Hc & Hf)].
      * destruct (c y) eqn:Hc; [|now left].
        apply elem_of_union in Hin as [Hin | Hin]; [|now left].
        apply elem_of_singleton in Hin. right. exists y. auto.
      * right. exists z. auto.
    + intros [Hin | (z & [-> | Hz] & Hc & Hf)].
      * left. destruct (c y); [|assumption]. apply elem_of_union. now right.
      * left. rewrite Hc. apply elem_of_union. left.
        now apply elem_of_singleton.
      * right. exists z. auto.
Qed.

Lemma app_inj_l (p a b : string) : p +:+ a = p +:+ b -> a = b.
Proof.
  induction p as [|c p IH]; [now rewrite !app_nil|].
  rewrite !app_cons. intros [= Heq]. now apply IH.
Qed.

(** The codes of [us_states] are keys: a code has one name. *)
Lemma us_states_name (code name : string) :
  In (code, name) us_states -> state_name_of code = name.
Proof.
  intros Hin. simpl in Hin.
  repeat (destruct Hin as [Hin | Hin];
          [injection Hin as <- <-; reflexivity|]).
  contradiction.
Qed.

(** The second URL test of "State code detection in URL" compares the
    upper-case code with the lower-cased URL, so it never fires. *)
Lemma upper_code_test_dead (code name url : string) :
  In (code, name) us_states ->
  contains (code +:+ "_") (lower url) = false.
Proof.
  intros Hin. destruct (contains (code +:+ "_") (lower url)) eqn:E;
    [|reflexivity].
  exfalso. simpl in Hin.
  repeat (destruct Hin as [Hin | Hin];
          [injection Hin as <- <-;
           apply contains_lower_head in E; discriminate E|]).
  contradiction.
Qed.

(** When a state tag is in the result of [detect_regional_indicators]. *)
Lemma state_tag_iff (url text code name : string) :
  In (code, name) us_states ->
  "state_" +:+ code ∈ detect_regional_indicators url text <->
  contains ("/" +:+ lower code +:+ "/") (lower url)
  || contains (code +:+ "_") (lower url) = true \/
  contains (lower name) (lower text) = true.
Proof.
  intros Hin. unfold detect_regional_indicators.
  rewrite (elem_of_foldl_cond _
             (fun p => contains (lower (snd p)) (lower text))
             (fun p => "state_" +:+ fst p))
    by (intros acc [c n]; reflexivity).
  rewrite (elem_of_foldl_cond _
             (fun keyword => contains keyword (lower text))
             (fun keyword => "keyword_" +:+ replace " " "_" keyword))
    by reflexivity.
  rewrite (elem_of_foldl_cond _
             (fun p => contains ("/" +:+ lower (fst p) +:+ "/") (lower url)
                       || contains (fst p +:+ "_") (lower url))
             (fun p => "state_" +:+ fst p))
    by (intros acc [c n]; reflexivity).
  rewrite (elem_of_foldl_cond _
             (fun pattern => Re.search pattern (lower url))
             (fun _ => "regional_url_pattern"))
    by reflexivity.
  split.
  - intros [[[[Hempty | (p & _ & _ & Hf)] | ([c n] & Hp & Hc & Hf)]
             | (k & _ & _ & Hf)] | ([c n] & Hp & Hc & Hf)].
    + now apply elem_of_empty in Hempty.
    + discriminate Hf.
    + simpl in Hc, Hf. apply app_inj_l in Hf as ->. now left.
    + discriminate Hf.
    + simpl in Hc, Hf. apply app_inj_l in Hf as ->. right.
      apply us_states_name in Hp, Hin. now rewrite <- Hin, Hp.
  - intros [Hurl | Hname].
    + left. left. right. exists (code, name). auto.
    + right. exists (code, name). auto.
Qed.

(** C9, counterexample.  For the text "remained" (one word, which
    contains "maine") and the URL [https://x.test/], neither the name
    "maine" nor the code "me" occurs as a whole token in the text or in the
    URL; the tag of Maine is in the result all the same. *)
Lemma C9_counterexample :
  ~ ("state_ME" ∈ detect_regional_indicators "https://x.test/" "remained" ->
     Spec.occurs_as_token "maine" (lower "remained") = true \/
     Spec.occurs_as_token "me" (lower "remained") = true \/
     Spec.occurs_as_token "maine" (lower "https://x.test/") = true \/
     Spec.occurs_as_token "me" (lower "https://x.test/") = true).
Proof.
  intros Hwhole.
  assert (Htag : "state_ME"
                 ∈ detect_regional_indicators "https://x.test/" "remained").
  { apply (state_tag_iff _ _ "ME" "Maine").
    - simpl. do 18 right. now left.
    - right. reflexivity. }
  destruct (Hwhole Htag) as [Hc | [Hc | [Hc | Hc]]]; discriminate Hc.
Qed.

(** C9, amended.  For a URL and a text of ASCII characters, and for each
    of the 51 entries (code, name) of [us_states]: the tag of the state is
    contributed when the lower-cased name occurs anywhere in the lower-cased
    text, as a substring and also inside a longer word, or when the
    lower-cased code occurs in the lower-cased URL between two slashes; and
    it is contributed only when one of these holds or the code, followed by
    an underscore, occurs in the URL.  (Outside ASCII [str.lower] maps more
    characters to letters than the model does, so more texts contain a
    name.) *)
Theorem C9_state_tags_amended (url text code name : string) :
  Wellformed.is_ascii url = true ->
  Wellformed.is_ascii text = true ->
  In (code, name) us_states ->
  (contains (lower name) (lower text) = true \/
   contains ("/" +:+ lower code +:+ "/") (lower url) = true ->
   "state_" +:+ code ∈ detect_regional_indicators url text) /\
  ("state_" +:+ code ∈ detect_regional_indicators url text ->
   contains (lower name) (lower text) = true \/
   contains ("/" +:+ lower code +:+ "/") (lower url) = true \/
   contains (lower code +:+ "_") (lower url) = true).
Proof.
  intros _ _ Hin. rewrite (state_tag_iff url text code name Hin).
  rewrite (upper_code_test_dead code name url Hin), orb_false_r.
  split; intros [? | ?]; auto.
Qed.

Lemma C9_witness :
  "state_OH" ∈ detect_regional_indicators
                 "https://providers.anthem.com/docs/gpp/OH_CAID_ProviderManual.pdf"
                 "Ohio Medicaid Provider Manual".
Proof.
  refine (proj1 (C9_state_tags_amended
    "https://providers.anthem.com/docs/gpp/OH_CAID_ProviderManual.pdf"
    "Ohio Medicaid Provider Manual" "OH" "Ohio" _ _ _) _).
  - reflexivity.
  - reflexivity.
  - simpl. do 34 right. left. reflexivity.
  - left. reflexivity.
Defined.

(** With the anchor text of the specification's scenario, where only the
    code appears, the URL [.../OH_CAID_ProviderManual.pdf] yields no tag. *)
Example code_with_underscore_not_detected :
  "state_OH" ∉ detect_regional_indicators
                 "https://providers.anthem.com/docs/gpp/OH_CAID_ProviderManual.pdf"
                 "OH Provider Manual".
Proof.
  rewrite (state_tag_iff _ _ "OH" "Ohio") by (simpl; do 34 right; now left).
  intros [Hc | Hc]; discriminate Hc.
Qed.

(** [_extract_geographic_zones] matches its state patterns anywhere as
    well: in "Provider manual" it finds the codes ID, MA and AL. *)
Example geographic_zones_inside_words :
  map PayerPortalCrawler.zone_value
    (PayerPortalCrawler._extract_geographic_zones "Provider manual")
  = ["ID"; "MA"; "AL"].
Proof. vm_compute. reflexivity. Qed.

Example geographic_zones_regions :
  map PayerPortalCrawler.zone_value
    (PayerPortalCrawler._extract_geographic_zones
       "West Virginia Region 12 service  area zone b2")
  = ["WEST VIRGINIA"; "IN"; "IA"; "AR"; "NE";
     "region 12"; "zone b2"; "area zone"; "service  area"].
Proof. vm_compute. reflexivity. Qed.

End RegionalClassifierFacts.

Section RegionalFrontierFacts.

Import RegionalEnhancedCrawler.

Context `{UrlLib} `{Web W}.

Lemma regional_fuel0_queue (self_max_depth : Z)
    (allowed_domains : list string) (start_time : Q) (max_time_seconds : Z)
    (st : State W) :
  let st' := PdfBfs.outcome_state
               (bfs_loop self_max_depth allowed_domains start_time
                  max_time_seconds 0 st) in
  queue st' = queue st /\ log st' = log st.
Proof.
  simpl.
  destruct (regional_loop_condition_state start_time max_time_seconds st)
    as [w' Hw].
  destruct (loop_condition start_time max_time_seconds st) as [st1 c].
  simpl in Hw. subst st1. now destruct c.
Qed.



(** [discover_regional_content_bfs] returns: some finite number of rounds
    lets the loop leave. *)
Lemma regional_discover_returns (self : Crawler)
    (starting_urls allowed_domains : list string) (max_time_minutes : Z)
    (w : W) :
  exists fuel r,
    discover_regional_content_bfs self starting_urls allowed_domains
      max_time_minutes fuel w = Some r.
Proof.
  unfold discover_regional_content_bfs.
  destruct (time_time w) as [w0 start_time].
  destruct (regional_bfs_loop_terminates (max_depth self) allowed_domains
              start_time (max_time_minutes * 60)%Z
              (initial_state self starting_urls w0)) as (fuel & st' & Hrun).
  exists fuel. rewrite Hrun.
  destruct (time_time (world st')) as [w1 t]. eauto.
Qed.

End RegionalFrontierFacts.


Section RegionalCompleteness.

Import RegionalEnhancedCrawler UrlModel Examples.

(** The ratio is the number of covered states over 50. *)
Lemma completeness_over_50 (state_coverage : gset string) :
  (completeness state_coverage
   == inject_Z (Z.of_nat (size state_coverage)) / 50)%Q.
Proof.
  unfold completeness. case_bool_decide as He; [|reflexivity].
  rewrite He, size_empty. reflexivity.
Qed.

(** With all 51 entries of [us_states] covered the ratio is 51/50. *)
Example completeness_exceeds_one :
  (1 < completeness (list_to_set (map fst us_states)))%Q.
Proof. vm_compute. reflexivity. Qed.

(** C8, failing run.  A crawl of one page whose text names Ohio covers one
    state; the [regional_completeness] of the result is 1/50, not 1/51. *)
Theorem C8_completeness_divides_by_50 :
  exists w' r,
    @discover_regional_content_bfs py_urllib Q (table_web ohio_pages 1)
      regional_crawler ["https://x.test/"] ["x.test"] 5 30 0%Q
    = Some (w', r) /\
    res_state_coverage r = ["OH"] /\
    states_covered_count r = 1 /\
    (regional_completeness r == 1 # 50)%Q /\
    ~ (regional_completeness r == 1 # 51)%Q.
Proof.
  eexists. eexists. split; [vm_compute; reflexivity|].
  split; [reflexivity|]. split; [reflexivity|]. split; [reflexivity|].
  intros Heq. discriminate Heq.
Qed.

End RegionalCompleteness.

(** ** More on the shared BFS loop *)

Section PdfBfsMore.

Import PdfBfs.

Context `{UrlLib} `{Web W}.
Variable cfg : Config.
Variable allowed_domains : list string.

Local Abbreviation extends := (LoopSpec.extends cfg allowed_domains).
Local Abbreviation records := (CrawlSpec.records cfg allowed_domains).
Local Abbreviation explored_depths := CrawlSpec.explored_depths.

(** A property kept by every round that the loop condition lets start is
    kept by the loop. *)
Lemma bfs_loop_invariant_cond (P : State W -> Prop) :
  (forall st, P st -> loop_condition cfg st = true ->
              P (iteration cfg allowed_domains st)) ->
  forall fuel st, P st ->
    P (outcome_state (bfs_loop cfg allowed_domains fuel st)).
Proof.
  intros Hstep fuel. induction fuel as [|fuel IH]; intros st Hst; simpl.
  - now destruct (loop_condition cfg st).
  - destruct (loop_condition cfg st) eqn:Hc; [|exact Hst].
    apply IH. now apply Hstep.
Qed.

Lemma loop_condition_true (st : State W) :
  loop_condition cfg st = true ->
  queue st <> [] /\
  (Z.of_nat (size (visited_urls st)) < max_urls cfg)%Z.
Proof.
  unfold loop_condition. destruct (queue st); [discriminate|].
  intros Hc. apply Z.ltb_lt in Hc. now split.
Qed.

Lemma loop_condition_false (st : State W) :
  loop_condition cfg st = false ->
  queue st = [] \/
  (max_urls cfg <= Z.of_nat (size (visited_urls st)))%Z.
Proof.
  unfold loop_condition. destruct (queue st); [now left|].
  intros Hc. apply Z.ltb_ge in Hc. now right.
Qed.

Lemma iteration_budget (V0 : gset string) (st : State W) :
  CrawlSpec.budget_invariant cfg V0 st ->
  loop_condition cfg st = true ->
  CrawlSpec.budget_invariant cfg V0 (iteration cfg allowed_domains st).
Proof.
  intros [Hcount Hbound] Hc.
  apply loop_condition_true in Hc as [Hne Hlt].
  destruct (queue st) as [|[current_url depth] rest] eqn:Hq; [congruence|].
  destruct (iteration_cases cfg allowed_domains st current_url depth rest Hq)
    as [[-> _] | (Hnv & _ & Hext)].
  - now split.
  - assert (Hsize : size (visited_urls (iteration cfg allowed_domains st))
                    = S (size (visited_urls st))).
    { rewrite (LoopSpec.ext_visited _ _ _ _ _ Hext). simpl.
      rewrite size_union by (apply disjoint_singleton_l; exact Hnv).
      now rewrite size_singleton. }
    split.
    + rewrite Hsize, (extends_fetched _ _ _ _ _ Hext). simpl.
      rewrite fetched_cons_exploring, length_app. simpl. lia.
    + rewrite Hsize. lia.
Qed.

Lemma explored_depths_cons_exploring (d : Z) (u : string) (l : list Event) :
  explored_depths (Exploring d u :: l) = explored_depths l ++ [d].
Proof. unfold CrawlSpec.explored_depths. simpl. now rewrite reverse_cons. Qed.

Lemma explored_depths_extends (depth : Z) (st st' : State W) :
  extends depth st st' -> explored_depths (log st') = explored_depths (log st).
Proof.
  intros [_ _ _ [l [L G]] _]. rewrite L. clear L.
  induction G as [|e l He _ IH]; [reflexivity|].
  simpl. destruct He as [[u ->] | [u ->]]; exact IH.
Qed.

Lemma elem_of_explored_depths (d : Z) (l : list Event) :
  d ∈ explored_depths l <-> exists u, Exploring d u ∈ l.
Proof.
  unfold CrawlSpec.explored_depths.
  rewrite elem_of_reverse, list_elem_of_omap. split.
  - intros [e [He Hd]]. destruct e; try discriminate.
    injection Hd as ->. eauto.
  - intros [u Hu]. exists (Exploring d u). auto.
Qed.

Lemma iteration_order (st : State W) :
  CrawlSpec.order_invariant st ->
  CrawlSpec.order_invariant (iteration cfg allowed_domains st).
Proof.
  intros [Oq Os Ol Olq].
  destruct (queue st) as [|[current_url depth] rest] eqn:Hq.
  { unfold iteration. rewrite Hq. split; try assumption; now rewrite Hq. }
  apply StronglySorted_cons in Oq as [Hhead Hrest].
  rewrite Forall_forall in Hhead.
  assert (Hin : (current_url, depth) ∈ (current_url, depth) :: rest) by left.
  destruct (iteration_cases cfg allowed_domains st current_url depth rest Hq)
    as [[-> _] | (_ & _ & Hext)].
  - split; simpl.
    + exact Hrest.
    + intros e1 e2 H1 H2. apply Os; now right.
    + exact Ol.
    + intros d e Hd He. apply Olq; [exact Hd | now right].
  - destruct (LoopSpec.ext_queue _ _ _ _ _ Hext) as [new [Qeq Fnew]].
    simpl in Qeq. rewrite Forall_forall in Fnew.
    assert (Hrest_ge : forall e, e ∈ rest -> (depth <= snd e)%Z).
    { intros e He. exact (Hhead e He). }
    assert (Hrest_le : forall e, e ∈ rest -> (snd e <= depth + 1)%Z).
    { intros e He. apply (Os (current_url, depth) e); [left | now right]. }
    assert (Hnew : forall e, e ∈ new -> snd e = (depth + 1)%Z).
    { intros e He. now destruct (Fnew e He). }
    split.
    + rewrite Qeq. apply StronglySorted_app_2; [|exact Hrest|].
      * intros e1 e2 H1 H2. unfold CrawlSpec.depth_le.
        rewrite (Hnew e2 H2). now apply Hrest_le.
      * clear -Hnew. induction new as [|e new IH]; [constructor|].
        apply StronglySorted_cons. split.
        -- apply Forall_forall. intros e' He'. unfold CrawlSpec.depth_le.
           rewrite (Hnew e) by left. rewrite (Hnew e') by (now right). lia.
        -- apply IH. intros e' He'. apply Hnew. now right.
    + intros e1 e2. rewrite Qeq, !elem_of_app.
      intros [H1 | H1] [H2 | H2].
      * apply Os; now right.
      * rewrite (Hnew e2 H2). specialize (Hrest_ge e1 H1). lia.
      * rewrite (Hnew e1 H1). specialize (Hrest_le e2 H2). lia.
      * rewrite (Hnew e1 H1), (Hnew e2 H2). lia.
    + rewrite (explored_depths_extends _ _ _ Hext). simpl.
      rewrite explored_depths_cons_exploring.
      apply StronglySorted_app_2; [|exact Ol|repeat constructor].
      intros d1 d2 Hd1 Hd2. apply list_elem_of_singleton in Hd2 as ->.
      apply (Olq d1 (current_url, depth) Hd1). left.
    + intros d e. rewrite (explored_depths_extends _ _ _ Hext). simpl.
      rewrite explored_depths_cons_exploring, Qeq, !elem_of_app.
      intros [Hd | Hd] [He | He].
      * apply Olq; [exact Hd | now right].
      * rewrite (Hnew e He).
        pose proof (Olq d (current_url, depth) Hd Hin) as Hle. simpl in Hle.
        lia.
      * apply list_elem_of_singleton in Hd as ->. now apply Hrest_ge.
      * apply list_elem_of_singleton in Hd as ->. rewrite (Hnew e He). lia.
Qed.

Lemma initial_order (V0 : gset string) (start_urls : list string) (w : W) :
  CrawlSpec.order_invariant (initial_state V0 start_urls w).
Proof.
  assert (Hall : forall e, e ∈ map (fun url => (url, 0%Z)) start_urls ->
                           snd e = 0%Z).
  { intros e He. apply list_elem_of_fmap in He as [x [-> _]]. reflexivity. }
  split; simpl.
  - induction start_urls as [|x l IH]; [constructor|].
    simpl. apply StronglySorted_cons. split.
    + apply Forall_forall. intros e He. unfold CrawlSpec.depth_le. simpl.
      apply list_elem_of_fmap in He as [y [-> _]]. simpl. lia.
    + apply IH. intros e He. apply Hall. now right.
  - intros e1 e2 H1 H2. rewrite (Hall e1 H1), (Hall e2 H2). lia.
  - constructor.
  - intros d e Hd. inversion Hd.
Qed.

End PdfBfsMore.

Section PdfBfsRecords.

Import PdfBfs.

Context `{UrlLib} `{Web W}.
Variable cfg : Config.
Variable allowed_domains : list string.

Local Abbreviation records := (CrawlSpec.records cfg allowed_domains).
Local Abbreviation leaf_invariant := (CrawlSpec.leaf_invariant cfg allowed_domains).

Lemma records_refl (current_url : string) (depth : Z) (st : State W) :
  records current_url depth st st.
Proof. split; intros; now left. Qed.

Lemma records_trans (current_url : string) (depth : Z) (a b c : State W) :
  records current_url depth a b -> records current_url depth b c ->
  records current_url depth a c.
Proof.
  intros [P1 L1] [P2 L2]. split.
  - intros u Hu. destruct (P2 u Hu) as [Hb | Hb]; [|now right]. now apply P1.
  - intros r Hr. destruct (L2 r Hr) as [Hb | Hb]; [|now right]. now apply L1.
Qed.

Lemma process_link_records (current_url : string) (depth : Z)
    (href text absolute_url : string) (st : State W) :
  urljoin current_url href = Some absolute_url ->
  records current_url depth st
    (process_link cfg allowed_domains current_url depth href text absolute_url st).
Proof.
  intros Hjoin. unfold process_link.
  destruct (domain_allowed allowed_domains absolute_url) eqn:Hd; simpl;
    [|apply records_refl].
  destruct (is_relevant_link (relevant_keywords cfg) text href) eqn:Hrel.
  - assert (Hlinks : forall r,
              r ∈ all_links_found st
                  ++ [{| link_url := absolute_url; link_text := text;
                         link_depth := depth; link_parent := current_url |}] ->
              r ∈ all_links_found st \/
              (link_parent r = current_url /\ link_depth r = depth /\
               domain_allowed allowed_domains (link_url r) = true /\
               exists href0, urljoin current_url href0 = Some (link_url r) /\
                 is_relevant_link (relevant_keywords cfg) (link_text r) href0
                 = true)).
    { intros r Hr. apply elem_of_app in Hr as [Hr | Hr]; [now left|].
      apply list_elem_of_singleton in Hr as ->. right. simpl.
      repeat split; try assumption. now exists href. }
    destruct (is_pdf_url absolute_url) eqn:Hpdf.
    + split; simpl.
      * intros u Hu. apply elem_of_union in Hu as [Hu | Hu]; [|now left].
        apply elem_of_singleton in Hu as ->. now right.
      * exact Hlinks.
    + destruct (_ && _); split; simpl; try (intros u Hu; now left);
        exact Hlinks.
  - destruct (is_pdf_url absolute_url) eqn:Hpdf; simpl.
    + split; simpl.
      * intros u Hu. apply elem_of_union in Hu as [Hu | Hu]; [|now left].
        apply elem_of_singleton in Hu as ->. now right.
      * intros r Hr. now left.
    + apply records_refl.
Qed.

Lemma process_links_records (current_url : string) (depth : Z)
    (links : list (string * string)) (st : State W) :
  records current_url depth st
    (process_links cfg allowed_domains current_url depth links st).
Proof.
  revert st. induction links as [|[href text] rest IH]; intros st; simpl.
  - apply records_refl.
  - destruct (urljoin current_url href) as [absolute_url|] eqn:Hjoin.
    + eapply records_trans; [|apply IH].
      exact (process_link_records current_url depth href text absolute_url
               st Hjoin).
    + split; simpl; intros; now left.
Qed.

Lemma iteration_records (st : State W) (current_url : string) (depth : Z)
    (rest : list (string * Z)) :
  queue st = (current_url, depth) :: rest ->
  records current_url depth st (iteration cfg allowed_domains st).
Proof.
  intros Hq. unfold iteration. rewrite Hq.
  destruct (_ || _); [split; simpl; intros; now left|].
  simpl. destruct (driver_get (world st) current_url) as [w' r].
  destruct r as [|page_text links].
  - split; simpl; intros; now left.
  - eapply records_trans; [|apply process_links_records].
    split; simpl; intros; now left.
Qed.

Lemma iteration_leaf (st : State W) :
  leaf_invariant st -> leaf_invariant (iteration cfg allowed_domains st).
Proof.
  intros [Lq Ll Lp Lk].
  destruct (queue st) as [|[current_url depth] rest] eqn:Hq.
  { unfold iteration. rewrite Hq. split; try assumption; now rewrite Hq. }
  pose proof (iteration_records st current_url depth rest Hq) as [Rp Rl].
  destruct (iteration_cases cfg allowed_domains st current_url depth rest Hq)
    as [[Heq _] | (_ & _ & Hext)].
  - rewrite Heq in *. split; simpl; try assumption.
    intros u d Hin. apply Lq. now right.
  - destruct (LoopSpec.ext_queue _ _ _ _ _ Hext) as [newq [Qeq Fq]].
    destruct (LoopSpec.ext_log _ _ _ _ _ Hext) as [newl [Leq Fl]].
    simpl in Qeq, Leq. rewrite Forall_forall in Fq. rewrite Forall_forall in Fl.
    assert (Hold : forall e, e ∈ log st ->
                             e ∈ log (iteration cfg allowed_domains st)).
    { intros e He. rewrite Leq. apply elem_of_app. right. now right. }
    split.
    + intros u d. rewrite Qeq, elem_of_app. intros [Hin | Hin].
      * apply Lq. now right.
      * right. destruct (Fq _ Hin) as (_ & _ & _ & Hpdf & _). exact Hpdf.
    + intros d u. rewrite Leq, elem_of_app. intros [Hin | Hin].
      * destruct (Fl _ Hin) as [[x Hx] | [x Hx]]; discriminate.
      * apply elem_of_cons in Hin as [Heq | Hin]; [|now apply Ll].
        injection Heq as -> ->. apply Lq. left.
    + intros u Hu. destruct (Rp u Hu) as [Hp | Hp]; [now apply Lp | exact Hp].
    + intros r Hr. destruct (Rl r Hr) as [Hp | (Hpar & Hdep & Hdom & Hhref)].
      * destruct (Lk r Hp) as (He & Hrest). split; [now apply Hold | exact Hrest].
      * split; [|split; [exact Hdom | now rewrite Hpar]].
        rewrite Hpar, Hdep, Leq. apply elem_of_app. right. left.
Qed.

Lemma initial_leaf (V0 : gset string) (start_urls : list string) (w : W) :
  leaf_invariant (initial_state V0 start_urls w).
Proof.
  split; simpl.
  - intros u d Hin. apply list_elem_of_fmap in Hin as [x [Hx _]].
    injection Hx as -> ->. now left.
  - intros d u Hu. inversion Hu.
  - intros u Hu. now apply elem_of_empty in Hu.
  - intros r Hr. inversion Hr.
Qed.

(** A browser that never loads a page. *)
Hypothesis never_loads : forall (w : W) (u : string),
  snd (driver_get w u) = FetchError.

Lemma iteration_failing (seeds : list string) (st : State W) :
  CrawlSpec.failing_invariant seeds st ->
  CrawlSpec.failing_invariant seeds (iteration cfg allowed_domains st).
Proof.
  intros [Fq Fg Fp Fl]. unfold iteration.
  destruct (queue st) as [|[current_url depth] rest] eqn:Hq.
  { split; try assumption. now rewrite Hq. }
  assert (Hrest : forall u d, (u, d) ∈ rest -> d = 0%Z /\ u ∈ seeds).
  { intros u d Hin. apply Fq. now right. }
  assert (Hhead : current_url ∈ seeds).
  { apply (Fq current_url depth). left. }
  destruct (_ || _); [now split|]. simpl.
  pose proof (never_loads (world st) current_url) as Hf.
  destruct (driver_get (world st) current_url) as [w' r]. simpl in Hf.
  subst r. split; simpl; try assumption.
  intros d u Hin. apply elem_of_cons in Hin as [Heq | Hin]; [discriminate|].
  apply elem_of_cons in Hin as [Heq | Hin]; [|now apply (Fg d u)].
  now injection Heq as -> ->.
Qed.

End PdfBfsRecords.

(** ** What a round records, and the crawl in which no page loads *)

Section PdfBfsRecording.

Import PdfBfs.

Context `{UrlLib} `{Web W}.
Variable cfg : Config.
Variable allowed_domains : list string.

Local Ltac by_elements :=
  apply set_eq; intros ?;
  rewrite ?elem_of_union, ?elem_of_singleton; intuition (subst; auto).

Lemma process_link_pdfs_mono (current_url : string) (depth : Z)
    (href text absolute_url u : string) (st : State W) :
  u ∈ pdfs_found st ->
  u ∈ pdfs_found (process_link cfg allowed_domains current_url depth href
                    text absolute_url st).
Proof.
  intros Hu. unfold process_link.
  destruct (negb _); [exact Hu|]. cbv zeta.
  destruct (is_relevant_link _ text href);
    destruct (is_pdf_url absolute_url); simpl;
    try (apply elem_of_union; now right);
    try (destruct (_ && _); exact Hu); exact Hu.
Qed.

Lemma process_link_records_pdf (current_url : string) (depth : Z)
    (href text absolute_url : string) (st : State W) :
  domain_allowed allowed_domains absolute_url = true ->
  is_pdf_url absolute_url = true ->
  absolute_url
  ∈ pdfs_found (process_link cfg allowed_domains current_url depth href
                  text absolute_url st).
Proof.
  intros Hd Hp. unfold process_link. rewrite Hd. cbn [negb]. cbv zeta.
  rewrite Hp. destruct (is_relevant_link _ text href); simpl;
    apply elem_of_union; left; now apply elem_of_singleton.
Qed.

Lemma process_links_pdfs_mono (current_url : string) (depth : Z)
    (links : list (string * string)) (u : string) :
  forall st : State W,
    u ∈ pdfs_found st ->
    u ∈ pdfs_found (process_links cfg allowed_domains current_url depth
                      links st).
Proof.
  induction links as [|[href text] rest IH]; intros st Hu; simpl.
  - exact Hu.
  - destruct (urljoin current_url href) as [absolute_url|]; [|exact Hu].
    apply IH. now apply process_link_pdfs_mono.
Qed.

(** A link that [is_pdf_url] accepts is recorded, unless [urljoin] raised
    on a link before it. *)
Lemma process_links_records_pdf (current_url : string) (depth : Z)
    (before after : list (string * string))
    (href text absolute_url : string) :
  Forall (fun l => urljoin current_url (fst l) <> None) before ->
  urljoin current_url href = Some absolute_url ->
  domain_allowed allowed_domains absolute_url = true ->
  is_pdf_url absolute_url = true ->
  forall st : State W,
    absolute_url
    ∈ pdfs_found (process_links cfg allowed_domains current_url depth
                    (before ++ (href, text) :: after) st).
Proof.
  intros Hbefore Hjoin Hd Hp.
  induction Hbefore as [|[h t] before Hh _ IH]; intros st; simpl.
  - rewrite Hjoin. apply process_links_pdfs_mono.
    now apply process_link_records_pdf.
  - simpl in Hh. destruct (urljoin current_url h) as [a|]; [|congruence].
    apply IH.
Qed.

Lemma iteration_pdfs_mono (u : string) (st : State W) :
  u ∈ pdfs_found st -> u ∈ pdfs_found (iteration cfg allowed_domains st).
Proof.
  intros Hu. unfold iteration.
  destruct (queue st) as [|[current_url depth] rest]; [exact Hu|].
  cbv zeta. destruct (_ || _); [exact Hu|].
  destruct (driver_get _ current_url) as [w' r].
  destruct r as [|page_text links]; [exact Hu|].
  now apply process_links_pdfs_mono.
Qed.

Lemma bfs_loop_pdfs_mono (u : string) (fuel : nat) (st : State W) :
  u ∈ pdfs_found st ->
  u ∈ pdfs_found (outcome_state (bfs_loop cfg allowed_domains fuel st)).
Proof.
  apply (bfs_loop_invariant_cond cfg allowed_domains
           (fun s => u ∈ pdfs_found s)).
  intros s Hs _. now apply iteration_pdfs_mono.
Qed.

(** A run that is still going after [fuel] rounds goes on from the state
    it has reached. *)
Lemma bfs_loop_running (fuel : nat) :
  forall st s : State W,
    bfs_loop cfg allowed_domains fuel st = Running s ->
    loop_condition cfg s = true /\
    forall k, bfs_loop cfg allowed_domains (fuel + k) st
              = bfs_loop cfg allowed_domains k s.
Proof.
  induction fuel as [|fuel IH]; intros st s; simpl.
  - destruct (loop_condition cfg st) eqn:Hc; [|discriminate].
    intros [= <-]. auto.
  - destruct (loop_condition cfg st) eqn:Hc; [|discriminate].
    intros Hrun. destruct (IH _ _ Hrun) as [Hs Hk]. split; [exact Hs|].
    intros k. exact (Hk k).
Qed.

(** The round that loads a page records the documents it links to. *)
Lemma round_records_pdf (s : State W) (current_url : string) (depth : Z)
    (rest : list (string * Z)) (w' : W) (page_text : string)
    (before after : list (string * string))
    (href text absolute_url : string) (k : nat) :
  loop_condition cfg s = true ->
  queue s = (current_url, depth) :: rest ->
  current_url ∉ visited_urls s ->
  (depth <= max_depth cfg)%Z ->
  driver_get (world s) current_url
  = (w', Page page_text (before ++ (href, text) :: after)) ->
  Forall (fun l => urljoin current_url (fst l) <> None) before ->
  urljoin current_url href = Some absolute_url ->
  domain_allowed allowed_domains absolute_url = true ->
  is_pdf_url absolute_url = true ->
  absolute_url
  ∈ pdfs_found (outcome_state (bfs_loop cfg allowed_domains (S k) s)).
Proof.
  intros Hc Hq Hv Hdepth Hget Hbefore Hjoin Hd Hp.
  cbn [bfs_loop]. rewrite Hc. apply bfs_loop_pdfs_mono.
  unfold iteration. rewrite Hq. cbv zeta.
  assert (Hskip : bool_decide (current_url ∈ visited_urls (set_queue rest s))
                  || (max_depth cfg <? depth)%Z = false).
  { apply orb_false_iff. split.
    - now apply bool_decide_eq_false.
    - apply Z.ltb_ge. exact Hdepth. }
  rewrite Hskip. cbn [world add_event add_visited set_queue].
  rewrite Hget. now apply process_links_records_pdf.
Qed.

(** With a browser that loads no page, a queue of seeds is gone through:
    each seed that is not yet visited is handed to the browser once. *)
Lemma failing_run (l : list string) :
  (forall (w0 : W) (u : string), snd (driver_get w0 u) = FetchError) ->
  (0 <= max_depth cfg)%Z ->
  forall (fuel : nat) (st : State W),
    queue st = map (fun u => (u, 0%Z)) l ->
    (Z.of_nat (size (visited_urls st ∪ list_to_set l)) <= max_urls cfg)%Z ->
    length l <= fuel ->
    exists st',
      bfs_loop cfg allowed_domains fuel st = Completed st' /\
      visited_urls st' = visited_urls st ∪ list_to_set l /\
      fetched (log st')
      = fetched (log st) ++ FailingSpec.fresh_in_order (visited_urls st) l /\
      pdfs_found st' = pdfs_found st.
Proof.
  intros Hfail Hdepth.
  induction l as [|u l IH]; intros fuel st Hq Hsize Hfuel.
  - exists st. split.
    + destruct fuel; simpl; unfold loop_condition; now rewrite Hq.
    + simpl. rewrite union_empty_r_L, app_nil_r. auto.
  - destruct (loop_condition cfg st) eqn:Hc.
    + destruct fuel as [|fuel]; [simpl in Hfuel; lia|].
      cbn [bfs_loop]. rewrite Hc.
      assert (Hiter :
        (u ∈ visited_urls st /\
         iteration cfg allowed_domains st
         = set_queue (map (fun u => (u, 0%Z)) l) st) \/
        ((u ∉ visited_urls st) /\
         exists w',
           iteration cfg allowed_domains st
           = add_event (ErrorProcessing u)
               (set_world w'
                  (add_event (Exploring 0 u)
                     (add_visited u
                        (set_queue (map (fun u => (u, 0%Z)) l) st)))))).
      { unfold iteration. rewrite Hq. cbn [map]. cbv zeta.
        destruct (decide (u ∈ visited_urls st)) as [Hin | Hnin].
        - left. split; [exact Hin|].
          cbn [visited_urls set_queue]. rewrite bool_decide_eq_true_2 by exact Hin.
          reflexivity.
        - right. split; [exact Hnin|].
          cbn [visited_urls set_queue].
          rewrite bool_decide_eq_false_2 by exact Hnin.
          replace (max_depth cfg <? 0)%Z with false
            by (symmetry; apply Z.ltb_ge; exact Hdepth).
          cbn [orb world add_event add_visited set_queue].
          pose proof (Hfail (world st) u) as Hf.
          destruct (driver_get (world st) u) as [w' r]. simpl in Hf.
          subst r. now exists w'. }
      destruct Hiter as [[Hin ->] | [Hnin [w' ->]]].
      * destruct (IH fuel (set_queue (map (fun u => (u, 0%Z)) l) st))
          as (st' & Hrun & Hv & Hf & Hp);
          [reflexivity | | simpl in Hfuel; lia |].
        { cbn [visited_urls set_queue].
          replace (visited_urls st ∪ list_to_set l)
            with (visited_urls st ∪ list_to_set (u :: l)); [exact Hsize|].
          cbn [list_to_set foldr]. by_elements. }
        exists st'. split; [exact Hrun|].
        cbn [visited_urls log pdfs_found set_queue] in Hv, Hf, Hp.
        split; [|split; [|exact Hp]].
        -- rewrite Hv. cbn [list_to_set foldr]. by_elements.
        -- rewrite Hf. cbn [FailingSpec.fresh_in_order].
           now rewrite bool_decide_eq_true_2 by exact Hin.
      * match goal with
        | |- context [bfs_loop _ _ fuel ?s] =>
            destruct (IH fuel s) as (st' & Hrun & Hv & Hf & Hp);
              [reflexivity | | simpl in Hfuel; lia |]
        end.
        { cbn [visited_urls add_event set_world add_visited set_queue].
          replace ({[u]} ∪ visited_urls st ∪ list_to_set l)
            with (visited_urls st ∪ list_to_set (u :: l)); [exact Hsize|].
          cbn [list_to_set foldr]. by_elements. }
        exists st'. split; [exact Hrun|].
        cbn [visited_urls log pdfs_found add_event set_world add_visited
             set_queue] in Hv, Hf, Hp.
        split; [|split; [|exact Hp]].
        -- rewrite Hv. cbn [list_to_set foldr]. by_elements.
        -- rewrite Hf, fetched_cons_error, fetched_cons_exploring.
           cbn [FailingSpec.fresh_in_order].
           rewrite bool_decide_eq_false_2 by exact Hnin.
           now rewrite <- app_assoc.
    + exists st. split; [destruct fuel; simpl; now rewrite Hc|].
      apply loop_condition_false in Hc.
      destruct Hc as [Hnil | Hfull]; [rewrite Hq in Hnil; discriminate|].
      assert (Hsub : visited_urls st ⊆ visited_urls st ∪ list_to_set (u :: l))
        by apply union_subseteq_l.
      assert (Heq : visited_urls st ∪ list_to_set (u :: l) = visited_urls st).
      { apply leibniz_equiv. symmetry.
        apply set_subseteq_size_equiv; [exact Hsub | lia]. }
      split; [now rewrite Heq|]. split; [|reflexivity].
      assert (Hall : forall x, x ∈ u :: l -> x ∈ visited_urls st).
      { intros x Hx. rewrite <- Heq. apply elem_of_union. right.
        now apply elem_of_list_to_set. }
      clear -Hall. induction (u :: l) as [|x l' IH']; simpl.
      * now rewrite app_nil_r.
      * rewrite bool_decide_eq_true_2 by (apply Hall; left).
        apply IH'. intros y Hy. apply Hall. now right.
Qed.

End PdfBfsRecording.

Section PdfCrawlerExtras.

Context {L : UrlLib} {W : Type} {web : Web W}.

Lemma comprehensive_budget (self : ComprehensivePDFDiscovery.Crawler)
    (starting_urls allowed_domains : list string) (fuel : nat) (w : W) :
  CrawlSpec.budget_invariant (ComprehensivePDFDiscovery.config self) ∅
    (PdfBfs.outcome_state
       (ComprehensivePDFDiscovery.crawl self starting_urls allowed_domains
          fuel w)).
Proof.
  unfold ComprehensivePDFDiscovery.crawl.
  apply (bfs_loop_invariant_cond _ _
           (CrawlSpec.budget_invariant (ComprehensivePDFDiscovery.config self) ∅)).
  - intros st. apply iteration_budget.
  - split; [reflexivity|]. cbn [PdfBfs.initial_state PdfBfs.visited_urls]. lia.
Qed.

Lemma simple_budget (self : SimpleBFSCrawler.Crawler)
    (start_urls allowed_domains : list string) (fuel : nat) (w : W) :
  CrawlSpec.budget_invariant (SimpleBFSCrawler.config self)
    (SimpleBFSCrawler.visited_urls self)
    (PdfBfs.outcome_state
       (SimpleBFSCrawler.crawl self start_urls allowed_domains fuel w)).
Proof.
  unfold SimpleBFSCrawler.crawl.
  apply (bfs_loop_invariant_cond _ _
           (CrawlSpec.budget_invariant (SimpleBFSCrawler.config self)
              (SimpleBFSCrawler.visited_urls self))).
  - intros st. apply iteration_budget.
  - split; simpl; lia.
Qed.

(** X1.  The URL ceiling of [ComprehensivePDFDiscovery.discover_pdfs_bfs]:
    after any number of rounds, [total_urls_visited] is the number of pages
    handed to the browser and is at most [max_urls_per_payer] (at most 0
    when that is negative); and when the loop has left, either the queue
    is empty or the ceiling is reached. *)
Theorem X1_url_budget (self : ComprehensivePDFDiscovery.Crawler)
    (starting_urls allowed_domains : list string) (fuel : nat) (w : W) :
  let out := ComprehensivePDFDiscovery.crawl self starting_urls
               allowed_domains fuel w in
  let st := PdfBfs.outcome_state out in
  let r := ComprehensivePDFDiscovery.result st in
  ComprehensivePDFDiscovery.total_urls_visited r
  = length (PdfBfs.fetched (PdfBfs.log st)) /\
  (Z.of_nat (ComprehensivePDFDiscovery.total_urls_visited r)
   <= Z.max 0 (ComprehensivePDFDiscovery.max_urls_per_payer self))%Z /\
  match out with
  | PdfBfs.Completed _ =>
      PdfBfs.queue st = [] \/
      (ComprehensivePDFDiscovery.max_urls_per_payer self
       <= Z.of_nat (ComprehensivePDFDiscovery.total_urls_visited r))%Z
  | PdfBfs.Running _ => True
  end.
Proof.
  intros out st r.
  destruct (comprehensive_budget self starting_urls allowed_domains fuel w)
    as [Hcount Hbound].
  fold out in Hcount, Hbound. fold st in Hcount, Hbound.
  rewrite size_empty in Hcount, Hbound. simpl in Hcount, Hbound.
  split; [exact Hcount|]. split; [simpl; lia|].
  destruct out as [st'|st'] eqn:Hout; [|exact I].
  unfold out, ComprehensivePDFDiscovery.crawl in Hout.
  apply bfs_loop_completed_condition in Hout.
  apply loop_condition_false in Hout. exact Hout.
Qed.

(** X2.  [SimpleBFSCrawler] keeps [self.visited_urls] across calls of
    [discover_pdfs_bfs]: the URLs visited before the call stay in the
    returned [urls_visited] and are never fetched again, they count towards
    the ceiling of 50, so that a call fetches at most
    [50 - len(self.visited_urls)] pages, and none when 50 were visited
    before. *)
Theorem X2_simple_visited_persists (self : SimpleBFSCrawler.Crawler)
    (start_urls allowed_domains : list string) (fuel : nat) (w : W) :
  let st := PdfBfs.outcome_state
              (SimpleBFSCrawler.crawl self start_urls allowed_domains fuel w) in
  let before := SimpleBFSCrawler.visited_urls self in
  let calls := PdfBfs.fetched (PdfBfs.log st) in
  SimpleBFSCrawler.total_urls_visited (SimpleBFSCrawler.result st)
  = size before + length calls /\
  length calls <= 50 - size before /\
  (forall u, u ∈ before ->
     u ∈ SimpleBFSCrawler.urls_visited (SimpleBFSCrawler.result st) /\
     u ∉ calls).
Proof.
  intros st before calls.
  destruct (simple_budget self start_urls allowed_domains fuel w)
    as [Hcount Hbound].
  destruct (simple_crawl_invariant self start_urls allowed_domains fuel w)
    as [I0 _ I2 _ _ _ _ _].
  fold st in Hcount, Hbound, I0, I2.
  split; [exact Hcount|]. split.
  - simpl in Hbound. fold before calls in Hcount. fold before in Hbound. lia.
  - intros u Hu. split.
    + simpl. apply elem_of_elements. now apply I0.
    + intros Hc. destruct (I2 u Hc) as [_ Hn]. now apply Hn.
Qed.

Lemma crawl_order (cfg : PdfBfs.Config) (allowed_domains : list string)
    (V0 : gset string) (start_urls : list string) (fuel : nat) (w : W) :
  CrawlSpec.order_invariant
    (PdfBfs.outcome_state
       (PdfBfs.bfs_loop cfg allowed_domains fuel
          (PdfBfs.initial_state V0 start_urls w))).
Proof.
  apply (bfs_loop_invariant_cond _ _ CrawlSpec.order_invariant).
  - intros st Hst _. now apply iteration_order.
  - apply initial_order.
Qed.

(** X3.  Breadth-first order.  In both [discover_pdfs_bfs] loops the pages
    are fetched in order of depth: the sequence of depths at which pages
    are handed to the browser never decreases; the queue is ordered by
    depth and its entries span at most two consecutive depths. *)
Theorem X3_breadth_first_order (self : ComprehensivePDFDiscovery.Crawler)
    (sself : SimpleBFSCrawler.Crawler)
    (start_urls allowed_domains : list string) (fuel : nat) (w : W) :
  let st := PdfBfs.outcome_state
              (ComprehensivePDFDiscovery.crawl self start_urls
                 allowed_domains fuel w) in
  let sst := PdfBfs.outcome_state
               (SimpleBFSCrawler.crawl sself start_urls allowed_domains
                  fuel w) in
  StronglySorted Z.le (CrawlSpec.explored_depths (PdfBfs.log st)) /\
  StronglySorted Z.le (map snd (PdfBfs.queue st)) /\
  (forall e1 e2, e1 ∈ PdfBfs.queue st -> e2 ∈ PdfBfs.queue st ->
     (snd e2 <= snd e1 + 1)%Z) /\
  StronglySorted Z.le (CrawlSpec.explored_depths (PdfBfs.log sst)) /\
  StronglySorted Z.le (map snd (PdfBfs.queue sst)) /\
  (forall e1 e2, e1 ∈ PdfBfs.queue sst -> e2 ∈ PdfBfs.queue sst ->
     (snd e2 <= snd e1 + 1)%Z).
Proof.
  intros st sst.
  destruct (crawl_order (ComprehensivePDFDiscovery.config self)
              allowed_domains ∅ start_urls fuel w) as [Oq Os Ol _].
  destruct (crawl_order (SimpleBFSCrawler.config sself) allowed_domains
              (SimpleBFSCrawler.visited_urls sself) start_urls fuel w)
    as [Sq Ss Sl _].
  assert (Hmap : forall q : list (string * Z),
            StronglySorted CrawlSpec.depth_le q ->
            StronglySorted Z.le (map snd q)).
  { intros q Hq. induction Hq as [|e q _ IH Hall]; [constructor|].
    simpl. constructor; [exact IH|].
    apply Forall_forall. intros d Hd.
    apply list_elem_of_fmap in Hd as [e' [-> He']].
    rewrite Forall_forall in Hall. exact (Hall e' He'). }
  split; [exact Ol|]. split; [now apply Hmap|]. split; [exact Os|].
  split; [exact Sl|]. split; [now apply Hmap | exact Ss].
Qed.

Lemma crawl_leaf (cfg : PdfBfs.Config) (allowed_domains : list string)
    (V0 : gset string) (start_urls : list string) (fuel : nat) (w : W) :
  CrawlSpec.leaf_invariant cfg allowed_domains
    (PdfBfs.outcome_state
       (PdfBfs.bfs_loop cfg allowed_domains fuel
          (PdfBfs.initial_state V0 start_urls w))).
Proof.
  apply (bfs_loop_invariant_cond _ _
           (CrawlSpec.leaf_invariant cfg allowed_domains)).
  - intros st Hst _. now apply iteration_leaf.
  - apply initial_leaf.
Qed.

(** X4.  Documents are leaves.  In
    [ComprehensivePDFDiscovery.discover_pdfs_bfs] a link that [is_pdf_url]
    accepts is recorded and never enqueued.  Never enqueued: every entry of
    the queue, and every page handed to the browser, is a seed at depth 0
    or a URL that [is_pdf_url] rejects.  Recorded: when the crawl, still
    running after some rounds, has at the head of its queue a URL that is
    not visited and not too deep, and the page loads, then every link of
    the page that passes the domain test and that [is_pdf_url] accepts is
    in [pdfs_discovered] at every later observation, unless [urljoin]
    raised on a link before it.  Every URL of [pdfs_discovered] is accepted
    by [is_pdf_url] and has a network location that contains one of the
    allowed domains. *)
Theorem X4_documents_are_leaves (self : ComprehensivePDFDiscovery.Crawler)
    (starting_urls allowed_domains : list string) (fuel : nat) (w : W) :
  let crawl := ComprehensivePDFDiscovery.crawl self starting_urls
                 allowed_domains in
  let st := PdfBfs.outcome_state (crawl fuel w) in
  (forall u d, (u, d) ∈ PdfBfs.queue st ->
     (d = 0%Z /\ u ∈ starting_urls) \/
     ComprehensivePDFDiscovery.is_pdf_url u = false) /\
  (forall d u, PdfBfs.Exploring d u ∈ PdfBfs.log st ->
     (d = 0%Z /\ u ∈ starting_urls) \/
     ComprehensivePDFDiscovery.is_pdf_url u = false) /\
  (forall u, u ∈ ComprehensivePDFDiscovery.pdfs_discovered
                   (ComprehensivePDFDiscovery.result st) ->
     ComprehensivePDFDiscovery.is_pdf_url u = true /\
     exists domain, In domain allowed_domains /\
       exists pre suf, netloc u = pre +:+ domain +:+ suf) /\
  (forall (s : PdfBfs.State W) (current_url : string) (depth : Z)
          (rest : list (string * Z)) (w' : W) (page_text : string)
          (before after : list (string * string))
          (href text absolute_url : string),
     crawl fuel w = PdfBfs.Running s ->
     PdfBfs.queue s = (current_url, depth) :: rest ->
     current_url ∉ PdfBfs.visited_urls s ->
     (depth <= ComprehensivePDFDiscovery.max_depth self)%Z ->
     driver_get (PdfBfs.world s) current_url
     = (w', Page page_text (before ++ (href, text) :: after)) ->
     Forall (fun l => urljoin current_url (fst l) <> None) before ->
     urljoin current_url href = Some absolute_url ->
     PdfBfs.domain_allowed allowed_domains absolute_url = true ->
     ComprehensivePDFDiscovery.is_pdf_url absolute_url = true ->
     forall later, fuel < later ->
       absolute_url
       ∈ ComprehensivePDFDiscovery.pdfs_discovered
           (ComprehensivePDFDiscovery.result
              (PdfBfs.outcome_state (crawl later w)))).
Proof.
  intros crawl st.
  destruct (crawl_leaf (ComprehensivePDFDiscovery.config self)
              allowed_domains ∅ starting_urls fuel w) as [Lq Ll Lp _].
  destruct (comprehensive_crawl_invariant self starting_urls allowed_domains
              fuel w) as [_ _ _ _ _ I5 I6 _].
  split; [|split; [|split]].
  - intros u d Hin. destruct (Lq u d Hin) as [-> | Hpdf]; [|now right].
    destruct (I5 u 0%Z Hin) as [? | [? _]]; [now left | lia].
  - intros d u Hin. destruct (Ll d u Hin) as [-> | Hpdf]; [|now right].
    destruct (I6 0%Z u Hin) as [? | [? _]]; [now left | lia].
  - intros u Hu. simpl in Hu. apply elem_of_elements in Hu.
    destruct (Lp u Hu) as [Hpdf Hdom]. split; [exact Hpdf|].
    now apply domain_allowed_spec.
  - intros s current_url depth rest w' page_text before after href text
      absolute_url Hrun Hq Hv Hdepth Hget Hbefore Hjoin Hd Hp later Hlater.
    unfold crawl, ComprehensivePDFDiscovery.crawl in Hrun |- *.
    destruct (bfs_loop_running _ _ _ _ _ Hrun) as [Hc Hresume].
    replace later with (fuel + S (later - S fuel)) by lia.
    rewrite Hresume. simpl ComprehensivePDFDiscovery.pdfs_discovered.
    apply elem_of_elements.
    now apply (round_records_pdf (ComprehensivePDFDiscovery.config self)
                 allowed_domains s current_url depth rest w' page_text
                 before after href text).
Qed.

(** X5.  [SimpleBFSCrawler.discover_pdfs_bfs] records in [all_links] only
    links that it found on a page it fetched: the [parent] of every entry
    was handed to the browser at the entry's [depth], which lies between 0
    and [max_depth]; the entry's [url] is what [urljoin] made of some
    [href] of that page, its network location contains an allowed domain,
    and [is_relevant_link] accepts its text with that [href]. *)
Theorem X5_all_links_provenance (self : SimpleBFSCrawler.Crawler)
    (start_urls allowed_domains : list string) (fuel : nat) (w : W) :
  let st := PdfBfs.outcome_state
              (SimpleBFSCrawler.crawl self start_urls allowed_domains fuel w) in
  forall r, In r (SimpleBFSCrawler.all_links (SimpleBFSCrawler.result st)) ->
    PdfBfs.Exploring (PdfBfs.link_depth r) (PdfBfs.link_parent r)
      ∈ PdfBfs.log st /\
    PdfBfs.link_parent r
      ∈ SimpleBFSCrawler.urls_visited (SimpleBFSCrawler.result st) /\
    (0 <= PdfBfs.link_depth r <= SimpleBFSCrawler.max_depth self)%Z /\
    PdfBfs.domain_allowed allowed_domains (PdfBfs.link_url r) = true /\
    exists href,
      urljoin (PdfBfs.link_parent r) href = Some (PdfBfs.link_url r) /\
      SimpleBFSCrawler.is_relevant_link (PdfBfs.link_text r) href = true.
Proof.
  intros st r Hr. apply list_elem_of_In in Hr.
  destruct (crawl_leaf (SimpleBFSCrawler.config self) allowed_domains
              (SimpleBFSCrawler.visited_urls self) start_urls fuel w)
    as [_ _ _ Lk].
  destruct (simple_crawl_invariant self start_urls allowed_domains fuel w)
    as [_ _ I2 _ I4 _ _ _].
  destruct (Lk r Hr) as (Hexp & Hdom & Hhref).
  split; [exact Hexp|]. split; [|split; [|split]].
  - simpl. apply elem_of_elements.
    apply (I2 (PdfBfs.link_parent r)). apply elem_of_fetched. eauto.
  - exact (I4 _ Hexp).
  - exact Hdom.
  - exact Hhref.
Qed.

End PdfCrawlerExtras.

Lemma X4_witness :
  "https://x.test/manual.pdf"
  ∈ ComprehensivePDFDiscovery.pdfs_discovered
      (ComprehensivePDFDiscovery.result
         (PdfBfs.outcome_state
            (@ComprehensivePDFDiscovery.crawl UrlModel.py_urllib Q
               (UrlModel.table_web Examples.scenario_pages 1)
               Examples.comprehensive_crawler ["https://x.test/"] ["x.test"]
               3 0%Q))).
Proof.
  refine (proj2 (proj2 (proj2
    (@X4_documents_are_leaves UrlModel.py_urllib Q
       (UrlModel.table_web Examples.scenario_pages 1)
       Examples.comprehensive_crawler ["https://x.test/"] ["x.test"] 0 0%Q)))
    _ "https://x.test/" 0%Z [] _ "home" []
    [("/other/", "click here"); ("/tools/", "Tools")]
    "/manual.pdf" "OH Provider Manual" "https://x.test/manual.pdf"
    _ _ _ _ _ _ _ _ _ 3 _).
  - reflexivity.
  - reflexivity.
  - apply not_elem_of_empty.
  - simpl. lia.
  - reflexivity.
  - constructor.
  - reflexivity.
  - reflexivity.
  - reflexivity.
  - lia.
Defined.

Lemma X5_witness :
  PdfBfs.Exploring 0 "https://x.test/a"
    ∈ PdfBfs.log
        (PdfBfs.outcome_state
           (@SimpleBFSCrawler.crawl UrlModel.py_urllib Q
              (UrlModel.table_web Examples.cyclic_pages 1)
              Examples.simple_crawler ["https://x.test/a"] ["x.test"] 5 0%Q)).
Proof.
  refine (proj1 (@X5_all_links_provenance UrlModel.py_urllib Q
    (UrlModel.table_web Examples.cyclic_pages 1)
    Examples.simple_crawler ["https://x.test/a"] ["x.test"] 5 0%Q
    {| PdfBfs.link_url := "https://x.test/b";
       PdfBfs.link_text := "Provider page B";
       PdfBfs.link_depth := 0;
       PdfBfs.link_parent := "https://x.test/a" |} _)).
  vm_compute. left. reflexivity.
Defined.

Section PdfCrawlerEdges.

Context {L : UrlLib} {W : Type} {web : Web W}.

(** X6.  Page loads that fail are not fatal and are not retried.  When no
    page can be loaded, [ComprehensivePDFDiscovery.discover_pdfs_bfs] still
    goes through the seeds.  After any number of rounds it has visited
    seeds only, at most as many pages as there are seeds, found no document
    and left nothing but seeds in the queue.  And when [max_depth] is not
    negative and [max_urls_per_payer] is not below the number of distinct
    seeds, then after one round for each seed the call returns: every
    distinct seed was handed to the browser exactly once, in the order of
    its first occurrence, and [urls_visited] holds exactly the seeds. *)
Theorem X6_unreachable_web (self : ComprehensivePDFDiscovery.Crawler)
    (starting_urls allowed_domains : list string) (fuel : nat) (w : W) :
  (forall (w0 : W) (u : string), snd (driver_get w0 u) = FetchError) ->
  let st := PdfBfs.outcome_state
              (ComprehensivePDFDiscovery.crawl self starting_urls
                 allowed_domains fuel w) in
  let r := ComprehensivePDFDiscovery.result st in
  let distinct_seeds := size (list_to_set starting_urls : gset string) in
  ComprehensivePDFDiscovery.pdfs_discovered r = [] /\
  (forall u, In u (ComprehensivePDFDiscovery.urls_visited r) ->
             In u starting_urls) /\
  ComprehensivePDFDiscovery.total_urls_visited r <= length starting_urls /\
  (forall u d, In (u, d) (PdfBfs.queue st) -> d = 0%Z /\ In u starting_urls) /\
  ((0 <= ComprehensivePDFDiscovery.max_depth self)%Z ->
   (Z.of_nat distinct_seeds
    <= ComprehensivePDFDiscovery.max_urls_per_payer self)%Z ->
   length starting_urls <= fuel ->
   ComprehensivePDFDiscovery.discover_pdfs_bfs self starting_urls
     allowed_domains fuel w
   = Some (PdfBfs.world st, r) /\
   PdfBfs.fetched (PdfBfs.log st)
   = FailingSpec.fresh_in_order ∅ starting_urls /\
   (forall u, In u (ComprehensivePDFDiscovery.urls_visited r) <->
              In u starting_urls) /\
   ComprehensivePDFDiscovery.total_urls_visited r = distinct_seeds).
Proof.
  intros Hfail st r distinct_seeds.
  assert (Hinv : CrawlSpec.failing_invariant starting_urls st).
  { unfold st, ComprehensivePDFDiscovery.crawl.
    apply (bfs_loop_invariant_cond _ _
             (CrawlSpec.failing_invariant starting_urls)).
    - intros st0 Hst0 _. now apply iteration_failing.
    - split; simpl; try reflexivity.
      + intros u d Hin. apply list_elem_of_fmap in Hin as [x [Hx Hin]].
        injection Hx as -> ->. now split.
      + intros d u Hu. inversion Hu. }
  destruct Hinv as [Fq Fg Fp _].
  destruct (comprehensive_crawl_invariant self starting_urls allowed_domains
              fuel w) as [_ _ _ I3 _ _ _ _].
  fold st in I3.
  assert (Hvis : forall u, In u (ComprehensivePDFDiscovery.urls_visited r) ->
                           In u starting_urls).
  { intros u Hu. apply list_elem_of_In in Hu. simpl in Hu.
    apply elem_of_elements in Hu. apply list_elem_of_In.
    destruct (I3 u Hu) as [Hempty | Hf].
    - now apply elem_of_empty in Hempty.
    - apply elem_of_fetched in Hf as [d Hd]. exact (Fg d u Hd). }
  split; [|split; [exact Hvis|split; [|split]]].
  - simpl. rewrite Fp. apply elements_empty.
  - change (ComprehensivePDFDiscovery.total_urls_visited r)
      with (length (ComprehensivePDFDiscovery.urls_visited r)).
    apply NoDup_incl_length; [|exact Hvis].
    simpl. apply NoDup_ListNoDup, NoDup_elements.
  - intros u d Hin. apply list_elem_of_In in Hin.
    destruct (Fq u d Hin) as [Hd Hu]. split; [exact Hd|].
    now apply list_elem_of_In.
  - intros Hdepth Hsize Hfuel.
    destruct (failing_run (ComprehensivePDFDiscovery.config self)
                allowed_domains starting_urls Hfail Hdepth fuel
                (PdfBfs.initial_state ∅ starting_urls w))
      as (st' & Hrun & Hv & Hf & _).
    + reflexivity.
    + cbn [PdfBfs.visited_urls PdfBfs.initial_state].
      rewrite union_empty_l_L. exact Hsize.
    + exact Hfuel.
    + cbn [PdfBfs.visited_urls PdfBfs.log PdfBfs.initial_state] in Hv, Hf.
      rewrite union_empty_l_L in Hv.
      unfold ComprehensivePDFDiscovery.discover_pdfs_bfs.
      unfold r, st, ComprehensivePDFDiscovery.crawl in *.
      rewrite Hrun. cbn [PdfBfs.outcome_state].
      split; [reflexivity|]. split; [exact Hf|]. split.
      * intros u. cbn [ComprehensivePDFDiscovery.urls_visited
                       ComprehensivePDFDiscovery.result].
        rewrite <- !list_elem_of_In, elem_of_elements, Hv.
        apply elem_of_list_to_set.
      * cbn [ComprehensivePDFDiscovery.total_urls_visited
             ComprehensivePDFDiscovery.result].
        now rewrite Hv.
Qed.

(** X7.  Nothing to crawl.  With an empty list of starting URLs, or with
    [max_urls_per_payer] zero or negative,
    [ComprehensivePDFDiscovery.discover_pdfs_bfs] returns at once the empty
    result: no exception is raised and the browser is not used. *)
Theorem X7_nothing_to_crawl (self : ComprehensivePDFDiscovery.Crawler)
    (starting_urls allowed_domains : list string) (fuel : nat) (w : W) :
  starting_urls = [] \/
  (ComprehensivePDFDiscovery.max_urls_per_payer self <= 0)%Z ->
  ComprehensivePDFDiscovery.discover_pdfs_bfs self starting_urls
    allowed_domains fuel w
  = Some (w, {| ComprehensivePDFDiscovery.pdfs_discovered := [];
                ComprehensivePDFDiscovery.urls_visited := [];
                ComprehensivePDFDiscovery.total_pdfs := 0;
                ComprehensivePDFDiscovery.total_urls_visited := 0 |}).
Proof.
  intros Hedge.
  assert (Hc : PdfBfs.loop_condition (ComprehensivePDFDiscovery.config self)
                 (PdfBfs.initial_state ∅ starting_urls w) = false).
  { unfold PdfBfs.loop_condition. simpl.
    destruct Hedge as [-> | Hle]; [reflexivity|].
    destruct (map _ starting_urls); [reflexivity|].
    apply Z.ltb_ge. exact Hle. }
  unfold ComprehensivePDFDiscovery.discover_pdfs_bfs,
    ComprehensivePDFDiscovery.crawl.
  destruct fuel; simpl; rewrite Hc; reflexivity.
Qed.

End PdfCrawlerEdges.

Lemma X6_witness :
  PdfBfs.fetched
    (PdfBfs.log
       (PdfBfs.outcome_state
          (@ComprehensivePDFDiscovery.crawl UrlModel.py_urllib Q
             Examples2.dead_web Examples.comprehensive_crawler
             ["https://x.test/"; "https://x.test/a"; "https://x.test/"]
             ["x.test"] 5 0%Q)))
  = ["https://x.test/"; "https://x.test/a"].
Proof.
  refine (proj1 (proj2 (proj2 (proj2 (proj2 (proj2
    (@X6_unreachable_web UrlModel.py_urllib Q Examples2.dead_web
       Examples.comprehensive_crawler
       ["https://x.test/"; "https://x.test/a"; "https://x.test/"]
       ["x.test"] 5 0%Q _)))) _ _ _))).
  - intros w0 u. reflexivity.
  - simpl. lia.
  - vm_compute. discriminate.
  - simpl. lia.
Defined.

Lemma X7_witness :
  @ComprehensivePDFDiscovery.discover_pdfs_bfs UrlModel.py_urllib Q
    (UrlModel.table_web Examples.scenario_pages 1)
    {| ComprehensivePDFDiscovery.max_depth := 2;
       ComprehensivePDFDiscovery.max_urls_per_payer := 0 |}
    ["https://x.test/"] ["x.test"] 3 0%Q
  = Some (0%Q, {| ComprehensivePDFDiscovery.pdfs_discovered := [];
                  ComprehensivePDFDiscovery.urls_visited := [];
                  ComprehensivePDFDiscovery.total_pdfs := 0;
                  ComprehensivePDFDiscovery.total_urls_visited := 0 |}).
Proof.
  apply (@X7_nothing_to_crawl UrlModel.py_urllib Q
           (UrlModel.table_web Examples.scenario_pages 1)).
  right. simpl. lia.
Defined.

(** ** Portal discovery and [test_single_payer] *)

Section PortalFacts.

Import ComprehensivePDFDiscovery.

Context {W : Type} {web : Web W}.

Lemma try_candidates_spec (candidate_urls : list string) (w : W)
    (discovered_urls : list string) :
  length discovered_urls < 3 -> NoDup discovered_urls ->
  let found := snd (try_candidates candidate_urls w discovered_urls) in
  length found <= 3 /\ NoDup found /\
  exists more, found = discovered_urls ++ more /\
    forall u, In u more -> In u candidate_urls.
Proof.
  revert w discovered_urls.
  induction candidate_urls as [|url rest IH]; intros w d Hlen Hnd.
  - simpl. split; [lia|]. split; [exact Hnd|]. exists []. rewrite app_nil_r.
    split; [reflexivity | intros u []].
  - cbn [try_candidates].
    destruct (check_url_validity w url) as [w' valid].
    destruct (valid && negb (bool_decide (url ∈@{list string} d))) eqn:Hc.
    + apply andb_true_iff in Hc as [_ Hnin].
      apply negb_true_iff, bool_decide_eq_false in Hnin.
      assert (Hnd' : NoDup (d ++ [url])).
      { apply NoDup_app. split; [exact Hnd|]. split; [|apply NoDup_singleton].
        intros x Hx Hx'. apply list_elem_of_singleton in Hx' as ->. auto. }
      cbv zeta. destruct (3 <=? length (d ++ [url])) eqn:H3; simpl.
      * rewrite length_app. simpl. split; [lia|]. split; [exact Hnd'|].
        exists [url]. split; [reflexivity|]. intros u [<- | []]. now left.
      * apply Nat.leb_gt in H3.
        destruct (IH w' (d ++ [url]) H3 Hnd') as (Hl & Hn & more & Heq & Hin).
        split; [exact Hl|]. split; [exact Hn|].
        exists (url :: more). split.
        -- rewrite Heq, <- app_assoc. reflexivity.
        -- intros u [<- | Hu]; [now left | right; now apply Hin].
    + destruct (IH w' d Hlen Hnd) as (Hl & Hn & more & Heq & Hin).
      split; [exact Hl|]. split; [exact Hn|].
      exists more. split; [exact Heq|]. intros u Hu. right. now apply Hin.
Qed.

Lemma try_patterns_spec (base_url base_domain : string)
    (patterns : list string) (w : W) (discovered_urls : list string) :
  length discovered_urls < 3 -> NoDup discovered_urls ->
  let found := snd (try_patterns base_url base_domain patterns w
                      discovered_urls) in
  length found <= 3 /\ NoDup found /\
  exists more, found = discovered_urls ++ more /\
    forall u, In u more ->
      u = "https://provider." +:+ base_domain +:+ "/" \/
      u = "https://providers." +:+ base_domain +:+ "/" \/
      exists pattern, In pattern patterns /\
        u = base_url +:+ "/" +:+ pattern +:+ "/".
Proof.
  revert w discovered_urls.
  induction patterns as [|pattern rest IH]; intros w d Hlen Hnd.
  - simpl. split; [lia|]. split; [exact Hnd|]. exists []. rewrite app_nil_r.
    split; [reflexivity | intros u []].
  - cbn [try_patterns].
    pose proof (try_candidates_spec
                  [base_url +:+ "/" +:+ pattern +:+ "/";
                   "https://provider." +:+ base_domain +:+ "/";
                   "https://providers." +:+ base_domain +:+ "/"] w d Hlen Hnd)
      as Hcand.
    destruct (try_candidates _ w d) as [w' d']. simpl in Hcand.
    destruct Hcand as (Hl & Hn & more & Heq & Hin).
    assert (Hmore : forall u, In u more ->
              u = "https://provider." +:+ base_domain +:+ "/" \/
              u = "https://providers." +:+ base_domain +:+ "/" \/
              exists p, In p (pattern :: rest) /\
                u = base_url +:+ "/" +:+ p +:+ "/").
    { intros u Hu. destruct (Hin u Hu) as [<- | [<- | [<- | []]]]; auto.
      right. right. exists pattern. split; [now left | reflexivity]. }
    destruct (3 <=? length d') eqn:H3; simpl.
    + split; [exact Hl|]. split; [exact Hn|]. exists more. now split.
    + apply Nat.leb_gt in H3.
      destruct (IH w' d' H3 Hn) as (Hl2 & Hn2 & more2 & Heq2 & Hin2).
      split; [exact Hl2|]. split; [exact Hn2|].
      exists (more ++ more2). split.
      * rewrite Heq2, Heq, <- app_assoc. reflexivity.
      * intros u Hu. apply in_app_or in Hu as [Hu | Hu]; [now apply Hmore|].
        destruct (Hin2 u Hu) as [? | [? | (p & Hp & ->)]]; auto.
        right. right. exists p. split; [now right | reflexivity].
Qed.

(** X8.  [discover_provider_portals] returns at most three URLs, without
    repetition; a known portal, when given, comes first; every other URL is
    one of the template candidates: [https://provider.<domain>/],
    [https://providers.<domain>/], or [<base_url>/<pattern>/] for one of
    the first five portal patterns. *)
Theorem X8_portal_discovery (base_domain : string)
    (known_portal : option string) (w : W) :
  let found := snd (discover_provider_portals base_domain known_portal w) in
  let known :=
    match known_portal with
    | Some p => if String.eqb p "" then [] else [p]
    | None => []
    end in
  let base_url :=
    if startswith "http" base_domain then base_domain
    else "https://www." +:+ base_domain in
  length found <= 3 /\ NoDup found /\
  exists more, found = known ++ more /\
    forall u, In u more ->
      u = "https://provider." +:+ base_domain +:+ "/" \/
      u = "https://providers." +:+ base_domain +:+ "/" \/
      exists pattern,
        In pattern ["provider"; "providers"; "health-care-professionals";
                    "healthcare-professionals"; "provider-portal"] /\
        u = base_url +:+ "/" +:+ pattern +:+ "/".
Proof.
  intros found known base_url. unfold found, discover_provider_portals.
  assert (Hlen : length known < 3).
  { unfold known. destruct known_portal as [p|]; [|simpl; lia].
    destruct (String.eqb p ""); simpl; lia. }
  assert (Hnd : NoDup known).
  { unfold known. destruct known_portal as [p|]; [|constructor].
    destruct (String.eqb p ""); [constructor | apply NoDup_singleton]. }
  assert (Hbase : (if negb (startswith "http" base_domain)
                   then "https://www." +:+ base_domain else base_domain)
                  = base_url).
  { unfold base_url. now destruct (startswith "http" base_domain). }
  rewrite Hbase.
  exact (try_patterns_spec base_url base_domain (take 5 portal_patterns) w
           known Hlen Hnd).
Qed.

End PortalFacts.

Section NoPortalFacts.

Import ComprehensivePDFDiscovery.

Context {L : UrlLib} {W : Type} {web : Web W}.

(** No HEAD request is answered with a status from 200 to 399. *)
Hypothesis no_portal_answers : forall (w : W) (u : string),
  match snd (requests_head w u) with
  | Some c => ~ (200 <= c < 400)%Z
  | None => True
  end.

Lemma counting_check_invalid (wc : W * list string) (url : string) :
  snd (@check_url_validity _ counting_web wc url) = false /\
  snd (fst (@check_url_validity _ counting_web wc url)) = snd wc.
Proof.
  unfold check_url_validity. simpl.
  pose proof (no_portal_answers (fst wc) url) as Hno.
  destruct (requests_head (fst wc) url) as [w' [c|]]; simpl in *.
  - split; [|reflexivity]. apply andb_false_iff.
    destruct (200 <=? c)%Z eqn:H2; [|now left]. right.
    apply Z.ltb_ge. apply Z.leb_le in H2. lia.
  - now split.
Qed.

Lemma counting_try_candidates_invalid (candidate_urls : list string)
    (wc : W * list string) (discovered_urls : list string) :
  snd (@try_candidates _ counting_web candidate_urls wc discovered_urls)
  = discovered_urls /\
  snd (fst (@try_candidates _ counting_web candidate_urls wc discovered_urls))
  = snd wc.
Proof.
  revert wc. induction candidate_urls as [|url rest IH]; intros wc;
    [now split|].
  cbn [try_candidates].
  destruct (counting_check_invalid wc url) as [Hv Hw].
  destruct (@check_url_validity _ counting_web wc url) as [wc' valid].
  simpl in Hv, Hw. subst valid. simpl. rewrite <- Hw. apply IH.
Qed.

Lemma counting_try_patterns_invalid (base_url base_domain : string)
    (patterns : list string) (wc : W * list string) :
  snd (@try_patterns _ counting_web base_url base_domain patterns wc [])
  = [] /\
  snd (fst (@try_patterns _ counting_web base_url base_domain patterns wc []))
  = snd wc.
Proof.
  revert wc. induction patterns as [|pattern rest IH]; intros wc;
    [now split|].
  cbn [try_patterns].
  match goal with
  | |- context [@try_candidates _ counting_web ?c wc []] =>
      destruct (counting_try_candidates_invalid c wc []) as [Hd Hw];
      destruct (@try_candidates _ counting_web c wc []) as [wc' d']
  end.
  simpl in Hd, Hw. subst d'. simpl. rewrite <- Hw. apply IH.
Qed.

(** X9.  When no portal is known and no candidate URL answers a HEAD
    request with a status from 200 to 399, [test_single_payer] returns the
    error "No portal URLs found" and the browser is never asked to load a
    page. *)
Theorem X9_no_portal_no_crawl (self : Crawler) (base_domain : string)
    (known_portal : option string) (time_limit_minutes : Z) (fuel : nat)
    (w : W) :
  known_portal = None \/ known_portal = Some "" ->
  let res := @test_single_payer L _ counting_web self base_domain
               known_portal time_limit_minutes fuel (w, []) in
  snd res = PayerError "No portal URLs found" /\ snd (fst res) = [].
Proof.
  intros Hknown res. unfold res, test_single_payer.
  pose proof (counting_time_calls (w, [])) as Ht.
  destruct (@time_time _ counting_web (w, [])) as [wc0 start_time].
  simpl in Ht. unfold discover_provider_portals.
  assert (Hinit : match known_portal with
                  | Some p => if String.eqb p "" then [] else [p]
                  | None => []
                  end = []).
  { destruct Hknown as [-> | ->]; reflexivity. }
  rewrite Hinit.
  match goal with
  | |- context [@try_patterns _ counting_web ?b ?d ?p wc0 []] =>
      destruct (counting_try_patterns_invalid b d p wc0) as [Hd Hw];
      destruct (@try_patterns _ counting_web b d p wc0 []) as [wc1 portals]
  end.
  simpl in Hd, Hw. subst portals. simpl. split; [reflexivity | congruence].
Qed.

End NoPortalFacts.

Lemma X9_witness :
  snd (@ComprehensivePDFDiscovery.test_single_payer UrlModel.py_urllib _
         (@counting_web Q Examples2.dead_web) Examples.comprehensive_crawler
         "x.test" None 3 5 (0%Q, []))
  = ComprehensivePDFDiscovery.PayerError "No portal URLs found".
Proof.
  refine (proj1 (@X9_no_portal_no_crawl UrlModel.py_urllib Q
    Examples2.dead_web _ Examples.comprehensive_crawler "x.test" None 3 5
    0%Q _)).
  - intros w u. exact I.
  - now left.
Defined.

(** ** More on the regional loop *)

Section RegionalMore.

Import RegionalEnhancedCrawler.

Context `{UrlLib} `{Web W}.
Variable self_max_depth : Z.
Variable allowed_domains : list string.

Local Abbreviation records_ok := (RegionalSpec.records_ok allowed_domains).
Local Abbreviation frontier_ok :=
  (RegionalSpec.frontier_ok self_max_depth allowed_domains).
Local Abbreviation entry_ok :=
  (RegionalSpec.entry_ok self_max_depth allowed_domains).

(** A property kept by the clock reading of the loop condition and by
    every round that the loop condition lets start is kept by the loop. *)
Lemma regional_bfs_loop_invariant_cond (P : State W -> Prop)
    (start_time : Q) (max_time_seconds : Z) :
  (forall st w', P st -> P (set_world w' st)) ->
  (forall st, P st -> queue st <> [] -> (urls_processed st < max_urls)%Z ->
              P (iteration self_max_depth allowed_domains st)) ->
  forall fuel st, P st ->
    P (PdfBfs.outcome_state
         (bfs_loop self_max_depth allowed_domains start_time
            max_time_seconds fuel st)).
Proof.
  intros Hworld Hstep fuel.
  induction fuel as [|fuel IH]; intros st Hst; simpl;
    destruct (regional_loop_condition_state start_time max_time_seconds st)
      as [w' Hw];
    pose proof (regional_loop_condition_true start_time max_time_seconds st)
      as Hc;
    destruct (loop_condition start_time max_time_seconds st) as [st1 c];
    simpl in Hw, Hc; subst st1.
  - destruct c; simpl; now apply Hworld.
  - destruct c; simpl; [|now apply Hworld].
    destruct (Hc eq_refl) as (Hne & Hlt & _).
    apply IH. apply Hstep; [now apply Hworld | exact Hne | exact Hlt].
Qed.

Lemma iteration_processed (V0 : gset string) (st : State W) :
  RegionalSpec.processed_invariant V0 st ->
  (urls_processed st < max_urls)%Z ->
  RegionalSpec.processed_invariant V0
    (iteration self_max_depth allowed_domains st).
Proof.
  intros [Hn Hb Hc Hf] Hlt.
  destruct (queue st) as [|[[current_url depth] score] rest] eqn:Hq.
  { unfold iteration. rewrite Hq. now split. }
  assert (Hsize : current_url ∉ visited_urls st ->
                  size ({[current_url]} ∪ visited_urls st)
                  = size V0 + Z.to_nat (urls_processed st + 1)).
  { intros Hnv. rewrite size_union by (now apply disjoint_singleton_l).
    rewrite size_singleton, Hc. lia. }
  destruct (regional_iteration_cases self_max_depth allowed_domains st
              current_url depth score rest Hq)
    as [[-> _] | [(Hnv & _ & ->) | (Hnv & _ & [Pv Pp _ Pf])]].
  - now split.
  - split; simpl; try lia. now apply Hsize.
  - split.
    + rewrite Pp. simpl. lia.
    + rewrite Pp. simpl. lia.
    + rewrite Pv, Pp. simpl. now apply Hsize.
    + rewrite Pf, Pp. simpl. rewrite regional_fetched_cons_exploring, length_app.
      simpl. lia.
Qed.

Lemma categorize_pdf_ok (absolute_url link_text : string)
    (m : gmap string (list string)) (A : list string) :
  absolute_url ∈ A ->
  (forall code urls, m !! code = Some urls ->
     is_state_code code = true /\ forall u, u ∈ urls -> u ∈ A) ->
  forall code urls,
    categorize_pdf absolute_url link_text m !! code = Some urls ->
    is_state_code code = true /\ forall u, u ∈ urls -> u ∈ A.
Proof.
  intros HA. unfold categorize_pdf.
  generalize (elements (detect_regional_indicators absolute_url link_text)).
  intros l. revert m. induction l as [|indicator l IH]; intros m Hm.
  - exact Hm.
  - cbn [foldl]. apply IH. cbv zeta.
    destruct (startswith "state_" indicator); [|exact Hm].
    destruct (is_state_code (split_field1 indicator)) eqn:Hcode; [|exact Hm].
    intros code urls Hlook.
    destruct (decide (split_field1 indicator = code)) as [<- | Hne].
    + rewrite lookup_insert_eq in Hlook. injection Hlook as <-.
      split; [exact Hcode|]. intros u Hu.
      apply elem_of_app in Hu as [Hu | Hu].
      * destruct (m !! split_field1 indicator) as [old|] eqn:Hold;
          simpl in Hu; [|inversion Hu].
        now apply (Hm _ _ Hold).
      * now apply list_elem_of_singleton in Hu as ->.
    + rewrite lookup_insert_ne in Hlook by exact Hne. now apply (Hm _ _ Hlook).
Qed.

Lemma extend_coverage_ok (regional_indicators coverage : gset string) :
  (forall c, c ∈ coverage -> is_state_code c = true) ->
  forall c, c ∈ extend_coverage regional_indicators coverage ->
            is_state_code c = true.
Proof.
  intros Hcov c. unfold extend_coverage.
  rewrite (elem_of_foldl_cond _
             (fun p => bool_decide ("state_" +:+ fst p ∈ regional_indicators))
             (fun p => fst p))
    by (intros acc [code name]; reflexivity).
  intros [Hc | ([code name] & Hin & _ & <-)]; [now apply Hcov|].
  unfold is_state_code. apply existsb_exists. exists (code, name).
  split; [exact Hin | apply String.eqb_refl].
Qed.

Lemma process_link_records_ok (depth : Z) (link_text absolute_url : string)
    (st : State W) :
  records_ok st ->
  records_ok (process_link self_max_depth allowed_domains depth link_text
                absolute_url st).
Proof.
  intros [Rp Rr Rc]. unfold process_link.
  destruct (domain_allowed allowed_domains absolute_url) eqn:Hd; simpl;
    [|now split].
  destruct (endswith ".pdf" (lower absolute_url)
            || contains ".pdf" (lower absolute_url)) eqn:Hpdf.
  - split; simpl.
    + intros u Hu. apply elem_of_app in Hu as [Hu | Hu]; [now apply Rp|].
      apply list_elem_of_singleton in Hu as ->. now split.
    + apply categorize_pdf_ok.
      * apply elem_of_app. right. left.
      * intros code urls Hlook. destruct (Rr code urls Hlook) as [Hc Hu].
        split; [exact Hc|]. intros u Hin. apply elem_of_app. left. now apply Hu.
    + exact Rc.
  - destruct (_ && _ && _); now split.
Qed.

Lemma process_links_records_ok (current_url : string) (depth : Z)
    (links : list (string * string)) (st : State W) :
  records_ok st ->
  records_ok (fst (process_links self_max_depth allowed_domains current_url
                     depth links st)).
Proof.
  revert st. induction links as [|[href text] rest IH]; intros st Hst; simpl.
  - exact Hst.
  - destruct (urljoin current_url href) as [absolute_url|]; [|exact Hst].
    apply IH. now apply process_link_records_ok.
Qed.

Lemma iteration_records_ok (st : State W) :
  records_ok st ->
  records_ok (iteration self_max_depth allowed_domains st).
Proof.
  intros Hst. unfold iteration.
  destruct (queue st) as [|[[current_url depth] score] rest]; [exact Hst|].
  assert (R0 : records_ok (set_queue rest st)) by (destruct Hst; now split).
  destruct (_ || _); [exact R0|].
  assert (R1 : records_ok (mark_processed current_url (set_queue rest st)))
    by (destruct Hst; now split).
  destruct (negb _); [exact R1|]. simpl.
  destruct (driver_get (world st) current_url) as [w' r].
  destruct r as [|page_text links].
  - destruct Hst. now split.
  - unfold process_page.
    match goal with
    | |- context [process_links _ _ _ _ _ ?s] =>
        assert (R2 : records_ok s);
        [|pose proof (process_links_records_ok current_url depth links s R2)
            as R3;
          destruct (process_links self_max_depth allowed_domains current_url
                      depth links s) as [st2 ok]]
    end.
    + destruct Hst as [Rp Rr Rc]. split; simpl; try assumption.
      now apply extend_coverage_ok.
    + simpl in R3. destruct ok.
      * destruct (5 <=? _)%Z; [|exact R3]. destruct R3. now split.
      * destruct R3. now split.
Qed.

Lemma process_link_frontier (init : list (string * Z * Z)) (depth : Z)
    (link_text0 absolute_url : string) (st : State W) :
  (0 <= depth)%Z ->
  (forall e, e ∈ queue st -> entry_ok init e) ->
  forall e,
    e ∈ queue (process_link self_max_depth allowed_domains depth
                 (lower link_text0) absolute_url st) ->
    entry_ok init e.
Proof.
  intros Hdepth Hq e. unfold process_link.
  destruct (domain_allowed allowed_domains absolute_url) eqn:Hd; simpl;
    [|apply Hq].
  destruct (endswith ".pdf" (lower absolute_url)
            || contains ".pdf" (lower absolute_url)) eqn:Hpdf;
    [apply Hq|].
  destruct (_ && _ && _) eqn:Hc; [|apply Hq].
  apply andb_true_iff in Hc as [Hc _]. apply andb_true_iff in Hc as [Hs Hlt].
  apply Z.leb_le in Hs. apply Z.ltb_lt in Hlt. simpl.
  intros He. apply elem_of_app in He as [He | He]; [now apply Hq|].
  apply list_elem_of_singleton in He as ->.
  split; simpl; [lia|]. right. unfold RegionalSpec.from_link. simpl.
  split; [exact Hs|]. split; [lia|]. split; [exact Hpdf|].
  split; [exact Hd|]. now exists link_text0.
Qed.

Lemma process_links_frontier (init : list (string * Z * Z))
    (current_url : string) (depth : Z) (links : list (string * string))
    (st : State W) :
  (0 <= depth)%Z ->
  (forall e, e ∈ queue st -> entry_ok init e) ->
  forall e,
    e ∈ queue (fst (process_links self_max_depth allowed_domains current_url
                      depth links st)) ->
    entry_ok init e.
Proof.
  intros Hdepth. revert st.
  induction links as [|[href text] rest IH]; intros st Hq; simpl.
  - exact Hq.
  - destruct (urljoin current_url href) as [absolute_url|]; [|exact Hq].
    apply IH. now apply process_link_frontier.
Qed.

Lemma process_page_queue (current_url : string) (depth : Z)
    (page_text : string) (links : list (string * string)) (st : State W) :
  queue (process_page self_max_depth allowed_domains current_url depth
           page_text links st)
  = queue (fst (process_links self_max_depth allowed_domains current_url
                  depth links
                  (set_state_coverage
                     (extend_coverage
                        (detect_regional_indicators current_url page_text)
                        (state_coverage st)) st))).
Proof.
  unfold process_page. destruct (process_links _ _ _ _ _ _) as [st2 ok].
  simpl. destruct ok; [|reflexivity]. now destruct (5 <=? _)%Z.
Qed.

End RegionalMore.


Section RegionalFrontier.

Import RegionalEnhancedCrawler.

Context `{UrlLib} `{Web W}.
Variable self_max_depth : Z.
Variable allowed_domains : list string.

Local Abbreviation frontier_ok :=
  (RegionalSpec.frontier_ok self_max_depth allowed_domains).
Local Abbreviation entry_ok :=
  (RegionalSpec.entry_ok self_max_depth allowed_domains).

Lemma iteration_frontier (init : list (string * Z * Z)) (st : State W) :
  frontier_ok init st ->
  frontier_ok init (iteration self_max_depth allowed_domains st).
Proof.
  intros [Fq Fl].
  destruct (queue st) as [|[[current_url depth] score] rest] eqn:Hq.
  { unfold iteration. rewrite Hq. split; [now rewrite Hq | exact Fl]. }
  assert (Hhead : entry_ok init (current_url, depth, score))
    by (apply Fq; left).
  assert (Hrest : forall e, e ∈ rest -> entry_ok init e)
    by (intros e He; apply Fq; now right).
  pose proof (regional_iteration_cases self_max_depth allowed_domains st
                current_url depth score rest Hq) as Hcases.
  destruct Hcases as [[Heq _] | [(_ & _ & Heq) | (_ & Hdom & [_ _ _ Pf])]].
  - rewrite Heq. now split.
  - rewrite Heq. now split.
  - split.
    + unfold iteration. rewrite Hq.
      destruct (bool_decide _ || _); [exact Hrest|].
      rewrite Hdom. cbn [negb].
      destruct (driver_get _ current_url) as [w' r].
      destruct r as [|page_text links]; [exact Hrest|].
      rewrite process_page_queue. apply process_links_frontier.
      * now destruct Hhead.
      * exact Hrest.
    + intros u. rewrite Pf. simpl. rewrite regional_fetched_cons_exploring.
      intros Hu. apply elem_of_app in Hu as [Hu | Hu]; [now apply Fl|].
      apply list_elem_of_singleton in Hu as ->. now exists depth, score.
Qed.

Lemma initial_queue_depths (starting_urls : list string)
    (e : string * Z * Z) :
  e ∈ initial_queue starting_urls ->
  (snd (fst e) = 0 /\ snd e = 0 /\ fst (fst e) ∈ starting_urls)%Z \/
  (snd (fst e) = 1 /\ snd e = 5)%Z.
Proof.
  unfold initial_queue. intros He.
  assert (Hseed : e ∈ map (fun url => (url, 0%Z, 0%Z)) starting_urls ->
                  (snd (fst e) = 0 /\ snd e = 0
                   /\ fst (fst e) ∈ starting_urls)%Z).
  { intros Hin. apply list_elem_of_fmap in Hin as (u & -> & Hu). now simpl. }
  destruct starting_urls as [|first_url rest]; [left; now apply Hseed|].
  apply elem_of_app in He as [He | He]; [left; now apply Hseed|].
  right. apply list_elem_of_fmap in He as (u & -> & _). now simpl.
Qed.

Lemma initial_frontier (self : Crawler) (starting_urls : list string)
    (w : W) :
  frontier_ok (initial_queue starting_urls)
    (initial_state self starting_urls w).
Proof.
  split; simpl.
  - intros e He. split; [|now left].
    destruct (initial_queue_depths _ _ He) as [(-> & _) | (-> & _)]; lia.
  - intros u Hu. inversion Hu.
Qed.

End RegionalFrontier.


Section RegionalCrawlerExtras.

Import RegionalEnhancedCrawler.

Context `{UrlLib} `{Web W}.

Lemma regional_bfs_loop_mono (self_max_depth : Z)
    (allowed_domains : list string) (start_time : Q) (max_time_seconds : Z)
    (fuel : nat) :
  forall (st st' : State W),
    bfs_loop self_max_depth allowed_domains start_time max_time_seconds fuel st
    = PdfBfs.Completed st' ->
    forall fuel', fuel <= fuel' ->
      bfs_loop self_max_depth allowed_domains start_time max_time_seconds
        fuel' st = PdfBfs.Completed st'.
Proof.
  induction fuel as [|fuel IH]; intros st st' Hrun fuel' Hle.
  - simpl in Hrun.
    destruct (loop_condition start_time max_time_seconds st) as [st1 c] eqn:Hl.
    destruct c; [discriminate|].
    destruct fuel'; simpl; now rewrite Hl.
  - destruct fuel' as [|fuel']; [lia|]. simpl in *.
    destruct (loop_condition start_time max_time_seconds st) as [st1 c].
    destruct c; [|exact Hrun]. apply (IH _ _ Hrun). lia.
Qed.

Lemma regional_loop_condition_false (start_time : Q) (max_time_seconds : Z)
    (st : State W) :
  snd (loop_condition start_time max_time_seconds st) = false ->
  queue st = [] \/ (max_urls <= urls_processed st)%Z \/
  (fst (loop_condition start_time max_time_seconds st)
   = set_world (fst (time_time (world st))) st /\
   (inject_Z max_time_seconds <= snd (time_time (world st)) - start_time)%Q).
Proof.
  unfold loop_condition. destruct (queue st); [now left|].
  destruct (urls_processed st <? max_urls)%Z eqn:Hp.
  - destruct (time_time (world st)) as [w' t]. simpl. unfold Qlt_bool.
    intros Hc. apply negb_false_iff in Hc. apply Qle_bool_iff in Hc. auto.
  - apply Z.ltb_ge in Hp. auto.
Qed.

Lemma regional_bfs_loop_completed (self_max_depth : Z)
    (allowed_domains : list string) (start_time : Q) (max_time_seconds : Z)
    (fuel : nat) :
  forall (st st' : State W),
    bfs_loop self_max_depth allowed_domains start_time max_time_seconds fuel st
    = PdfBfs.Completed st' ->
    queue st' = [] \/ (max_urls <= urls_processed st')%Z \/
    exists w_before,
      world st' = fst (time_time w_before) /\
      (inject_Z max_time_seconds <= snd (time_time w_before) - start_time)%Q.
Proof.
  induction fuel as [|fuel IH]; intros st st' Hrun; simpl in Hrun;
    destruct (regional_loop_condition_state start_time max_time_seconds st)
      as [w' Hw];
    pose proof (regional_loop_condition_false start_time max_time_seconds st)
      as Hf;
    destruct (loop_condition start_time max_time_seconds st) as [st1 c];
    simpl in Hw, Hf; destruct c; try discriminate.
  - injection Hrun as <-.
    destruct (Hf eq_refl) as [Hq | [Hp | [-> Ht]]];
      [subst st1; auto | subst st1; auto |].
    right. right. exists (world st). auto.
  - now apply (IH _ _ Hrun).
  - injection Hrun as <-.
    destruct (Hf eq_refl) as [Hq | [Hp | [-> Ht]]];
      [subst st1; auto | subst st1; auto |].
    right. right. exists (world st). auto.
Qed.

Lemma is_state_code_codes (c : string) :
  is_state_code c = true -> c ∈ map fst us_states.
Proof.
  unfold is_state_code. intros Hc.
  apply existsb_exists in Hc as ([code name] & Hin & Heq).
  apply String.eqb_eq in Heq as <-.
  apply list_elem_of_fmap. exists (code, name).
  split; [reflexivity | now apply list_elem_of_In].
Qed.

Lemma completeness_bounds (state_coverage : gset string) :
  size state_coverage <= 51 ->
  (0 <= completeness state_coverage)%Q /\
  (completeness state_coverage <= 51 # 50)%Q.
Proof.
  intros Hsize. unfold completeness. case_bool_decide.
  - split; [apply Qle_refl | discriminate].
  - unfold Qle, Qdiv, Qmult, Qinv, inject_Z. simpl. lia.
Qed.

Lemma regional_is_pdf_contains (url : string) :
  RegionalSpec.is_pdf url = contains ".pdf" (lower url).
Proof.
  unfold RegionalSpec.is_pdf.
  destruct (endswith ".pdf" (lower url)) eqn:He; [|reflexivity].
  apply endswith_contains in He. now rewrite He.
Qed.

(** X10.  Called with plain starting URLs (of ASCII characters, without
    square brackets and braces, so that neither [urlparse], which the loop
    calls outside its [try], nor [str.format] raises),
    [discover_regional_content_bfs] returns, for every web and every
    clock: some number of rounds lets the loop leave, and observing the
    loop for longer gives the same result. *)
Theorem X10_regional_returns (self : Crawler)
    (starting_urls allowed_domains : list string) (max_time_minutes : Z)
    (w : W) :
  Forall (fun url => Wellformed.plain_url url = true) starting_urls ->
  exists fuel r,
    forall fuel', fuel <= fuel' ->
      discover_regional_content_bfs self starting_urls allowed_domains
        max_time_minutes fuel' w = Some r.
Proof.
  intros _. unfold discover_regional_content_bfs.
  destruct (time_time w) as [w0 start_time].
  destruct (regional_bfs_loop_terminates (max_depth self) allowed_domains
              start_time (max_time_minutes * 60)%Z
              (initial_state self starting_urls w0)) as (fuel & st' & Hrun).
  destruct (time_time (world st')) as [w1 t] eqn:Ht.
  exists fuel, (w1, result (t - start_time) st'). intros fuel' Hle.
  rewrite (regional_bfs_loop_mono _ _ _ _ _ _ _ Hrun fuel' Hle).
  now rewrite Ht.
Qed.

(** The loop leaves at once when the clock reading of its condition is
    past the limit. *)
Lemma regional_deadline_exact (self_max_depth : Z)
    (allowed_domains : list string) (start_time : Q) (max_time_seconds : Z)
    (fuel : nat) (st : State W) :
  (inject_Z max_time_seconds <= snd (time_time (world st)) - start_time)%Q ->
  exists w',
    bfs_loop self_max_depth allowed_domains start_time max_time_seconds fuel st
    = PdfBfs.Completed (set_world w' st) /\
    (w' = world st \/ w' = fst (time_time (world st))).
Proof.
  intros Hlate.
  pose proof (regional_loop_condition_true start_time max_time_seconds st)
    as Hc.
  pose proof (regional_loop_condition_false start_time max_time_seconds st)
    as Hf.
  assert (Hsame : set_world (world st) st = st) by now destruct st.
  destruct (loop_condition start_time max_time_seconds st) as [st1 c] eqn:Hl.
  simpl in Hc, Hf. destruct c.
  - destruct (Hc eq_refl) as (_ & _ & Hlt).
    exfalso. exact (Qlt_not_le _ _ Hlt Hlate).
  - assert (Hst1 : exists w', st1 = set_world w' st /\
                     (w' = world st \/ w' = fst (time_time (world st)))).
    { unfold loop_condition in Hl.
      destruct (queue st).
      - injection Hl as <-. exists (world st). auto.
      - destruct (urls_processed st <? max_urls)%Z.
        + destruct (time_time (world st)) as [w' t]. injection Hl as <- _.
          exists w'. auto.
        + injection Hl as <-. exists (world st). auto. }
    destruct Hst1 as (w' & -> & Hw'). exists w'. split; [|exact Hw'].
    destruct fuel; simpl; now rewrite Hl.
Qed.

(** X11.  The time limit of the regional loop is tested between rounds
    only: from any state of the crawl, when the clock reading taken by the
    loop condition is [max_time_seconds] or more past [start_time], the loop
    leaves at once, and the state it leaves with differs from the one it
    was entered with at most in the world that the clock reading left. *)
Theorem X11_regional_deadline (self_max_depth : Z)
    (allowed_domains : list string) (start_time : Q) (max_time_seconds : Z)
    (fuel : nat) (st : State W) :
  (inject_Z max_time_seconds <= snd (time_time (world st)) - start_time)%Q ->
  exists w',
    bfs_loop self_max_depth allowed_domains start_time max_time_seconds fuel st
    = PdfBfs.Completed (set_world w' st) /\
    (w' = world st \/ w' = fst (time_time (world st))).
Proof.
  intros Hlate.
  pose proof (regional_loop_condition_true start_time max_time_seconds st)
    as Hc.
  pose proof (regional_loop_condition_false start_time max_time_seconds st)
    as Hf.
  assert (Hsame : set_world (world st) st = st) by now destruct st.
  destruct (loop_condition start_time max_time_seconds st) as [st1 c] eqn:Hl.
  simpl in Hc, Hf. destruct c.
  - destruct (Hc eq_refl) as (_ & _ & Hlt).
    exfalso. exact (Qlt_not_le _ _ Hlt Hlate).
  - assert (Hst1 : exists w', st1 = set_world w' st /\
                     (w' = world st \/ w' = fst (time_time (world st)))).
    { unfold loop_condition in Hl.
      destruct (queue st).
      - injection Hl as <-. exists (world st). auto.
      - destruct (urls_processed st <? max_urls)%Z.
        + destruct (time_time (world st)) as [w' t]. injection Hl as <- _.
          exists w'. auto.
        + injection Hl as <-. exists (world st). auto. }
    destruct Hst1 as (w' & -> & Hw'). exists w'. split; [|exact Hw'].
    destruct fuel; simpl; now rewrite Hl.
Qed.

Lemma regional_crawl_cond (P : State W -> Prop) (self : Crawler)
    (starting_urls allowed_domains : list string) (max_time_minutes : Z)
    (fuel : nat) (w : W) :
  (forall st w', P st -> P (set_world w' st)) ->
  (forall st, P st -> queue st <> [] -> (urls_processed st < max_urls)%Z ->
              P (iteration (max_depth self) allowed_domains st)) ->
  (forall w0, P (initial_state self starting_urls w0)) ->
  P (PdfBfs.outcome_state
       (crawl self starting_urls allowed_domains max_time_minutes fuel w)).
Proof.
  intros Hworld Hstep Hinit. unfold crawl.
  destruct (time_time w) as [w0 start_time].
  apply regional_bfs_loop_invariant_cond; auto.
Qed.

(** X12.  The accounting of the regional crawl: [urls_processed] stays
    between 0 and 50, it counts the URLs added to [self.visited_urls]
    (which keeps the URLs of earlier calls), and the pages handed to the
    browser are at most that many, since a URL rejected by the domain test
    is counted without being fetched.  When the loop has left, the queue is
    empty, or 50 URLs were processed, or a clock reading reached the time
    limit. *)
Theorem X12_regional_accounting (self : Crawler)
    (starting_urls allowed_domains : list string) (max_time_minutes : Z)
    (fuel : nat) (w : W) :
  let out := crawl self starting_urls allowed_domains max_time_minutes fuel w in
  let st := PdfBfs.outcome_state out in
  (0 <= urls_processed st <= 50)%Z /\
  size (visited_urls st)
  = size (self_visited_urls self) + Z.to_nat (urls_processed st) /\
  length (fetched (log st)) <= Z.to_nat (urls_processed st) /\
  match out with
  | PdfBfs.Completed _ =>
      queue st = [] \/ urls_processed st = 50%Z \/
      exists w_before,
        world st = fst (time_time w_before) /\
        (inject_Z (max_time_minutes * 60)
         <= snd (time_time w_before) - snd (time_time w))%Q
  | PdfBfs.Running _ => True
  end.
Proof.
  intros out st.
  assert (Inv : RegionalSpec.processed_invariant (self_visited_urls self) st).
  { apply (regional_crawl_cond
             (RegionalSpec.processed_invariant (self_visited_urls self))).
    - intros s w' Hs. destruct Hs. now split.
    - intros s Hs _ Hlt. now apply iteration_processed.
    - intros w0. split; simpl; try reflexivity; unfold max_urls; lia. }
  destruct Inv as [Hn Hb Hc Hf]. unfold max_urls in Hb.
  split; [lia|]. split; [exact Hc|]. split; [exact Hf|].
  destruct out as [st'|st'] eqn:Hout; [|exact I].
  unfold out, crawl in Hout. destruct (time_time w) as [w0 start_time].
  apply regional_bfs_loop_completed in Hout.
  simpl in st. subst st. unfold max_urls in Hout.
  destruct Hout as [Hq | [Hp | Ht]]; [now left | right; left; lia |].
  right. right. exact Ht.
Qed.

(** X13.  What the regional crawl reports about states: every code in
    [state_coverage] is a key of [us_states], so that
    [states_covered_count] is at most 51 and [regional_completeness] lies
    between 0 and 51/50. *)
Theorem X13_regional_coverage_bounds (self : Crawler)
    (starting_urls allowed_domains : list string) (max_time_minutes : Z)
    (fuel : nat) (w : W) (elapsed_time : Q) :
  let st := PdfBfs.outcome_state
              (crawl self starting_urls allowed_domains max_time_minutes
                 fuel w) in
  let r := result elapsed_time st in
  (forall c, c ∈ res_state_coverage r -> c ∈ map fst us_states) /\
  states_covered_count r <= 51 /\
  (0 <= regional_completeness r)%Q /\
  (regional_completeness r <= 51 # 50)%Q.
Proof.
  intros st r.
  assert (Inv : RegionalSpec.records_ok allowed_domains st).
  { apply (regional_crawl_cond (RegionalSpec.records_ok allowed_domains)).
    - intros s w' Hs. destruct Hs. now split.
    - intros s Hs _ _. now apply iteration_records_ok.
    - intros w0. split; simpl.
      + intros u Hu. inversion Hu.
      + intros code urls Hl. now rewrite lookup_empty in Hl.
      + intros c Hc. now apply elem_of_empty in Hc. }
  destruct Inv as [_ _ Rc].
  assert (Hsub : state_coverage st ⊆ list_to_set (map fst us_states)).
  { intros c Hc. apply elem_of_list_to_set. apply is_state_code_codes.
    now apply Rc. }
  assert (Hsize : size (state_coverage st) <= 51).
  { apply subseteq_size in Hsub.
    replace (size (list_to_set (map fst us_states) : gset string)) with 51
      in Hsub by (vm_compute; reflexivity).
    exact Hsub. }
  split.
  - intros c Hc. simpl in Hc. apply elem_of_elements in Hc.
    apply is_state_code_codes. now apply Rc.
  - split; [exact Hsize|]. now apply completeness_bounds.
Qed.

(** X14.  What the regional crawl records about documents: every URL in
    [all_pdfs] contains [.pdf] in lower case and passed the domain test;
    every key of [regional_pdfs] is a key of [us_states], and every URL
    filed under a state is in [all_pdfs]. *)
Theorem X14_regional_documents (self : Crawler)
    (starting_urls allowed_domains : list string) (max_time_minutes : Z)
    (fuel : nat) (w : W) (elapsed_time : Q) :
  let st := PdfBfs.outcome_state
              (crawl self starting_urls allowed_domains max_time_minutes
                 fuel w) in
  let r := result elapsed_time st in
  (forall u, u ∈ res_all_pdfs r ->
     contains ".pdf" (lower u) = true /\
     domain_allowed allowed_domains u = true) /\
  (forall code urls, res_regional_pdfs r !! code = Some urls ->
     code ∈ map fst us_states /\
     forall u, u ∈ urls -> u ∈ res_all_pdfs r).
Proof.
  intros st r.
  assert (Inv : RegionalSpec.records_ok allowed_domains st).
  { apply (regional_crawl_cond (RegionalSpec.records_ok allowed_domains)).
    - intros s w' Hs. destruct Hs. now split.
    - intros s Hs _ _. now apply iteration_records_ok.
    - intros w0. split; simpl.
      + intros u Hu. inversion Hu.
      + intros code urls Hl. now rewrite lookup_empty in Hl.
      + intros c Hc. now apply elem_of_empty in Hc. }
  destruct Inv as [Rp Rr _]. split.
  - intros u Hu. destruct (Rp u Hu) as [Hpdf Hd]. split; [|exact Hd].
    now rewrite regional_is_pdf_contains in Hpdf.
  - intros code urls Hl. destruct (Rr code urls Hl) as [Hc Hu].
    split; [now apply is_state_code_codes | exact Hu].
Qed.


End RegionalCrawlerExtras.

Lemma X10_witness :
  exists fuel r,
    forall fuel', fuel <= fuel' ->
      @RegionalEnhancedCrawler.discover_regional_content_bfs UrlModel.py_urllib
        Q (UrlModel.table_web Examples.ohio_pages 1) Examples.regional_crawler
        ["https://x.test/"; "https://x.test/states/"] ["x.test"] 5 fuel' 0%Q
      = Some r.
Proof.
  apply (@X10_regional_returns UrlModel.py_urllib Q
           (UrlModel.table_web Examples.ohio_pages 1)).
  repeat constructor.
Defined.


Lemma X11_witness :
  exists w',
    @RegionalEnhancedCrawler.bfs_loop UrlModel.py_urllib Q
      (UrlModel.table_web Examples.ohio_pages 1) 3 ["x.test"] 0%Q 60 5
      (@RegionalEnhancedCrawler.initial_state UrlModel.py_urllib Q
            Examples.regional_crawler
         ["https://x.test/"] 100%Q)
    = PdfBfs.Completed
        (RegionalEnhancedCrawler.set_world w'
           (@RegionalEnhancedCrawler.initial_state UrlModel.py_urllib Q
            Examples.regional_crawler
              ["https://x.test/"] 100%Q)) /\
    (w' = 100%Q \/
     w' = fst (@time_time Q (UrlModel.table_web Examples.ohio_pages 1) 100%Q)).
Proof.
  apply (@X11_regional_deadline UrlModel.py_urllib Q
           (UrlModel.table_web Examples.ohio_pages 1) 3 ["x.test"] 0%Q 60 5
           (@RegionalEnhancedCrawler.initial_state UrlModel.py_urllib Q
            Examples.regional_crawler
              ["https://x.test/"] 100%Q)).
  vm_compute. discriminate.
Defined.


Section RegionalScoreFacts.

Import RegionalEnhancedCrawler.

Lemma foldl_cond_add_bounds {A : Type} (c : A -> bool) (n : Z) (l : list A)
    (init : Z) :
  (0 <= n)%Z ->
  let r := foldl (fun acc y => if c y then (acc + n)%Z else acc) init l in
  (init <= r <= init + n * Z.of_nat (length l))%Z /\
  ((exists y, In y l /\ c y = true) -> (init + n <= r)%Z).
Proof.
  intros Hn. revert init. induction l as [|y l IH]; intros init; cbn [foldl].
  - split; [simpl; lia | intros (y & [] & _)].
  - cbv zeta in *.
    destruct (IH (if c y then (init + n)%Z else init)) as [Hb Hex].
    assert (Hlen : Z.of_nat (length (y :: l)) = (Z.of_nat (length l) + 1)%Z)
      by (simpl; lia).
    rewrite Hlen, Z.mul_add_distr_l, Z.mul_1_r.
    set (k := (n * Z.of_nat (length l))%Z) in *.
    split.
    + destruct (c y); lia.
    + intros (z & [<- | Hz] & Hc).
      * rewrite Hc in Hb |- *. lia.
      * assert (Hge : (init <= if c y then init + n else init)%Z)
          by (destruct (c y); lia).
        specialize (Hex (ex_intro _ z (conj Hz Hc))). lia.
Qed.

(** X16.  [score_regional_relevance] lies between 0 and 54, and every
    signal counts: a URL that matches one of [regional_url_indicators]
    scores 5 or more, a text that contains one of [regional_keywords] 2 or
    more, one of the five high-value terms 3 or more, and a text that
    contains the lower-cased name of a state 1 or more. *)
Theorem X16_score_bounds (url text : string) :
  let score := score_regional_relevance url text in
  (0 <= score <= 54)%Z /\
  (existsb (fun pattern => Re.search pattern (lower url))
     regional_url_indicators = true -> (5 <= score)%Z) /\
  (forall keyword, In keyword regional_keywords ->
     contains keyword (lower text) = true -> (2 <= score)%Z) /\
  (forall term, In term high_value_terms ->
     contains term (lower text) = true -> (3 <= score)%Z) /\
  (forall code name, In (code, name) us_states ->
     contains (lower name) (lower text) = true -> (1 <= score)%Z).
Proof.
  unfold score_regional_relevance. cbv zeta.
  set (s1 := if existsb _ regional_url_indicators then (0 + 5)%Z else 0%Z).
  set (s2 := foldl _ s1 regional_keywords).
  set (mentions := Z.of_nat (length (List.filter _ us_states))).
  set (s3 := (s2 + Z.min mentions 10)%Z).
  assert (H1 : (0 <= s1 <= 5)%Z)
    by (unfold s1; destruct (existsb _ regional_url_indicators); lia).
  destruct (foldl_cond_add_bounds
              (fun keyword => contains keyword (lower text)) 2
              regional_keywords s1 ltac:(lia)) as [H2 H2'].
  fold s2 in H2, H2'.
  assert (Hm : (0 <= mentions)%Z) by (unfold mentions; lia).
  destruct (foldl_cond_add_bounds
              (fun term => contains term (lower text)) 3
              high_value_terms s3 ltac:(lia)) as [H3 H3'].
  change (Z.of_nat (length regional_keywords)) with 12%Z in H2.
  change (Z.of_nat (length high_value_terms)) with 5%Z in H3.
  assert (Hs1 : existsb (fun pattern => Re.search pattern (lower url))
                  regional_url_indicators = true -> s1 = 5%Z)
    by (intros He; unfold s1; now rewrite He).
  assert (Hpos : forall code name, In (code, name) us_states ->
            contains (lower name) (lower text) = true -> (1 <= mentions)%Z).
  { intros code name Hin Hc. unfold mentions.
    assert (Hf : In (code, name)
                   (List.filter (fun '(_, state_name) =>
                      contains (lower state_name) (lower text)) us_states))
      by (apply filter_In; now split).
    destruct (List.filter _ us_states); [destruct Hf | simpl; lia]. }
  assert (Hs3 : s3 = (s2 + Z.min mentions 10)%Z) by reflexivity.
  set (s4 := foldl _ s3 high_value_terms) in *.
  clearbody s4 s3 s2 mentions s1.
  split; [lia|]. split; [|split; [|split]].
  - intros He. specialize (Hs1 He). lia.
  - intros keyword Hin Hc.
    specialize (H2' (ex_intro _ keyword (conj Hin Hc))). lia.
  - intros term Hin Hc.
    specialize (H3' (ex_intro _ term (conj Hin Hc))). lia.
  - intros code name Hin Hc. specialize (Hpos code name Hin Hc). lia.
Qed.

End RegionalScoreFacts.

Section CategorizeFacts.

Import RegionalEnhancedCrawler.

(** The three kinds of indicators. *)
Lemma indicator_forms (url text indicator : string) :
  indicator ∈ detect_regional_indicators url text ->
  indicator = "regional_url_pattern" \/
  (exists keyword, In keyword regional_keywords /\
     indicator = "keyword_" +:+ replace " " "_" keyword) \/
  (exists code name, In (code, name) us_states /\
     indicator = "state_" +:+ code).
Proof.
  unfold detect_regional_indicators.
  rewrite (elem_of_foldl_cond _
             (fun p => contains (lower (snd p)) (lower text))
             (fun p => "state_" +:+ fst p))
    by (intros acc [c n]; reflexivity).
  rewrite (elem_of_foldl_cond _
             (fun keyword => contains keyword (lower text))
             (fun keyword => "keyword_" +:+ replace " " "_" keyword))
    by reflexivity.
  rewrite (elem_of_foldl_cond _
             (fun p => contains ("/" +:+ lower (fst p) +:+ "/") (lower url)
                       || contains (fst p +:+ "_") (lower url))
             (fun p => "state_" +:+ fst p))
    by (intros acc [c n]; reflexivity).
  rewrite (elem_of_foldl_cond _
             (fun pattern => Re.search pattern (lower url))
             (fun _ => "regional_url_pattern"))
    by reflexivity.
  intros [[[[He | (p & _ & _ & <-)] | ([c n] & Hin & _ & <-)]
           | (k & Hin & _ & <-)] | ([c n] & Hin & _ & <-)].
  - now apply elem_of_empty in He.
  - now left.
  - right. right. now exists c, n.
  - right. left. now exists k.
  - right. right. now exists c, n.
Qed.

Lemma state_tag_key (code name : string) :
  In (code, name) us_states ->
  startswith "state_" ("state_" +:+ code) = true /\
  split_field1 ("state_" +:+ code) = code.
Proof.
  intros Hin. simpl in Hin.
  repeat (destruct Hin as [Hin | Hin];
          [injection Hin as <- <-; split; reflexivity|]).
  contradiction.
Qed.

Lemma keyword_tag_inactive (keyword : string) :
  In keyword regional_keywords ->
  startswith "state_" ("keyword_" +:+ replace " " "_" keyword) = false.
Proof.
  intros Hin. simpl in Hin.
  repeat (destruct Hin as [Hin | Hin]; [subst keyword; reflexivity|]).
  contradiction.
Qed.

Lemma is_state_code_In (code : string) :
  is_state_code code = true <-> exists name, In (code, name) us_states.
Proof.
  unfold is_state_code. rewrite existsb_exists. split.
  - intros ([c n] & Hin & Heq). apply String.eqb_eq in Heq as <-. now exists n.
  - intros (n & Hin). exists (code, n). split; [exact Hin|].
    apply String.eqb_refl.
Qed.

(** An indicator that [categorize_pdf] files is the tag of its key. *)
Lemma active_indicator (url text indicator : string) :
  indicator ∈ detect_regional_indicators url text ->
  startswith "state_" indicator = true ->
  indicator = "state_" +:+ split_field1 indicator.
Proof.
  intros Hin Hs.
  destruct (indicator_forms _ _ _ Hin)
    as [-> | [(k & Hk & ->) | (c & n & Hc & ->)]].
  - vm_compute in Hs. discriminate Hs.
  - rewrite (keyword_tag_inactive k Hk) in Hs. discriminate Hs.
  - rewrite (proj2 (state_tag_key c n Hc)). reflexivity.
Qed.

Section Fold.

Variable absolute_url : string.

Local Abbreviation categorize_step :=
  (RegionalSpec.categorize_step absolute_url).

Lemma categorize_step_other (m : gmap string (list string))
    (indicator code : string) :
  (startswith "state_" indicator = true ->
   is_state_code (split_field1 indicator) = true ->
   split_field1 indicator <> code) ->
  categorize_step m indicator !! code = m !! code.
Proof.
  intros Hne. unfold RegionalSpec.categorize_step.
  destruct (startswith "state_" indicator); [|reflexivity]. cbv zeta.
  destruct (is_state_code (split_field1 indicator)); [|reflexivity].
  apply lookup_insert_ne. now apply Hne.
Qed.

Lemma categorize_fold_other (l : list string) (code : string) :
  forall m,
    (forall indicator, indicator ∈ l ->
       startswith "state_" indicator = true ->
       is_state_code (split_field1 indicator) = true ->
       split_field1 indicator <> code) ->
    foldl categorize_step m l !! code = m !! code.
Proof.
  induction l as [|i l IH]; intros m Hl; [reflexivity|]. cbn [foldl].
  rewrite IH by (intros j Hj; apply Hl; now right).
  apply categorize_step_other. apply Hl. left.
Qed.

Lemma categorize_fold_hit (l : list string) (code : string) :
  NoDup l ->
  "state_" +:+ code ∈ l ->
  startswith "state_" ("state_" +:+ code) = true ->
  split_field1 ("state_" +:+ code) = code ->
  is_state_code code = true ->
  (forall indicator, indicator ∈ l ->
     startswith "state_" indicator = true ->
     indicator = "state_" +:+ split_field1 indicator) ->
  forall m,
    foldl categorize_step m l !! code
    = Some (default [] (m !! code) ++ [absolute_url]).
Proof.
  intros Hnd Hin Hs Hk Hc Hl.
  induction l as [|i l IH]; intros m; [inversion Hin|].
  apply NoDup_cons in Hnd as [Hni Hnd]. cbn [foldl].
  destruct (decide (i = "state_" +:+ code)) as [-> | Hne].
  - rewrite categorize_fold_other.
    + unfold RegionalSpec.categorize_step. rewrite Hs. cbv zeta. rewrite Hk, Hc.
      apply lookup_insert_eq.
    + intros j Hj Hjs _ Hjk. apply Hni.
      rewrite (Hl j (ltac:(now right)) Hjs) in Hj. now rewrite Hjk in Hj.
  - apply elem_of_cons in Hin as [Heq | Hin]; [congruence|].
    rewrite IH; [|exact Hnd | exact Hin | intros j Hj; apply Hl; now right].
    rewrite categorize_step_other; [reflexivity|].
    intros His _ Hik. apply Hne.
    rewrite (Hl i (ltac:(left)) His). now rewrite Hik.
Qed.

End Fold.

(** X17.  How [categorize_pdf] files a document: under the code of every
    state of [us_states] whose tag [detect_regional_indicators] yields for
    the URL and the link text, the URL is appended once to the list of that
    state (a new list when the state had none); every other key is left as
    it was. *)
Theorem X17_categorize_pdf (absolute_url link_text code : string)
    (regional_pdfs : gmap string (list string)) :
  categorize_pdf absolute_url link_text regional_pdfs !! code
  = if bool_decide ("state_" +:+ code
                    ∈ detect_regional_indicators absolute_url link_text)
       && is_state_code code
    then Some (default [] (regional_pdfs !! code) ++ [absolute_url])
    else regional_pdfs !! code.
Proof.
  change (categorize_pdf absolute_url link_text regional_pdfs)
    with (foldl (RegionalSpec.categorize_step absolute_url) regional_pdfs
            (elements (detect_regional_indicators absolute_url link_text))).
  destruct (bool_decide _ && is_state_code code) eqn:Hcond.
  - apply andb_true_iff in Hcond as [Htag Hc].
    apply bool_decide_eq_true in Htag.
    destruct (proj1 (is_state_code_In code) Hc) as (name & Hin).
    destruct (state_tag_key code name Hin) as [Hs Hk].
    apply categorize_fold_hit; try assumption.
    + apply NoDup_elements.
    + now apply elem_of_elements.
    + intros i Hi. apply elem_of_elements in Hi.
      now apply (active_indicator absolute_url link_text).
  - apply categorize_fold_other.
    intros i Hi His Hic Hik. apply elem_of_elements in Hi.
    pose proof (active_indicator _ _ _ Hi His) as Hform.
    rewrite Hik in Hform, Hic. subst i.
    apply andb_false_iff in Hcond as [Htag | Hc]; [|congruence].
    now apply bool_decide_eq_false in Htag.
Qed.

End CategorizeFacts.

Section PayerDomainFacts.

Import ComprehensivePDFDiscovery.

Context `{UrlLib} `{Web W}.

(** The list of allowed domains that [test_single_payer] builds accepts a
    URL exactly when [base_domain] occurs in its network location. *)
Lemma payer_domains_redundant (base_domain url : string) :
  PdfBfs.domain_allowed
    ([base_domain]
     ++ (if negb (startswith "www." base_domain)
         then ["www." +:+ base_domain] else [])
     ++ map (fun subdomain => subdomain +:+ "." +:+ base_domain)
          portal_subdomains)
    url
  = contains base_domain (netloc url).
Proof.
  unfold PdfBfs.domain_allowed. cbn [app existsb].
  destruct (contains base_domain (netloc url)) eqn:Hc; [reflexivity|].
  cbn [orb]. apply not_true_is_false. intros He.
  apply existsb_exists in He as (domain & Hin & Hd).
  assert (Hsub : contains base_domain domain = true).
  { apply in_app_or in Hin as [Hin | Hin].
    - destruct (negb (startswith "www." base_domain)); [|destruct Hin].
      destruct Hin as [<- | []]. apply contains_app_r, contains_refl.
    - apply in_map_iff in Hin as (subdomain & <- & _).
      apply contains_app_r, contains_app_r, contains_refl. }
  rewrite (contains_trans _ _ _ Hsub Hd) in Hc. discriminate.
Qed.

(** X18.  A crawl started by [test_single_payer] stays on [base_domain]:
    the allowed domains it builds accept a URL exactly when [base_domain]
    occurs in the URL's network location, so the entries for [www.] and for
    the portal subdomains add nothing; every document of a successful
    result has [base_domain] in its network location, and so has every
    visited URL that is not one of the portal URLs the crawl started
    from. *)
Theorem X18_payer_domain (self : Crawler) (base_domain : string)
    (known_portal : option string) (time_limit_minutes : Z) (fuel : nat)
    (w w' : W) (r : PayerResult) :
  test_single_payer self base_domain known_portal time_limit_minutes fuel w
  = (w', PayerDone r) ->
  (forall url, PdfBfs.domain_allowed (allowed_domains_used r) url
               = contains base_domain (netloc url)) /\
  (forall u, u ∈ pdfs_discovered (bfs_result r) ->
     contains base_domain (netloc u) = true) /\
  (forall u, u ∈ urls_visited (bfs_result r) ->
     u ∈ portal_urls_used r \/ contains base_domain (netloc u) = true) /\
  portal_urls_used r <> [].
Proof.
  unfold test_single_payer.
  destruct (time_time w) as [w0 start_time].
  destruct (discover_provider_portals base_domain known_portal w0)
    as [w1 portal_urls].
  destruct portal_urls as [|first_url others]; [discriminate|].
  set (portal_urls := first_url :: others).
  set (allowed_domains := ([base_domain] ++ _ ++ _)%list).
  unfold discover_pdfs_bfs.
  pose proof (crawl_leaf (config self) allowed_domains ∅ portal_urls fuel w1)
    as Hleaf.
  pose proof (comprehensive_crawl_invariant self portal_urls allowed_domains
                fuel w1) as Hinv.
  change (PdfBfs.bfs_loop (config self) allowed_domains fuel
            (PdfBfs.initial_state ∅ portal_urls w1))
    with (crawl self portal_urls allowed_domains fuel w1) in Hleaf.
  destruct (crawl self portal_urls allowed_domains fuel w1) as [st|st];
    [|discriminate].
  simpl in Hleaf, Hinv.
  destruct (time_time (PdfBfs.world st)) as [w3 t].
  intros Heq. injection Heq as _ <-. simpl.
  assert (Hdom : forall url, PdfBfs.domain_allowed allowed_domains url
                             = contains base_domain (netloc url))
    by (intros url; apply payer_domains_redundant).
  destruct Hleaf as [_ _ Lp _].
  destruct Hinv as [_ _ _ Iv _ _ Io _].
  split; [exact Hdom|]. split; [|split; [|discriminate]].
  - intros u Hu. apply elem_of_elements in Hu.
    destruct (Lp u Hu) as [_ Hd]. now rewrite Hdom in Hd.
  - intros u Hu. apply elem_of_elements in Hu.
    destruct (Iv u Hu) as [Hu0 | Hf]; [now apply elem_of_empty in Hu0|].
    unfold PdfBfs.fetched in Hf.
    rewrite elem_of_reverse, list_elem_of_omap in Hf.
    destruct Hf as (e & He & Hsome).
    destruct e as [d u'| |]; try discriminate. injection Hsome as ->.
    destruct (Io d u He) as [[_ Hseed] | [_ Hd]]; [now left|].
    right. now rewrite Hdom in Hd.
Qed.

End PayerDomainFacts.

Lemma X18_witness :
  exists r,
    snd (@ComprehensivePDFDiscovery.test_single_payer UrlModel.py_urllib Q
           (UrlModel.table_web Examples.scenario_pages 1)
           Examples.comprehensive_crawler "x.test" (Some "https://x.test/")
           3 10 0%Q)
    = ComprehensivePDFDiscovery.PayerDone r /\
    ComprehensivePDFDiscovery.portal_urls_used r <> [].
Proof.
  eexists. split; [vm_compute; reflexivity|].
  refine (proj2 (proj2 (proj2
    (@X18_payer_domain UrlModel.py_urllib Q
       (UrlModel.table_web Examples.scenario_pages 1)
       Examples.comprehensive_crawler "x.test" (Some "https://x.test/")
       3 10 0%Q _ _ _)))).
  vm_compute. reflexivity.
Defined.


Section ZoneFacts.

Import PayerPortalCrawler.

Lemma startswith_contains (p s : string) :
  startswith p s = true -> contains p s = true.
Proof. intros Hs. destruct s; simpl contains; now rewrite Hs. Qed.

Lemma startswith_drop_contains (p : string) (k : nat) :
  forall s, startswith p (drop_chars k s) = true -> contains p s = true.
Proof.
  induction k as [|k IH]; intros s Hs.
  - now apply startswith_contains.
  - destruct s as [|c s]; [now apply startswith_contains|].
    simpl in Hs. cbn [contains]. rewrite (IH s Hs). apply orb_true_r.
Qed.

Lemma startswith_substring (p s : string) :
  startswith p s = true -> substring 0 (String.length p) s = p.
Proof.
  revert s. induction p as [|a p IH]; intros s Hs.
  - now destruct s.
  - destruct s as [|b s]; [discriminate|]. simpl in Hs.
    apply andb_true_iff in Hs as [Hab Hs]. apply Ascii.eqb_eq in Hab as ->.
    simpl. now rewrite IH.
Qed.

Lemma startswith_drop_substring (p : string) (k : nat) :
  forall s, startswith p (drop_chars k s) = true ->
            substring k (String.length p) s = p.
Proof.
  induction k as [|k IH]; intros s Hs.
  - now apply startswith_substring.
  - destruct s as [|c s].
    + simpl in Hs. destruct p; [reflexivity | discriminate].
    + simpl. now apply IH.
Qed.

(** What a pattern of one alternation matches at the start of [s]: the
    first alternative that [s] starts with. *)
Lemma match_here_anyof (alternatives : list string) (s : string) (n : nat) :
  match_here [AnyOf alternatives] s = Some n ->
  exists a, In a alternatives /\ startswith a s = true /\ n = String.length a.
Proof.
  cbn [match_here]. induction alternatives as [|a l IH]; [discriminate|].
  cbn [first_some]. destruct (startswith a s) eqn:Hs.
  - simpl. intros Hn. injection Hn as <-. exists a.
    split; [now left|]. split; [exact Hs | lia].
  - intros Hn. destruct (IH Hn) as (b & Hb & Hbs & Hbn). exists b.
    split; [now right | now split].
Qed.

Lemma match_here_anyof_some (alternatives : list string) (s a : string) :
  In a alternatives -> startswith a s = true ->
  exists b, In b alternatives /\
            match_here [AnyOf alternatives] s = Some (String.length b).
Proof.
  cbn [match_here]. induction alternatives as [|x l IH]; [intros []|].
  intros Hin Hs. cbn [first_some]. destruct (startswith x s) eqn:Hx.
  - exists x. split; [now left|]. simpl. f_equal. lia.
  - destruct Hin as [-> | Hin]; [congruence|].
    destruct (IH Hin Hs) as (b & Hb & Hm). exists b. split; [now right|].
    exact Hm.
Qed.

(** Every match that [finditer] reports is a match of the pattern at its
    start position, and is not empty. *)
Lemma finditer_from_sound (pieces : list piece) (s : string) :
  forall skip pos p q,
    In (p, q) (finditer_from pieces skip pos s) ->
    exists k, p = pos + k /\ p < q /\
              match_here pieces (drop_chars k s) = Some (q - p).
Proof.
  induction s as [|c s IH]; intros skip pos p q Hin; [destruct Hin|].
  assert (Hrec : forall skip',
             In (p, q) (finditer_from pieces skip' (S pos) s) ->
             exists k, p = pos + k /\ p < q /\
               match_here pieces (drop_chars k (String c s)) = Some (q - p)).
  { intros skip' Hin'. destruct (IH _ _ _ _ Hin') as (k & Hp & Hlt & Hm).
    exists (S k). split; [lia|]. split; [exact Hlt | exact Hm]. }
  cbn [finditer_from] in Hin. destruct skip as [|skip]; [|now apply (Hrec skip)].
  destruct (match_here pieces (String c s)) as [[|n]|] eqn:Hm;
    try now apply (Hrec 0).
  destruct Hin as [Heq | Hin]; [|now apply (Hrec n)].
  injection Heq as <- <-. exists 0. split; [lia|]. split; [lia|].
  cbn [drop_chars]. rewrite Hm. f_equal. lia.
Qed.

(** [finditer] finds a match when an alternative occurs in the text. *)
Lemma finditer_from_anyof_nonempty (alternatives : list string) (a : string) :
  Forall (fun x => x <> "") alternatives ->
  In a alternatives ->
  forall s pos, contains a s = true ->
                finditer_from [AnyOf alternatives] 0 pos s <> [].
Proof.
  intros Hall Hin.
  assert (Hne : forall x, In x alternatives -> x <> "").
  { intros x Hx. rewrite Forall_forall in Hall. apply Hall.
    now apply list_elem_of_In. }
  clear Hall. induction s as [|c s IH]; intros pos Hc.
  - simpl in Hc. rewrite orb_false_r in Hc.
    destruct a; [now destruct (Hne "" Hin) | discriminate].
  - cbn [finditer_from]. cbn [contains] in Hc.
    destruct (startswith a (String c s)) eqn:Hs.
    + destruct (match_here_anyof_some alternatives _ a Hin Hs)
        as (b & Hb & ->).
      destruct b as [|x b]; [now destruct (Hne "" Hb)|]. discriminate.
    + simpl in Hc.
      destruct (match_here [AnyOf alternatives] (String c s)) as [[|n]|];
        try (now apply IH); discriminate.
Qed.

(** X19.  The state zones of [_extract_geographic_zones], for a text of
    ASCII characters: the value of every zone of type [state] is the
    upper-cased form of one of the 100 texts of the two state patterns (50
    names, 50 codes) that occurs in the lower-cased text, anywhere and also
    inside a word; and whenever one of these texts occurs in the
    lower-cased text, a zone of type [state] is reported. *)
Theorem X19_state_zones (text : string) :
  Wellformed.is_ascii text = true ->
  let zones := _extract_geographic_zones text in
  (forall z, In z zones -> zone_type z = "state" ->
     exists a, In a ZoneSpec.state_alternatives /\
               zone_value z = upper a /\
               contains a (lower text) = true) /\
  (forall a, In a ZoneSpec.state_alternatives ->
     contains a (lower text) = true ->
     exists z, In z zones /\ zone_type z = "state").
Proof.
  intros _. unfold _extract_geographic_zones. cbv zeta.
  set (s := lower text).
  set (state_zone := fun '(m_start, m_end) =>
         {| zone_type := "state";
            zone_value := upper (slice m_start m_end s);
            zone_context := slice (m_start - 50) (m_end + 50) text |}).
  set (region_zone := fun '(m_start, m_end) =>
         {| zone_type := "region";
            zone_value := slice m_start m_end s;
            zone_context := slice (m_start - 50) (m_end + 50) text |}).
  split.
  - intros z Hz Htype. apply in_app_or in Hz as [Hz | Hz].
    + apply in_concat in Hz as (l & Hl & Hz).
      apply in_map_iff in Hl as (pattern & <- & Hpat).
      apply in_map_iff in Hz as ([p q] & <- & Hm).
      assert (Halt : exists alternatives, pattern = [AnyOf alternatives])
        by (destruct Hpat as [<- | [<- | []]]; eauto).
      destruct Halt as (alternatives & ->).
      destruct (finditer_from_sound _ _ _ _ _ _ Hm) as (k & Hp & Hlt & Hmatch).
      destruct (match_here_anyof _ _ _ Hmatch) as (a & Ha & Hs & Hlen).
      simpl in Hp. subst k. exists a. split; [|split].
      * unfold ZoneSpec.state_alternatives. apply in_flat_map.
        exists [AnyOf alternatives]. split; [exact Hpat|].
        simpl. now rewrite app_nil_r.
      * simpl. unfold slice. rewrite Hlen.
        now rewrite (startswith_drop_substring a p s Hs).
      * now apply (startswith_drop_contains a p).
    + apply in_concat in Hz as (l & Hl & Hz).
      apply in_map_iff in Hl as (pattern & <- & _).
      apply in_map_iff in Hz as ([p q] & <- & _). discriminate Htype.
  - intros a Ha Hc. unfold ZoneSpec.state_alternatives in Ha.
    apply in_flat_map in Ha as (pattern & Hpat & Ha).
    assert (Halt : exists alternatives,
               pattern = [AnyOf alternatives] /\
               Forall (fun x => x <> "") alternatives).
    { destruct Hpat as [<- | [<- | []]]; eexists; (split; [reflexivity|]);
        repeat (constructor; [discriminate|]); constructor. }
    destruct Halt as (alternatives & -> & Hne).
    simpl in Ha. rewrite app_nil_r in Ha.
    pose proof (finditer_from_anyof_nonempty alternatives a Hne Ha s 0 Hc)
      as Hfound.
    destruct (finditer_from [AnyOf alternatives] 0 0 s) as [|m ms] eqn:Hit;
      [congruence|].
    exists (state_zone m). split; [|now destruct m].
    apply in_or_app. left. apply in_concat.
    exists (map state_zone (finditer [AnyOf alternatives] s)).
    split.
    + apply in_map_iff. exists [AnyOf alternatives]. now split.
    + unfold finditer. rewrite Hit. now left.
Qed.

End ZoneFacts.

Lemma X19_witness :
  exists z,
    In z (PayerPortalCrawler._extract_geographic_zones "Provider manual") /\
    PayerPortalCrawler.zone_type z = "state".
Proof.
  refine (proj2 (X19_state_zones "Provider manual" _) "al" _ _).
  - reflexivity.
  - vm_compute. tauto.
  - reflexivity.
Defined.


Section ComprehensiveRunFacts.

Import ComprehensivePDFDiscovery ComprehensiveRun.

Context `{UrlLib} `{Web W}.

Lemma test_rows_none (time_per_payer_minutes : Z) (fuel : nat)
    (rows : list PayerRow) :
  foldl (test_row time_per_payer_minutes fuel) None rows = None.
Proof. induction rows as [|row rows IH]; [reflexivity | exact IH]. Qed.

(** A successful test of one payer visits at most [max_urls_per_payer]
    pages. *)
Lemma test_single_payer_budget (self : Crawler) (base_domain : string)
    (known_portal : option string) (time_limit_minutes : Z) (fuel : nat)
    (w w' : W) (r : PayerResult) :
  test_single_payer self base_domain known_portal time_limit_minutes fuel w
  = (w', PayerDone r) ->
  total_urls_visited (bfs_result r)
  <= Z.to_nat (Z.max 0 (max_urls_per_payer self)).
Proof.
  unfold test_single_payer.
  destruct (time_time w) as [w0 start_time].
  destruct (discover_provider_portals base_domain known_portal w0)
    as [w1 portal_urls].
  destruct portal_urls as [|first_url others]; [discriminate|].
  set (portal_urls := first_url :: others).
  set (allowed_domains := ([base_domain] ++ _ ++ _)%list).
  unfold discover_pdfs_bfs.
  destruct (comprehensive_budget self portal_urls allowed_domains fuel w1)
    as [_ Hbound].
  destruct (crawl self portal_urls allowed_domains fuel w1) as [st|st];
    [|discriminate].
  cbn [PdfBfs.outcome_state PdfBfs.max_urls config] in Hbound.
  rewrite size_empty in Hbound.
  destruct (time_time (PdfBfs.world st)) as [w3 t].
  intros Heq. injection Heq as _ <-. simpl. lia.
Qed.

(** What a run keeps, row after row. *)
Lemma test_rows_invariant (time_per_payer_minutes : Z) (fuel : nat)
    (rows : list PayerRow) :
  forall (w w' : W) (self self' : Tester),
    foldl (test_row time_per_payer_minutes fuel) (Some (w, self)) rows
    = Some (w', self') ->
    crawler self' = crawler self /\
    payer_df self' = payer_df self /\
    total_urls_visited_all self'
    <= total_urls_visited_all self + length rows * pages_per_payer self /\
    size (payer_results self') <= size (payer_results self) + length rows /\
    (forall name, name ∈ dom (payer_results self') <->
       name ∈ dom (payer_results self) \/
       exists row, In row rows /\ company_name row = name).
Proof.
  induction rows as [|row rows IH]; intros w w' self self' Hrun.
  - injection Hrun as <- <-. repeat split; try lia; auto.
    intros [? | (row & [] & _)]; assumption.
  - cbn [foldl] in Hrun.
    destruct (test_row time_per_payer_minutes fuel (Some (w, self)) row)
      as [[w1 self1]|] eqn:Hrow; [|now rewrite test_rows_none in Hrun].
    destruct (IH _ _ _ _ Hrun) as (Hc & Hd & Hu & Hs & Hdom). clear IH Hrun.
    assert (Hstep :
      crawler self1 = crawler self /\ payer_df self1 = payer_df self /\
      total_urls_visited_all self1
      <= total_urls_visited_all self + pages_per_payer self /\
      exists result,
        payer_results self1 = <[company_name row := result]> (payer_results self)).
    { unfold test_row in Hrow.
      destruct (test_single_payer (crawler self) (base_domain row)
                  (known_provider_portal row) time_per_payer_minutes fuel w)
        as [w2 result] eqn:Htest.
      destruct result as [msg|r|]; [| |discriminate];
        injection Hrow as <- <-; simpl.
      - repeat split; try lia. eauto.
      - apply test_single_payer_budget in Htest.
        repeat split; [unfold pages_per_payer; lia | eauto]. }
    destruct Hstep as (Hc1 & Hd1 & Hu1 & result & Hres).
    assert (Hpp : pages_per_payer self1 = pages_per_payer self)
      by (unfold pages_per_payer; now rewrite Hc1).
    rewrite Hpp in Hu.
    assert (Hsize : size (payer_results self1) <= S (size (payer_results self))).
    { rewrite Hres.
      destruct (payer_results self !! company_name row) eqn:Hl.
      - rewrite map_size_insert_Some by (now rewrite Hl). lia.
      - rewrite map_size_insert_None by exact Hl. lia. }
    split; [congruence|]. split; [congruence|].
    split; [simpl; lia|]. split; [simpl; lia|].
    intros name. rewrite Hdom, Hres, dom_insert, elem_of_union,
      elem_of_singleton. split.
    + intros [[-> | Hin] | (r & Hr & Hn)]; eauto.
      * right. exists row. split; [now left | reflexivity].
      * right. exists r. split; [now right | exact Hn].
    + intros [Hin | (r & [<- | Hr] & Hn)]; eauto.
Qed.

(** X20.  A run of [run_comprehensive_test] over the selected rows: when
    it ends, [self.payer_results] has an entry for every selected company
    besides the entries it had, at most one more entry per row, and
    [self.total_urls_visited] has grown by at most [max_urls_per_payer]
    pages for each row.  The report divides by [len(self.payer_results)]:
    the run ends with [ZeroDivisionError] exactly when that dictionary is
    still empty, which is the case exactly when it was empty before and no
    row was selected.  A [max_payers] of 0 selects every row, like
    [None]. *)
Theorem X20_comprehensive_run (self self' : Tester) (max_payers : option Z)
    (time_per_payer_minutes : Z) (fuel : nat) (w w' : W)
    (out : Exception + Report) :
  run_comprehensive_test self max_payers time_per_payer_minutes fuel w
  = Some (w', self', out) ->
  let test_payers := select_payers max_payers (payer_df self) in
  (forall name, name ∈ dom (payer_results self') <->
     name ∈ dom (payer_results self) \/
     exists row, In row test_payers /\ company_name row = name) /\
  size (payer_results self')
  <= size (payer_results self) + length test_payers /\
  total_urls_visited_all self'
  <= total_urls_visited_all self + length test_payers * pages_per_payer self /\
  (out = inl ZeroDivisionError <-> payer_results self' = ∅) /\
  (payer_results self' = ∅ <-> payer_results self = ∅ /\ test_payers = []) /\
  select_payers (Some 0%Z) (payer_df self) = payer_df self.
Proof.
  intros Hrun test_payers. unfold run_comprehensive_test in Hrun.
  destruct (time_time w) as [w0 test_start_time].
  cbv zeta in Hrun. fold test_payers in Hrun.
  destruct (foldl (test_row time_per_payer_minutes fuel) (Some (w0, self))
              test_payers) as [[w1 self1]|] eqn:Hfold; [|discriminate].
  destruct (time_time w1) as [w2 t]. injection Hrun as <- <- <-.
  destruct (test_rows_invariant _ _ _ _ _ _ _ Hfold)
    as (_ & _ & Hu & Hs & Hdom).
  split; [exact Hdom|]. split; [exact Hs|]. split; [exact Hu|].
  split; [|split; [|reflexivity]].
  - unfold generate_comprehensive_report.
    destruct (Nat.eqb_spec (size (payer_results self1)) 0) as [Hz | Hnz].
    + split; [intros _; now apply map_size_empty_iff | reflexivity].
    + split; [discriminate|]. intros He. rewrite He, map_size_empty in Hnz.
      congruence.
  - rewrite <- !dom_empty_iff_L. split.
    + intros He. split.
      * apply elem_of_equiv_empty_L. intros name Hn.
        assert (Hin : name ∈ dom (payer_results self1))
          by (apply Hdom; now left).
        rewrite He in Hin. now apply elem_of_empty in Hin.
      * destruct test_payers as [|row rows]; [reflexivity|].
        assert (Hin : company_name row ∈ dom (payer_results self1)).
        { apply Hdom. right. exists row. split; [now left | reflexivity]. }
        rewrite He in Hin. now apply elem_of_empty in Hin.
    + intros [He Hnil]. apply elem_of_equiv_empty_L. intros name Hn.
      apply Hdom in Hn as [Hn | (row & Hrow & _)].
      * rewrite He in Hn. now apply elem_of_empty in Hn.
      * rewrite Hnil in Hrow. destruct Hrow.
Qed.

End ComprehensiveRunFacts.


Lemma X20_witness :
  exists w' self' out,
    @ComprehensiveRun.run_comprehensive_test UrlModel.py_urllib Q
      (UrlModel.table_web Examples.scenario_pages 1)
      Examples3.two_payers None 3 10 0%Q
    = Some (w', self', out) /\
    size (ComprehensiveRun.payer_results self') <= 2 /\
    ComprehensiveRun.total_urls_visited_all self' <= 60 /\
    out <> inl ComprehensiveRun.ZeroDivisionError.
Proof.
  eexists _, _, _. split; [vm_compute; reflexivity|].
  pose proof (@X20_comprehensive_run UrlModel.py_urllib Q
    (UrlModel.table_web Examples.scenario_pages 1)
    Examples3.two_payers _ None 3 10 0%Q _ _ ltac:(vm_compute; reflexivity))
    as (_ & Hs & Hu & Hout & Hempty & _).
  split; [exact Hs|]. split; [exact Hu|].
  intros He. apply Hout, Hempty in He as [_ He]. discriminate He.
Defined.


Section FilterPdfFacts.

Import PayerPortalPdfs.

Lemma insert_desc_perm {A : Type} (key : A -> nat) (x : A) (l : list A) :
  insert_desc key x l ≡ₚ x :: l.
Proof.
  induction l as [|y l IH]; [reflexivity|]. simpl.
  destruct (key x <? key y); [|reflexivity].
  rewrite IH. apply Permutation_swap.
Qed.

Lemma sorted_desc_perm {A : Type} (key : A -> nat) (l : list A) :
  sorted_desc key l ≡ₚ l.
Proof.
  induction l as [|x l IH]; [reflexivity|]. unfold sorted_desc. simpl.
  rewrite insert_desc_perm. now apply Permutation_skip.
Qed.

Lemma insert_desc_sorted {A : Type} (key : A -> nat) (x : A) (l : list A) :
  StronglySorted (fun a b => key b <= key a) l ->
  StronglySorted (fun a b => key b <= key a) (insert_desc key x l).
Proof.
  induction 1 as [|y l Hs IH Hy]; simpl.
  - repeat constructor.
  - destruct (Nat.ltb_spec (key x) (key y)) as [Hlt | Hge].
    + constructor; [exact IH|].
      rewrite insert_desc_perm. constructor; [lia | exact Hy].
    + constructor; [now constructor|]. constructor; [exact Hge|].
      eapply Forall_impl; [exact Hy|]. simpl. intros z Hz. lia.
Qed.

Lemma sorted_desc_sorted {A : Type} (key : A -> nat) (l : list A) :
  StronglySorted (fun a b => key b <= key a) (sorted_desc key l).
Proof.
  induction l as [|x l IH]; [constructor|].
  now apply insert_desc_sorted.
Qed.

Lemma insert_desc_stable {A : Type} (key : A -> nat) (n : nat) (x : A)
    (l : list A) :
  List.filter (fun y => key y =? n) (insert_desc key x l)
  = List.filter (fun y => key y =? n) (x :: l).
Proof.
  induction l as [|y l IH]; [reflexivity|]. cbn [insert_desc].
  destruct (Nat.ltb_spec (key x) (key y)) as [Hlt | Hge]; [|reflexivity].
  cbn [List.filter] in *. rewrite IH.
  destruct (Nat.eqb_spec (key x) n) as [Hx | Hx];
    destruct (Nat.eqb_spec (key y) n) as [Hy | Hy]; try reflexivity.
  lia.
Qed.

Lemma sorted_desc_stable {A : Type} (key : A -> nat) (n : nat) (l : list A) :
  List.filter (fun y => key y =? n) (sorted_desc key l)
  = List.filter (fun y => key y =? n) l.
Proof.
  induction l as [|x l IH]; [reflexivity|].
  unfold sorted_desc. cbn [foldr]. rewrite insert_desc_stable.
  cbn [List.filter]. fold (sorted_desc key l). now rewrite IH.
Qed.

Lemma score_of_bound (pdf_info : PdfInfo) : score_of pdf_info <= 20.
Proof.
  unfold score_of. cbv zeta.
  etransitivity; [apply List.filter_length_le | reflexivity].
Qed.

(** X21.  For entries whose text and file name are of ASCII characters,
    [_filter_relevant_pdfs] returns exactly the entries whose text and file
    name, joined by a space and lower-cased, contain at least one of the 20
    keywords, each as often as [pdf_links] has it and with its
    [relevance_score], the number of keywords contained, between 1 and 20.
    The entries come with the highest score first, and entries with the
    same score stay in the order of [pdf_links]. *)
Theorem X21_filter_relevant_pdfs (pdf_links : list PdfInfo) :
  Forall (fun pdf_info =>
            Wellformed.is_ascii (text pdf_info) = true /\
            Wellformed.is_ascii (filename pdf_info) = true) pdf_links ->
  let out := _filter_relevant_pdfs pdf_links in
  out ≡ₚ relevant_pdfs pdf_links /\
  (forall x, x ∈ out <->
     exists pdf_info, pdf_info ∈ pdf_links /\ 1 <= score_of pdf_info /\
                      x = set_score (score_of pdf_info) pdf_info) /\
  (forall x, x ∈ out -> 1 <= get_score x <= 20) /\
  StronglySorted (fun a b => get_score b <= get_score a) out /\
  (forall n, List.filter (fun x => get_score x =? n) out
             = List.filter (fun x => get_score x =? n)
                 (relevant_pdfs pdf_links)).
Proof.
  intros _ out.
  assert (Hperm : out ≡ₚ relevant_pdfs pdf_links) by apply sorted_desc_perm.
  assert (Hin : forall x, x ∈ out <->
            exists pdf_info, pdf_info ∈ pdf_links /\ 1 <= score_of pdf_info /\
                             x = set_score (score_of pdf_info) pdf_info).
  { intros x. rewrite Hperm. unfold relevant_pdfs.
    rewrite list_elem_of_omap. split.
    - intros (pdf_info & Hp & Hsome). exists pdf_info. cbv zeta in Hsome.
      destruct (Nat.ltb_spec 0 (score_of pdf_info)) as [Hpos | Hz];
        [|discriminate].
      injection Hsome as <-. auto.
    - intros (pdf_info & Hp & Hpos & ->). exists pdf_info.
      split; [exact Hp|]. cbv zeta.
      destruct (Nat.ltb_spec 0 (score_of pdf_info)) as [_ | Hz];
        [reflexivity | lia]. }
  split; [exact Hperm|]. split; [exact Hin|]. split; [|split].
  - intros x Hx. apply Hin in Hx as (pdf_info & _ & Hpos & ->).
    unfold get_score. simpl. pose proof (score_of_bound pdf_info). lia.
  - apply sorted_desc_sorted.
  - intros n. apply sorted_desc_stable.
Qed.

End FilterPdfFacts.

Lemma X21_witness :
  StronglySorted
    (fun a b => PayerPortalPdfs.get_score b <= PayerPortalPdfs.get_score a)
    (PayerPortalPdfs._filter_relevant_pdfs
       [ {| PayerPortalPdfs.url := "https://x.test/a.pdf";
            PayerPortalPdfs.text := "Annual report";
            PayerPortalPdfs.filename := "a.pdf";
            PayerPortalPdfs.relevance_score := None |};
         {| PayerPortalPdfs.url := "https://x.test/m.pdf";
            PayerPortalPdfs.text := "Provider Manual";
            PayerPortalPdfs.filename := "m.pdf";
            PayerPortalPdfs.relevance_score := None |};
         {| PayerPortalPdfs.url := "https://x.test/b.pdf";
            PayerPortalPdfs.text := "Billing";
            PayerPortalPdfs.filename := "b.pdf";
            PayerPortalPdfs.relevance_score := None |} ]).
Proof.
  refine (proj1 (proj2 (proj2 (proj2 (X21_filter_relevant_pdfs _ _))))).
  repeat constructor.
Defined.

Section CandidateFacts.

Import RegionalEnhancedCrawler.

Lemma priority_states_known (code : string) :
  In code priority_states ->
  In (code, state_name_of code) us_states /\ lower (lower code) = lower code.
Proof.
  intros Hin. simpl in Hin.
  repeat (destruct Hin as [<- | Hin];
          [split; [simpl; repeat (first [left; reflexivity | right])
                  | reflexivity]|]).
  contradiction.
Qed.

Lemma candidate_has_code (base_domain code : string)
    (pattern : string * string) :
  In code priority_states ->
  In pattern (patterns base_domain) ->
  contains ("/" +:+ lower code +:+ "/")
    (lower (format_state pattern (lower code))) = true.
Proof.
  intros Hcode Hpat.
  destruct (priority_states_known code Hcode) as [_ Hlow].
  assert (Hshape : exists pre suf,
             pattern = (pre +:+ "/", "/" +:+ suf)).
  { assert (Heq : forall (pre suf a b : string),
              a = pre +:+ "/" -> b = "/" +:+ suf ->
              exists pre suf, (a, b) = (pre +:+ "/", "/" +:+ suf))
      by (intros pre suf a b -> ->; eauto).
    simpl in Hpat.
    destruct Hpat as [<- | [<- | [<- | [<- | [<- | [<- | [<- | [<- | []]]]]]]]].
    - apply (Heq ("https://www." +:+ base_domain +:+ "/providers") "");
        [now rewrite !append_assoc | reflexivity].
    - apply (Heq ("https://provider." +:+ base_domain) ""); reflexivity.
    - apply (Heq ("https://providers." +:+ base_domain) ""); reflexivity.
    - apply (Heq ("https://www." +:+ base_domain +:+ "/state") "");
        [now rewrite !append_assoc | reflexivity].
    - apply (Heq ("https://www." +:+ base_domain +:+ "/regional") "");
        [now rewrite !append_assoc | reflexivity].
    - apply (Heq ("https://www." +:+ base_domain) "providers/"); reflexivity.
    - apply (Heq ("https://www." +:+ base_domain +:+ "/medicaid") "");
        [now rewrite !append_assoc | reflexivity].
    - apply (Heq ("https://www." +:+ base_domain +:+ "/medicare") "");
        [now rewrite !append_assoc | reflexivity]. }
  destruct Hshape as (pre & suf & ->). unfold format_state. simpl fst. simpl snd.
  apply contains_spec. exists (lower pre), (lower suf).
  rewrite !lower_app, Hlow, !append_assoc. reflexivity.
Qed.


End CandidateFacts.



Section RegionalPagesFacts.

Import RegionalEnhancedCrawler.

Context `{UrlLib} `{Web W}.
Variable self_max_depth : Z.
Variable allowed_domains : list string.

Lemma process_link_pages (depth : Z) (link_text absolute_url : string)
    (st : State W) :
  relevant_pages (process_link self_max_depth allowed_domains depth link_text
                    absolute_url st)
  = relevant_pages st.
Proof.
  unfold process_link.
  destruct (negb _); [reflexivity|].
  destruct (_ || _); [reflexivity|]. cbv zeta.
  now destruct (_ && _ && _).
Qed.

Lemma process_links_pages (current_url : string) (depth : Z)
    (links : list (string * string)) (st : State W) :
  relevant_pages (fst (process_links self_max_depth allowed_domains
                         current_url depth links st))
  = relevant_pages st.
Proof.
  revert st. induction links as [|[href text] rest IH]; intros st; simpl.
  - reflexivity.
  - destruct (urljoin current_url href) as [absolute_url|]; [|reflexivity].
    rewrite IH. apply process_link_pages.
Qed.

(** What a round does to [relevant_pages]. *)
Lemma iteration_pages (st : State W) :
  (relevant_pages (iteration self_max_depth allowed_domains st)
   = relevant_pages st /\
   forall u, u ∈ fetched (log st) ->
     u ∈ fetched (log (iteration self_max_depth allowed_domains st))) \/
  exists current_url depth score rest page_text,
    queue st = (current_url, depth, score) :: rest /\
    (current_url ∉ visited_urls st) /\
    (depth <= self_max_depth)%Z /\
    (5 <= score_regional_relevance current_url page_text)%Z /\
    relevant_pages (iteration self_max_depth allowed_domains st)
    = relevant_pages st
      ++ [ {| page_url := current_url;
              page_score := score_regional_relevance current_url page_text;
              page_indicators :=
                elements (detect_regional_indicators current_url page_text);
              page_depth := depth |} ] /\
    fetched (log (iteration self_max_depth allowed_domains st))
    = fetched (log st) ++ [current_url].
Proof.
  destruct (queue st) as [|[[current_url depth] score] rest] eqn:Hq.
  { left. unfold iteration. rewrite Hq. auto. }
  pose proof (regional_iteration_cases self_max_depth allowed_domains st
                current_url depth score rest Hq) as Hcases.
  unfold iteration in *. rewrite Hq in *.
  destruct (bool_decide (current_url ∈ visited_urls (set_queue rest st))
            || (self_max_depth <? depth)%Z) eqn:Hskip; [left; auto|].
  apply orb_false_iff in Hskip as [Hv Hd].
  apply bool_decide_eq_false in Hv. apply Z.ltb_ge in Hd.
  destruct (negb (domain_allowed allowed_domains current_url)) eqn:Hdom;
    [left; auto|].
  destruct Hcases as [[_ [Hc | Hc]] | [(_ & Hc & _) | (_ & _ & [_ _ _ Pf])]];
    [now simpl in Hv | lia
    | apply negb_false_iff in Hdom; congruence |].
  simpl in Pf. rewrite regional_fetched_cons_exploring in Pf.
  cbn [world add_event mark_processed set_queue] in *.
  destruct (driver_get (world st) current_url) as [w' r].
  destruct r as [|page_text links].
  - left. split; [reflexivity|]. intros u Hu. rewrite Pf.
    apply elem_of_app. now left.
  - unfold process_page in *.
    match goal with
    | |- context [process_links _ _ _ _ _ ?s] =>
        pose proof (process_links_pages current_url depth links s) as Hp;
        destruct (process_links self_max_depth allowed_domains current_url
                    depth links s) as [st2 ok]
    end.
    simpl in Hp. destruct ok.
    + destruct (5 <=? score_regional_relevance current_url page_text)%Z
        eqn:Hfive.
      * right. exists current_url, depth, score, rest, page_text.
        apply Z.leb_le in Hfive. simpl. rewrite Hp.
        repeat split; auto.
      * left. split; [exact Hp|]. intros u Hu. rewrite Pf.
        apply elem_of_app. now left.
    + left. split; [exact Hp|]. intros u Hu. rewrite Pf.
      apply elem_of_app. now left.
Qed.

Lemma iteration_pages_ok (V0 : gset string) (init : list (string * Z * Z))
    (st : State W) :
  LoopSpec.regional_invariant allowed_domains V0 st ->
  RegionalSpec.frontier_ok self_max_depth allowed_domains init st ->
  RegionalPages.pages_ok self_max_depth st ->
  RegionalPages.pages_ok self_max_depth
    (iteration self_max_depth allowed_domains st).
Proof.
  intros [_ _ If] [Fq _] [Pp Pn].
  destruct (iteration_pages st)
    as [[Heq Hmono]
       | (current_url & depth & score & rest & page_text & Hq & Hnv & Hd
          & Hfive & Heq & Hf)].
  - split; rewrite Heq; [|exact Pn].
    intros p Hp. destruct (Pp p Hp) as (Hu & Hrest). split; [|exact Hrest].
    now apply Hmono.
  - assert (Hdepth : (0 <= depth)%Z).
    { destruct (Fq (current_url, depth, score)) as [Hd0 _]; [|exact Hd0].
      rewrite Hq. left. }
    split; rewrite Heq.
    + intros p Hp. apply elem_of_app in Hp as [Hp | Hp].
      * destruct (Pp p Hp) as (Hu & Hrest). split; [|exact Hrest].
        rewrite Hf. apply elem_of_app. now left.
      * apply list_elem_of_singleton in Hp as ->. split; simpl.
        -- rewrite Hf. apply elem_of_app. right. left.
        -- split; [lia|]. exists page_text. auto.
    + rewrite map_app. simpl. apply NoDup_app. split; [exact Pn|].
      split; [|apply NoDup_singleton].
      intros u Hu Hin. apply list_elem_of_singleton in Hin as ->.
      apply list_elem_of_fmap in Hu as (p & Hpu & Hp).
      destruct (Pp p Hp) as (Hfetched & _). rewrite <- Hpu in Hfetched.
      destruct (If _ Hfetched) as (Hvis & _). contradiction.
Qed.

End RegionalPagesFacts.

Section RegionalPagesReport.

Import RegionalEnhancedCrawler.

Context `{UrlLib} `{Web W}.


End RegionalPagesReport.

Section RegionalEdges.

Import RegionalEnhancedCrawler.

Context `{UrlLib} `{Web W}.

(** X24.  Nothing to crawl.  With an empty list of starting URLs (no
    state candidates are generated then), or when the first starting URL
    is plain (so that [urlparse] and [str.format], called before the loop,
    do not raise) and the first clock reading of the loop is already
    [max_time_minutes] or more past the start,
    [discover_regional_content_bfs] returns at once: no URL is processed,
    no document, state or page is reported, and [regional_completeness]
    is 0. *)
Theorem X24_regional_nothing_to_crawl (self : Crawler)
    (starting_urls allowed_domains : list string) (max_time_minutes : Z)
    (fuel : nat) (w : W) :
  starting_urls = [] \/
  ((forall first_url rest, starting_urls = first_url :: rest ->
      Wellformed.plain_url first_url = true) /\
   (inject_Z (max_time_minutes * 60)
    <= snd (time_time (fst (time_time w))) - snd (time_time w))%Q) ->
  exists w' elapsed_time_minutes,
    discover_regional_content_bfs self starting_urls allowed_domains
      max_time_minutes fuel w
    = Some (w', {| elapsed_time_minutes := elapsed_time_minutes;
                   res_urls_processed := 0;
                   total_pdfs_found := 0;
                   res_regional_pdfs := ∅;
                   res_state_coverage := [];
                   states_covered_count := 0;
                   res_relevant_pages := [];
                   res_all_pdfs := [];
                   regional_completeness := 0 |}).
Proof.
  intros Hedge. unfold discover_regional_content_bfs.
  destruct (time_time w) as [w0 start_time] eqn:Hw. simpl in Hedge.
  set (st0 := initial_state self starting_urls w0).
  assert (Hrun : exists w1,
             bfs_loop (max_depth self) allowed_domains start_time
               (max_time_minutes * 60) fuel st0
             = PdfBfs.Completed (set_world w1 st0)).
  { destruct Hedge as [-> | [_ Hlate]].
    - exists w0. destruct fuel; reflexivity.
    - destruct (regional_deadline_exact (max_depth self) allowed_domains
                  start_time (max_time_minutes * 60) fuel st0 Hlate)
        as (w1 & Hrun & _).
      now exists w1. }
  destruct Hrun as (w1 & ->). simpl.
  destruct (time_time w1) as [w2 t]. eexists _, _. reflexivity.
Qed.

End RegionalEdges.

Lemma X24_witness :
  (exists w' elapsed_time_minutes,
     @RegionalEnhancedCrawler.discover_regional_content_bfs UrlModel.py_urllib
       Q (UrlModel.table_web Examples.ohio_pages 1) Examples.regional_crawler
       [] ["x.test"] 5 7 0%Q
     = Some (w', {| RegionalEnhancedCrawler.elapsed_time_minutes :=
                      elapsed_time_minutes;
                    RegionalEnhancedCrawler.res_urls_processed := 0;
                    RegionalEnhancedCrawler.total_pdfs_found := 0;
                    RegionalEnhancedCrawler.res_regional_pdfs := ∅;
                    RegionalEnhancedCrawler.res_state_coverage := [];
                    RegionalEnhancedCrawler.states_covered_count := 0;
                    RegionalEnhancedCrawler.res_relevant_pages := [];
                    RegionalEnhancedCrawler.res_all_pdfs := [];
                    RegionalEnhancedCrawler.regional_completeness := 0 |})) /\
  (exists w' elapsed_time_minutes,
     @RegionalEnhancedCrawler.discover_regional_content_bfs UrlModel.py_urllib
       Q (UrlModel.table_web Examples.ohio_pages 1) Examples.regional_crawler
       ["https://x.test/"] ["x.test"] 0 7 0%Q
     = Some (w', {| RegionalEnhancedCrawler.elapsed_time_minutes :=
                      elapsed_time_minutes;
                    RegionalEnhancedCrawler.res_urls_processed := 0;
                    RegionalEnhancedCrawler.total_pdfs_found := 0;
                    RegionalEnhancedCrawler.res_regional_pdfs := ∅;
                    RegionalEnhancedCrawler.res_state_coverage := [];
                    RegionalEnhancedCrawler.states_covered_count := 0;
                    RegionalEnhancedCrawler.res_relevant_pages := [];
                    RegionalEnhancedCrawler.res_all_pdfs := [];
                    RegionalEnhancedCrawler.regional_completeness := 0 |})).
Proof.
  split.
  - apply (@X24_regional_nothing_to_crawl UrlModel.py_urllib Q
             (UrlModel.table_web Examples.ohio_pages 1)).
    left. reflexivity.
  - apply (@X24_regional_nothing_to_crawl UrlModel.py_urllib Q
             (UrlModel.table_web Examples.ohio_pages 1)).
    right. split.
    + intros first_url rest Heq. injection Heq as <- _. reflexivity.
    + vm_compute. discriminate.
Defined.
